(** * simVM: a paged virtual-memory simulation (P6/simVM.c)

    A shallow embedding of the simulation and the proofs of its properties.

    The C program keeps one [struct VM] behind an opaque handle.  Every
    accessor ([readInt], [writeInt], [readFloat], [writeFloat]) goes through
    [real_address], which translates a virtual word address to a location of
    the simulated physical memory by way of a TLB, a page table and, on a
    page fault, a victim frame that is written back to the simulated disk
    when it is dirty.

    Conventions of the embedding:
    - a C [int] is a [Z]; an [int] computation whose mathematical result
      leaves the 32-bit signed range is undefined in C and is the outcome
      [Stuck IntOverflow] here; [unsigned] arithmetic wraps modulo 2^32;
    - an array allocated with [calloc] is a [list Z] of that many zeros; an
      access outside of it is [Stuck OutOfBounds];
    - the simulated memory and disk are arrays of 32-bit words; the byte
      offsets the program computes are all multiples of four;
    - state is passed explicitly: a function that mutates [*model] returns
      the new [VM]. *)

From stdpp Require Import base numbers list list_numbers.
From Stdlib Require Import ZArith Lia.

Local Open Scope Z_scope.

(** ** Outcomes of a C computation *)

(** What the C standard leaves undefined and the program can run into. *)
Inductive fault : Type :=
  | OutOfBounds   (* an access outside of an allocated array *)
  | DivByZero     (* [/] or [%] by zero *)
  | IntOverflow.  (* a signed [int] result outside of the 32-bit range *)

(** A call either returns ([Done]), prints a diagnostic to stderr and
    terminates the program ([Fatal], what the comments of the accessors
    announce for a bad address), or has no defined behaviour ([Stuck]). *)
Inductive outcome (A : Type) : Type :=
  | Done (a : A)
  | Fatal
  | Stuck (f : fault).

Arguments Done {A} a.
Arguments Fatal {A}.
Arguments Stuck {A} f.

Definition obind {A B : Type} (o : outcome A) (k : A -> outcome B) : outcome B :=
  match o with
  | Done a => k a
  | Fatal => Fatal
  | Stuck f => Stuck f
  end.

Notation "x <- e ; k" := (obind e (fun x => k))
  (at level 20, e at level 100, k at level 200, only parsing).
Notation "' p <- e ; k" := (obind e (fun x => match x with p => k end))
  (at level 20, p pattern, e at level 100, k at level 200, only parsing).

(** ** Machine integers *)

Definition INT_MAX : Z := 2147483647.
Definition INT_MIN : Z := -2147483648.

Definition int_ok (z : Z) : bool := (INT_MIN <=? z) && (z <=? INT_MAX).

(** The value of an [int] expression, when it is representable. *)
Definition ck (z : Z) : outcome Z :=
  if int_ok z then Done z else Stuck IntOverflow.

Definition iadd (a b : Z) : outcome Z := ck (a + b).
Definition isub (a b : Z) : outcome Z := ck (a - b).
Definition imul (a b : Z) : outcome Z := ck (a * b).

(** [a % b] on [int]: C truncates towards zero, and [INT_MIN % -1] is
    undefined because [INT_MIN / -1] is not representable. *)
Definition irem (a b : Z) : outcome Z :=
  if b =? 0 then Stuck DivByZero
  else if (a =? INT_MIN) && (b =? -1) then Stuck IntOverflow
  else ck (Z.rem a b).

(** Conversion to [unsigned int] and back to [int] (the latter as gcc and
    clang define it: modulo 2^32). *)
Definition u32 (z : Z) : Z := z mod 4294967296.
Definition s32 (z : Z) : Z :=
  let w := z mod 4294967296 in if w <? 2147483648 then w else w - 4294967296.

(** [address / pagesize] and [address % pagesize] with [address] unsigned:
    the [int] operand is converted to unsigned, the result is stored in an
    [int]. *)
Definition udiv (a b : Z) : outcome Z :=
  if u32 b =? 0 then Stuck DivByZero else Done (s32 (a / u32 b)).
Definition urem (a b : Z) : outcome Z :=
  if u32 b =? 0 then Stuck DivByZero else Done (s32 (a mod u32 b)).

(** ** Arrays *)

Definition len (l : list Z) : Z := Z.of_nat (length l).

(** The element at index [i]; meaningful for [0 <= i < len l]. *)
Definition rd (l : list Z) (i : Z) : Z := l !!! Z.to_nat i.

Definition upd (l : list Z) (i v : Z) : list Z := <[Z.to_nat i := v]> l.

Definition inb (l : list Z) (i : Z) : bool := (0 <=? i) && (i <? len l).

(** [l[i]] as an rvalue. *)
Definition get (l : list Z) (i : Z) : outcome Z :=
  if inb l i then Done (rd l i) else Stuck OutOfBounds.

(** [l[i] = v]. *)
Definition set (l : list Z) (i v : Z) : outcome (list Z) :=
  if inb l i then Done (upd l i v) else Stuck OutOfBounds.

(** [calloc(n, sizeof(int))]. *)
Definition calloc (n : Z) : list Z := replicate (Z.to_nat n) 0.

(** [n] words of [src] from word [soff] on, put over [dst] from word [doff] on. *)
Definition blit (dst : list Z) (doff : Z) (src : list Z) (soff n : Z) : list Z :=
  list_inserts (Z.to_nat doff) (take (Z.to_nat n) (drop (Z.to_nat soff) src)) dst.

(** [memcpy(dst + db, src + sb, nb)] on two word arrays, with byte offsets
    and a byte count that are multiples of four.  A negative count is a huge
    [size_t]. *)
Definition memcpy (dst : list Z) (db : Z) (src : list Z) (sb nb : Z) : outcome (list Z) :=
  if (0 <=? nb) && (0 <=? db) && (db + nb <=? 4 * len dst)
     && (0 <=? sb) && (sb + nb <=? 4 * len src)
  then Done (blit dst (db / 4) src (sb / 4) (nb / 4))
  else Stuck OutOfBounds.

(** [*(int * )(base + b)] and its assignment, [b] a byte offset. *)
Definition load (l : list Z) (b : Z) : outcome Z := get l (b / 4).
Definition store (l : list Z) (b v : Z) : outcome (list Z) := set l (b / 4) v.

(** The loop [for (i = 0; i < n; i++) if (p[i] == x) ...] that
    [lookup_in_tlb_and_mark], [lookup_in_mem] and [flushtlb] share: the first
    index at which the body is entered, or [-1] when the loop runs out. *)
Fixpoint scan_from (p : list Z) (x : Z) (i : Z) (k : nat) : outcome Z :=
  match k with
  | O => Done (-1)
  | S k' => v <- get p i ;
            if v =? x then Done i else scan_from p x (i + 1) k'
  end.

Definition scan (p : list Z) (x n : Z) : outcome Z := scan_from p x 0 (Z.to_nat n).

(** ** The state *)

Record VM : Type := mkVM {
  pagesize : Z; vpage : Z;
  ppage : Z; palg : Z; pvirt : list Z; ptime : list Z; dirty : list Z;
  tlb : Z; tlbalg : Z; ptlb : list Z; vtlb : list Z; tlbtime : list Z;
  rrp : Z; rrt : Z; timestamp : Z;
  pc : Z; tc : Z; dc : Z;
  mem : list Z; disk : list Z
}.

Definition with_pvirt (m : VM) (x : list Z) : VM :=
  mkVM (pagesize m) (vpage m) (ppage m) (palg m) x (ptime m) (dirty m)
       (tlb m) (tlbalg m) (ptlb m) (vtlb m) (tlbtime m)
       (rrp m) (rrt m) (timestamp m) (pc m) (tc m) (dc m) (mem m) (disk m).
Definition with_ptime (m : VM) (x : list Z) : VM :=
  mkVM (pagesize m) (vpage m) (ppage m) (palg m) (pvirt m) x (dirty m)
       (tlb m) (tlbalg m) (ptlb m) (vtlb m) (tlbtime m)
       (rrp m) (rrt m) (timestamp m) (pc m) (tc m) (dc m) (mem m) (disk m).
Definition with_dirty (m : VM) (x : list Z) : VM :=
  mkVM (pagesize m) (vpage m) (ppage m) (palg m) (pvirt m) (ptime m) x
       (tlb m) (tlbalg m) (ptlb m) (vtlb m) (tlbtime m)
       (rrp m) (rrt m) (timestamp m) (pc m) (tc m) (dc m) (mem m) (disk m).
Definition with_ptlb (m : VM) (x : list Z) : VM :=
  mkVM (pagesize m) (vpage m) (ppage m) (palg m) (pvirt m) (ptime m) (dirty m)
       (tlb m) (tlbalg m) x (vtlb m) (tlbtime m)
       (rrp m) (rrt m) (timestamp m) (pc m) (tc m) (dc m) (mem m) (disk m).
Definition with_vtlb (m : VM) (x : list Z) : VM :=
  mkVM (pagesize m) (vpage m) (ppage m) (palg m) (pvirt m) (ptime m) (dirty m)
       (tlb m) (tlbalg m) (ptlb m) x (tlbtime m)
       (rrp m) (rrt m) (timestamp m) (pc m) (tc m) (dc m) (mem m) (disk m).
Definition with_tlbtime (m : VM) (x : list Z) : VM :=
  mkVM (pagesize m) (vpage m) (ppage m) (palg m) (pvirt m) (ptime m) (dirty m)
       (tlb m) (tlbalg m) (ptlb m) (vtlb m) x
       (rrp m) (rrt m) (timestamp m) (pc m) (tc m) (dc m) (mem m) (disk m).
Definition with_rrp (m : VM) (x : Z) : VM :=
  mkVM (pagesize m) (vpage m) (ppage m) (palg m) (pvirt m) (ptime m) (dirty m)
       (tlb m) (tlbalg m) (ptlb m) (vtlb m) (tlbtime m)
       x (rrt m) (timestamp m) (pc m) (tc m) (dc m) (mem m) (disk m).
Definition with_rrt (m : VM) (x : Z) : VM :=
  mkVM (pagesize m) (vpage m) (ppage m) (palg m) (pvirt m) (ptime m) (dirty m)
       (tlb m) (tlbalg m) (ptlb m) (vtlb m) (tlbtime m)
       (rrp m) x (timestamp m) (pc m) (tc m) (dc m) (mem m) (disk m).
Definition with_timestamp (m : VM) (x : Z) : VM :=
  mkVM (pagesize m) (vpage m) (ppage m) (palg m) (pvirt m) (ptime m) (dirty m)
       (tlb m) (tlbalg m) (ptlb m) (vtlb m) (tlbtime m)
       (rrp m) (rrt m) x (pc m) (tc m) (dc m) (mem m) (disk m).
Definition with_pc (m : VM) (x : Z) : VM :=
  mkVM (pagesize m) (vpage m) (ppage m) (palg m) (pvirt m) (ptime m) (dirty m)
       (tlb m) (tlbalg m) (ptlb m) (vtlb m) (tlbtime m)
       (rrp m) (rrt m) (timestamp m) x (tc m) (dc m) (mem m) (disk m).
Definition with_tc (m : VM) (x : Z) : VM :=
  mkVM (pagesize m) (vpage m) (ppage m) (palg m) (pvirt m) (ptime m) (dirty m)
       (tlb m) (tlbalg m) (ptlb m) (vtlb m) (tlbtime m)
       (rrp m) (rrt m) (timestamp m) (pc m) x (dc m) (mem m) (disk m).
Definition with_dc (m : VM) (x : Z) : VM :=
  mkVM (pagesize m) (vpage m) (ppage m) (palg m) (pvirt m) (ptime m) (dirty m)
       (tlb m) (tlbalg m) (ptlb m) (vtlb m) (tlbtime m)
       (rrp m) (rrt m) (timestamp m) (pc m) (tc m) x (mem m) (disk m).
Definition with_mem (m : VM) (x : list Z) : VM :=
  mkVM (pagesize m) (vpage m) (ppage m) (palg m) (pvirt m) (ptime m) (dirty m)
       (tlb m) (tlbalg m) (ptlb m) (vtlb m) (tlbtime m)
       (rrp m) (rrt m) (timestamp m) (pc m) (tc m) (dc m) x (disk m).
Definition with_disk (m : VM) (x : list Z) : VM :=
  mkVM (pagesize m) (vpage m) (ppage m) (palg m) (pvirt m) (ptime m) (dirty m)
       (tlb m) (tlbalg m) (ptlb m) (vtlb m) (tlbtime m)
       (rrp m) (rrt m) (timestamp m) (pc m) (tc m) (dc m) (mem m) x.

(** What [createVM] hands back: [NULL] or a pointer to a [struct VM]. *)
Inductive handle : Type :=
  | NULL
  | Handle (model : VM).

(** ** createVM *)

(** [for (int i = 0; i < n; i++) l[i] = i;] *)
Fixpoint fill_from (l : list Z) (i : Z) (k : nat) : outcome (list Z) :=
  match k with
  | O => Done l
  | S k' => l' <- set l i i ;
            i' <- iadd i 1 ;
            fill_from l' i' k'
  end.

Definition fill (l : list Z) (n : Z) : outcome (list Z) := fill_from l 0 (Z.to_nat n).

(** The arguments are [unsigned int]s (and two [char]s).  The second loop of
    the source fills [ptlb] and [vtlb] in one pass; they are two arrays, so
    the model fills one after the other. *)
Definition createVM (sizeVM sizePM pageSize sizeTLB pageReplAlg tlbReplAlg : Z)
  : outcome handle :=
  pv <- fill (calloc sizePM) sizePM ;
  pt <- fill (calloc sizeTLB) sizeTLB ;
  vt <- fill (calloc sizeTLB) sizeTLB ;
  Done (Handle
    {| pagesize := s32 pageSize; vpage := s32 sizeVM;
       ppage := s32 sizePM; palg := pageReplAlg;
       pvirt := pv; ptime := calloc sizePM; dirty := calloc sizePM;
       tlb := s32 sizeTLB; tlbalg := tlbReplAlg;
       ptlb := pt; vtlb := vt; tlbtime := calloc sizeTLB;
       rrp := 0; rrt := 0; timestamp := 0;
       pc := 0; tc := 0; dc := 0;
       mem := calloc (u32 (sizePM * pageSize));
       disk := calloc (u32 (sizeVM * pageSize)) |}).

(** ** Lookups *)

Definition lookup_in_tlb_and_mark (model : VM) (pte : Z) : outcome (VM * Z) :=
  i <- scan (vtlb model) pte (tlb model) ;
  if i =? -1 then Done (model, -1)
  else
    t <- set (tlbtime model) i (timestamp model) ;
    r <- get (ptlb model) i ;
    Done (with_tlbtime model t, r).

Definition lookup_in_mem (model : VM) (pte : Z) : outcome Z :=
  scan (pvirt model) pte (ppage model).

(** [model->mem + index * model->pagesize * 4 + add * 4], as a byte offset
    into [mem]: the two products are [int] arithmetic. *)
Definition make_address (model : VM) (index add : Z) : outcome Z :=
  t <- imul index (pagesize model) ;
  b <- imul t 4 ;
  o <- imul add 4 ;
  Done (b + o).

Definition mark (model : VM) (pte dty : Z) : outcome VM :=
  d <- (if dty =? 0 then Done (dirty model) else set (dirty model) pte 1) ;
  t <- set (ptime model) pte (timestamp model) ;
  Done (with_ptime (with_dirty model d) t).

(** ** Replacement policies *)

Fixpoint minindex_from (p : list Z) (i : Z) (k : nat) (value index : Z) : outcome Z :=
  match k with
  | O => Done index
  | S k' => v <- get p i ;
            if v <? value then minindex_from p (i + 1) k' v i
            else minindex_from p (i + 1) k' value index
  end.

Definition minindex (p : list Z) (n : Z) : outcome Z :=
  minindex_from p 0 (Z.to_nat n) 2147483647 (-1).

Definition choose_page (model : VM) : outcome (VM * Z) :=
  if palg model =? 0 then
    r <- iadd (rrp model) 1 ;
    r <- irem r (ppage model) ;
    s <- iadd r (ppage model) ;
    s <- isub s 1 ;
    v <- irem s (ppage model) ;
    Done (with_rrp model r, v)
  else
    v <- minindex (ptime model) (ppage model) ;
    Done (model, v).

Definition choose_tlb (model : VM) : outcome (VM * Z) :=
  if tlbalg model =? 0 then
    r <- iadd (rrt model) 1 ;
    r <- irem r (tlb model) ;
    s <- iadd r (tlb model) ;
    s <- isub s 1 ;
    v <- irem s (tlb model) ;
    Done (with_rrt model r, v)
  else
    v <- minindex (tlbtime model) (tlb model) ;
    Done (model, v).

(** ** TLB installation *)

Definition addtlb (model : VM) (fr pte : Z) : outcome VM :=
  '(model, index) <- choose_tlb model ;
  p <- set (ptlb model) index fr ;
  v <- set (vtlb model) index pte ;
  t <- set (tlbtime model) index (timestamp model) ;
  Done (with_tlbtime (with_vtlb (with_ptlb model p) v) t).

Definition flushtlb (model : VM) (fr pte : Z) : outcome VM :=
  i <- scan (ptlb model) fr (tlb model) ;
  if i =? -1 then addtlb model fr pte
  else
    v <- set (vtlb model) i pte ;
    Done (with_vtlb model v).

(** ** Address translation *)

(** [i * model->pagesize * 4]: the byte offset of page [i] in [mem] or [disk]. *)
Definition page_bytes (model : VM) (i : Z) : outcome Z :=
  t <- imul i (pagesize model) ;
  imul t 4.

(** The local variable [mem] of the source is [fr] here, its parameter
    [dirty] is [dty]: both names are fields of [VM]. *)
Definition real_address (model : VM) (address dty : Z) : outcome (VM * Z) :=
  ts <- iadd (timestamp model) 1 ;
  let model := with_timestamp model ts in
  pte <- udiv address (pagesize model) ;
  add <- urem address (pagesize model) ;
  '(model, fr) <- lookup_in_tlb_and_mark model pte ;
  if negb (fr =? -1) then
    model <- mark model fr dty ;
    a <- make_address model fr add ;
    Done (model, a)
  else
    c <- iadd (tc model) 1 ;
    let model := with_tc model c in
    fr <- lookup_in_mem model pte ;
    if negb (fr =? -1) then
      model <- mark model fr dty ;
      model <- addtlb model fr pte ;
      a <- make_address model fr add ;
      Done (model, a)
    else
      c <- iadd (pc model) 1 ;
      let model := with_pc model c in
      '(model, fr) <- choose_page model ;
      d <- get (dirty model) fr ;
      model <- (if d =? 0 then Done model
                else
                  c <- iadd (dc model) 1 ;
                  let model := with_dc model c in
                  q <- get (pvirt model) fr ;
                  db <- page_bytes model q ;
                  sb <- page_bytes model fr ;
                  nb <- imul (pagesize model) 4 ;
                  dk <- memcpy (disk model) db (mem model) sb nb ;
                  Done (with_disk model dk)) ;
      pv <- set (pvirt model) fr pte ;
      let model := with_pvirt model pv in
      pt <- set (ptime model) fr (timestamp model) ;
      let model := with_ptime model pt in
      dl <- set (dirty model) fr 0 ;
      let model := with_dirty model dl in
      db <- page_bytes model fr ;
      q <- get (pvirt model) fr ;
      sb <- page_bytes model q ;
      nb <- imul (pagesize model) 4 ;
      mm <- memcpy (mem model) db (disk model) sb nb ;
      let model := with_mem model mm in
      model <- flushtlb model fr pte ;
      model <- mark model fr dty ;
      a <- make_address model fr add ;
      Done (model, a).

Definition read_address (model : VM) (address : Z) : outcome (VM * Z) :=
  real_address model address 0.

Definition write_address (model : VM) (address value : Z) : outcome VM :=
  '(model, a) <- real_address model address 1 ;
  mm <- store (mem model) a value ;
  Done (with_mem model mm).

(** ** The accessors

    A word of the simulated memory is its 32-bit pattern: [readFloat] and
    [writeFloat] move the same four bytes as [readInt] and [writeInt], the
    value being the bit pattern of the [float]. *)

Definition readInt (model : VM) (address : Z) : outcome (VM * Z) :=
  '(model, a) <- read_address model address ;
  v <- load (mem model) a ;
  Done (model, v).

Definition readFloat (model : VM) (address : Z) : outcome (VM * Z) :=
  '(model, a) <- read_address model address ;
  v <- load (mem model) a ;
  Done (model, v).

Definition writeInt (model : VM) (address value : Z) : outcome VM :=
  write_address model address value.

Definition writeFloat (model : VM) (address value : Z) : outcome VM :=
  write_address model address value.

(** [printStatistics] prints these three numbers. *)
Definition statistics (model : VM) : Z * Z * Z := (pc model, tc model, dc model).

(** ** Sequences of accesses *)

Inductive access : Type :=
  | ReadInt (address : Z)
  | ReadFloat (address : Z)
  | WriteInt (address value : Z)
  | WriteFloat (address value : Z).

Definition addr_of (op : access) : Z :=
  match op with
  | ReadInt a | ReadFloat a | WriteInt a _ | WriteFloat a _ => a
  end.

Definition exec (model : VM) (op : access) : outcome VM :=
  match op with
  | ReadInt a => '(model, _) <- readInt model a ; Done model
  | ReadFloat a => '(model, _) <- readFloat model a ; Done model
  | WriteInt a v => writeInt model a v
  | WriteFloat a v => writeFloat model a v
  end.

Fixpoint run (model : VM) (ops : list access) : outcome VM :=
  match ops with
  | [] => Done model
  | op :: ops' => model <- exec model op ; run model ops'
  end.

(** * The vocabulary of the statements *)

(** [i] is the first of the indices [0 .. n-1] of [l] that holds [x]. *)
Definition first_at (l : list Z) (n x i : Z) : Prop :=
  0 <= i < n /\ i < len l /\ rd l i = x /\ forall j, 0 <= j < i -> rd l j <> x.

(** None of the indices [0 .. n-1] of [l] holds [x] (and all are in bounds). *)
Definition absent (l : list Z) (n x : Z) : Prop :=
  forall j, 0 <= j < n -> j < len l /\ rd l j <> x.

(** [i] is the first index of [0 .. n-1] at which [l] is least. *)
Definition first_min (l : list Z) (n i : Z) : Prop :=
  0 <= i < n /\ i < len l /\
  (forall j, 0 <= j < n -> rd l i <= rd l j) /\
  (forall j, 0 <= j < i -> rd l i < rd l j).

(** The loop invariant of [minindex] after the indices below [i]. *)
Definition min_so_far (l : list Z) (i value index : Z) : Prop :=
  (index = -1 /\ value = 2147483647 /\ forall j, 0 <= j < i -> 2147483647 <= rd l j) \/
  (0 <= index < i /\ value = rd l index /\ value < 2147483647 /\
   (forall j, 0 <= j < i -> value <= rd l j) /\
   (forall j, 0 <= j < index -> value < rd l j)).

(** The states that the functions build. *)
Definition tlbset (m : VM) (r : Z) (p v t : list Z) : VM :=
  with_tlbtime (with_vtlb (with_ptlb (with_rrt m r) p) v) t.

Definition marked (m : VM) (fr dty : Z) : VM :=
  with_ptime
    (with_dirty m (if dty =? 0 then dirty m else upd (dirty m) fr 1))
    (upd (ptime m) fr (timestamp m)).

(** What a replacement policy hands out: under round-robin the cursor moves
    on, under LRU [minindex] decides. *)
Definition victim (alg cursor n : Z) (times : list Z) (cursor' v : Z) : Prop :=
  (alg = 0 /\ n <> 0 /\ INT_MIN <= cursor + 1 <= INT_MAX /\
   cursor' = Z.rem (cursor + 1) n /\
   INT_MIN <= cursor' + n <= INT_MAX /\ INT_MIN <= cursor' + n - 1 <= INT_MAX /\
   v = Z.rem (cursor' + n - 1) n) \/
  (alg <> 0 /\ cursor' = cursor /\ minindex times n = Done v).

(** Slot [i] of the TLB now maps [pte] to [fr]: either slot [i] already
    pointed at [fr] and only its page changes ([flushtlb]'s loop), or the
    TLB's policy chose it ([addtlb]). *)
Definition installed_by_policy (m : VM) (i r : Z) (t : list Z) : Prop :=
  victim (tlbalg m) (rrt m) (tlb m) (tlbtime m) r i /\
  0 <= i < len (tlbtime m) /\ t = upd (tlbtime m) i (timestamp m).

Definition installed_in_place (m : VM) (fr i r : Z) (t : list Z) : Prop :=
  first_at (ptlb m) (tlb m) fr i /\ r = rrt m /\ t = tlbtime m.

Definition addr (m : VM) (fr add : Z) : Z := fr * pagesize m * 4 + add * 4.

(** After the TLB probe missed, [t] is the array of TLB timestamps.  (A slot
    that holds the page but whose frame field reads [-1] is stamped and then
    taken for a miss; no state built by [createVM] has such a slot.) *)
Definition tlb_missed (m : VM) (pte : Z) (t : list Z) : Prop :=
  (absent (vtlb m) (tlb m) pte /\ t = tlbtime m) \/
  (exists i, first_at (vtlb m) (tlb m) pte i /\
     0 <= i < len (tlbtime m) /\ 0 <= i < len (ptlb m) /\
     rd (ptlb m) i = -1 /\ t = upd (tlbtime m) i (timestamp m + 1)).

Definition addr_ok (m : VM) (fr add : Z) : Prop :=
  INT_MIN <= fr * pagesize m * 4 <= INT_MAX /\ INT_MIN <= add * 4 <= INT_MAX.

Definition markable (m : VM) (fr dty : Z) : Prop :=
  0 <= fr < len (ptime m) /\ (dty <> 0 -> 0 <= fr < len (dirty m)).

(** Steps 1-3 of the translation: the TLB holds the page. *)
Definition tlb_hit (m : VM) (pte add dty : Z) (m' : VM) (w : Z) : Prop :=
  exists i,
    first_at (vtlb m) (tlb m) pte i /\
    0 <= i < len (tlbtime m) /\ 0 <= i < len (ptlb m) /\
    rd (ptlb m) i <> -1 /\
    markable m (rd (ptlb m) i) dty /\ addr_ok m (rd (ptlb m) i) add /\
    w = addr m (rd (ptlb m) i) add /\
    m' = marked (with_tlbtime (with_timestamp m (timestamp m + 1))
                   (upd (tlbtime m) i (timestamp m + 1)))
                (rd (ptlb m) i) dty.

(** The TLB missed and the page table holds the page in frame [fr]. *)
Definition page_hit (m : VM) (pte add dty : Z) (m' : VM) (w : Z) : Prop :=
  exists t fr i r t',
    tlb_missed m pte t /\ INT_MIN <= tc m + 1 <= INT_MAX /\
    first_at (pvirt m) (ppage m) pte fr /\
    markable m fr dty /\ addr_ok m fr add /\ w = addr m fr add /\
    installed_by_policy
      (marked (with_tc (with_tlbtime (with_timestamp m (timestamp m + 1)) t)
                 (tc m + 1)) fr dty) i r t' /\
    0 <= i < len (ptlb m) /\ 0 <= i < len (vtlb m) /\
    m' = tlbset
           (marked (with_tc (with_tlbtime (with_timestamp m (timestamp m + 1)) t)
                      (tc m + 1)) fr dty)
           r (upd (ptlb m) i fr) (upd (vtlb m) i pte) t'.

(** The victim frame [fr] goes to disk when it is dirty: [c] is the new
    count of disk writes and [dk] the new disk. *)
Definition written_back (m : VM) (fr c : Z) (dk : list Z) : Prop :=
  (rd (dirty m) fr = 0 /\ c = dc m /\ dk = disk m) \/
  (rd (dirty m) fr <> 0 /\ INT_MIN <= dc m + 1 <= INT_MAX /\ c = dc m + 1 /\
   0 <= rd (pvirt m) fr * pagesize m /\
   rd (pvirt m) fr * pagesize m + pagesize m <= len (disk m) /\
   dk = blit (disk m) (rd (pvirt m) fr * pagesize m)
             (mem m) (fr * pagesize m) (pagesize m)).

(** The state of a page fault before the TLB is told: counters and cursor
    moved, the victim written back, the page table entry rewritten and the
    page read from disk. *)
Definition faulted (m : VM) (pte : Z) (t : list Z) (fr r c : Z) (dk : list Z) : VM :=
  with_mem
    (with_dirty
       (with_ptime
          (with_pvirt
             (with_disk
                (with_dc
                   (with_rrp
                      (with_pc
                         (with_tc
                            (with_tlbtime (with_timestamp m (timestamp m + 1)) t)
                            (tc m + 1))
                         (pc m + 1))
                      r)
                   c)
                dk)
             (upd (pvirt m) fr pte))
          (upd (ptime m) fr (timestamp m + 1)))
       (upd (dirty m) fr 0))
    (blit (mem m) (fr * pagesize m) dk (pte * pagesize m) (pagesize m)).

(** Neither the TLB nor the page table holds the page. *)
Definition page_fault (m : VM) (pte add dty : Z) (m' : VM) (w : Z) : Prop :=
  exists t fr r c dk i r' t',
    tlb_missed m pte t /\ INT_MIN <= tc m + 1 <= INT_MAX /\
    absent (pvirt m) (ppage m) pte /\ INT_MIN <= pc m + 1 <= INT_MAX /\
    victim (palg m) (rrp m) (ppage m) (ptime m) r fr /\
    0 <= fr < len (dirty m) /\ 0 <= fr < len (pvirt m) /\ 0 <= fr < len (ptime m) /\
    written_back m fr c dk /\
    0 <= pagesize m /\
    0 <= fr * pagesize m /\ fr * pagesize m + pagesize m <= len (mem m) /\
    0 <= pte * pagesize m /\ pte * pagesize m + pagesize m <= len (disk m) /\
    addr_ok m fr add /\ w = addr m fr add /\
    (installed_in_place (faulted m pte t fr r c dk) fr i r' t' \/
     (absent (ptlb m) (tlb m) fr /\
      installed_by_policy (faulted m pte t fr r c dk) i r' t')) /\
    0 <= i < len (ptlb m) /\ 0 <= i < len (vtlb m) /\
    m' = marked (tlbset (faulted m pte t fr r c dk)
                   r' (upd (ptlb m) i fr) (upd (vtlb m) i pte) t') fr dty.

(** Every accessor is one translation, followed for a write by the store of
    one word of [mem]. *)
Definition stored (m' : VM) (w : Z) (op : access) (m'' : VM) : Prop :=
  match op with
  | ReadInt _ | ReadFloat _ => 0 <= w / 4 < len (mem m') /\ m'' = m'
  | WriteInt _ v | WriteFloat _ v =>
      0 <= w / 4 < len (mem m') /\ m'' = with_mem m' (upd (mem m') (w / 4) v)
  end.

Definition dirty_flag (op : access) : Z :=
  match op with
  | ReadInt _ | ReadFloat _ => 0
  | WriteInt _ _ | WriteFloat _ _ => 1
  end.

(** The states of a simulation: those that a sequence of accesses reaches
    from what [createVM] returned. *)
Definition reachable (sizeVM sizePM pageSize sizeTLB pageReplAlg tlbReplAlg : Z)
                     (m : VM) : Prop :=
  exists m0 ops,
    createVM sizeVM sizePM pageSize sizeTLB pageReplAlg tlbReplAlg = Done (Handle m0) /\
    run m0 ops = Done m.

Definition counters_ordered (m : VM) : Prop :=
  0 <= dc m <= pc m /\ pc m <= tc m /\ tc m <= timestamp m.

(** The page table holds no page twice, the TLB no frame twice, and every
    TLB slot names a frame whose page-table entry holds the slot's page. *)
Definition coherent (m : VM) : Prop :=
  len (pvirt m) = ppage m /\ len (ptlb m) = tlb m /\ len (vtlb m) = tlb m /\
  (forall f g, 0 <= f < ppage m -> 0 <= g < ppage m ->
               rd (pvirt m) f = rd (pvirt m) g -> f = g) /\
  (forall i j, 0 <= i < tlb m -> 0 <= j < tlb m ->
               rd (ptlb m) i = rd (ptlb m) j -> i = j) /\
  (forall i, 0 <= i < tlb m ->
             0 <= rd (ptlb m) i < ppage m /\
             rd (pvirt m) (rd (ptlb m) i) = rd (vtlb m) i).

Definition page_of (m : VM) (a : Z) : Z := s32 (a / u32 (pagesize m)).
Definition offset_of (m : VM) (a : Z) : Z := s32 (a mod u32 (pagesize m)).

(** A translation that does not count a page fault leaves the page table,
    the cursor, the disk and the memory alone; one that counts a fault has
    asked the policy for a frame [fr] and put the page there. *)
Definition no_fault (m m' : VM) : Prop :=
  pc m' = pc m /\ pvirt m' = pvirt m /\ rrp m' = rrp m /\ dc m' = dc m /\
  disk m' = disk m /\ mem m' = mem m.

Definition fault_in (m : VM) (pte fr : Z) (m' : VM) : Prop :=
  pc m' = pc m + 1 /\
  victim (palg m) (rrp m) (ppage m) (ptime m) (rrp m') fr /\
  0 <= fr < len (pvirt m) /\ 0 <= fr < len (dirty m) /\
  absent (pvirt m) (ppage m) pte /\
  pvirt m' = upd (pvirt m) fr pte /\
  written_back m fr (dc m') (disk m').

(** For a whole access the memory is left out: a write stores its word. *)
Definition no_fault_tables (m m' : VM) : Prop :=
  pc m' = pc m /\ pvirt m' = pvirt m /\ rrp m' = rrp m /\ dc m' = dc m /\
  disk m' = disk m.




(** In a simulation with round-robin page replacement the cursor is the
    number of page faults so far, modulo the number of frames. *)
Definition cursor_counts (m : VM) : Prop :=
  len (pvirt m) = ppage m /\ 0 <= pc m /\
  (palg m = 0 -> rrp m = pc m mod ppage m).

(** The simulation [createVM(4, 2, 2, 1, 0, 0)] and its states after each
    of the accesses writeInt(0, 7), writeInt(2, 9), readInt(4), readInt(0). *)
Definition demo_ops : list access :=
  [WriteInt 0 7; WriteInt 2 9; ReadInt 4; ReadInt 0].

Definition demo0 : VM :=
  {| pagesize := 2; vpage := 4; ppage := 2; palg := 0;
     pvirt := [0; 1]; ptime := [0; 0]; dirty := [0; 0];
     tlb := 1; tlbalg := 0; ptlb := [0]; vtlb := [0]; tlbtime := [0];
     rrp := 0; rrt := 0; timestamp := 0; pc := 0; tc := 0; dc := 0;
     mem := [0; 0; 0; 0]; disk := [0; 0; 0; 0; 0; 0; 0; 0] |}.

Definition demo1 : VM :=
  {| pagesize := 2; vpage := 4; ppage := 2; palg := 0;
     pvirt := [0; 1]; ptime := [1; 0]; dirty := [1; 0];
     tlb := 1; tlbalg := 0; ptlb := [0]; vtlb := [0]; tlbtime := [1];
     rrp := 0; rrt := 0; timestamp := 1; pc := 0; tc := 0; dc := 0;
     mem := [7; 0; 0; 0]; disk := [0; 0; 0; 0; 0; 0; 0; 0] |}.

Definition demo2 : VM :=
  {| pagesize := 2; vpage := 4; ppage := 2; palg := 0;
     pvirt := [0; 1]; ptime := [1; 2]; dirty := [1; 1];
     tlb := 1; tlbalg := 0; ptlb := [1]; vtlb := [1]; tlbtime := [2];
     rrp := 0; rrt := 0; timestamp := 2; pc := 0; tc := 1; dc := 0;
     mem := [7; 0; 9; 0]; disk := [0; 0; 0; 0; 0; 0; 0; 0] |}.

Definition demo3 : VM :=
  {| pagesize := 2; vpage := 4; ppage := 2; palg := 0;
     pvirt := [2; 1]; ptime := [3; 2]; dirty := [0; 1];
     tlb := 1; tlbalg := 0; ptlb := [0]; vtlb := [2]; tlbtime := [3];
     rrp := 1; rrt := 0; timestamp := 3; pc := 1; tc := 2; dc := 1;
     mem := [0; 0; 9; 0]; disk := [7; 0; 0; 0; 0; 0; 0; 0] |}.

Definition demo4 : VM :=
  {| pagesize := 2; vpage := 4; ppage := 2; palg := 0;
     pvirt := [2; 0]; ptime := [3; 4]; dirty := [0; 0];
     tlb := 1; tlbalg := 0; ptlb := [1]; vtlb := [0]; tlbtime := [4];
     rrp := 0; rrt := 0; timestamp := 4; pc := 2; tc := 3; dc := 2;
     mem := [0; 0; 7; 0]; disk := [7; 0; 9; 0; 0; 0; 0; 0] |}.

(** No timestamp is ahead of the clock, and the cursors are slot numbers. *)
Definition timed (m : VM) : Prop :=
  len (ptime m) = ppage m /\ len (tlbtime m) = tlb m /\
  0 <= timestamp m <= INT_MAX /\
  (forall f, 0 <= f < ppage m -> rd (ptime m) f <= timestamp m) /\
  (forall i, 0 <= i < tlb m -> rd (tlbtime m) i <= timestamp m) /\
  (0 <= rrp m /\ (0 < ppage m -> rrp m < ppage m)) /\
  (0 <= rrt m /\ (0 < tlb m -> rrt m < tlb m)).

(** Frames and disk slots have the sizes that the configuration says, every
    frame holds a page of the virtual space, and a frame that is not dirty
    holds what the disk holds for its page. *)
Definition mem_ok (m : VM) : Prop :=
  0 < pagesize m <= INT_MAX /\ vpage m <= INT_MAX /\
  len (dirty m) = ppage m /\
  len (mem m) = ppage m * pagesize m /\ len (disk m) = vpage m * pagesize m /\
  (forall f, 0 <= f < ppage m -> 0 <= rd (pvirt m) f < vpage m) /\
  (forall f o, 0 <= f < ppage m -> 0 <= o < pagesize m -> rd (dirty m) f = 0 ->
     rd (mem m) (f * pagesize m + o) = rd (disk m) (rd (pvirt m) f * pagesize m + o)).

(** The word that the virtual memory holds at word address [b]: in the
    frame of its page when the page is resident, on disk otherwise. *)
Definition vword (m : VM) (b : Z) : Z :=
  match lookup_in_mem m (b / pagesize m) with
  | Done f => if f =? -1 then rd (disk m) b
              else rd (mem m) (f * pagesize m + b mod pagesize m)
  | _ => 0
  end.

Definition sound (m : VM) : Prop :=
  coherent m /\ counters_ordered m /\ timed m /\ mem_ok m.

(** In range: the address of the access lies in the virtual space. *)
Definition in_range (m : VM) (a : Z) : Prop := 0 <= a < vpage m * pagesize m.

(** The configurations in which every access is defined: at least one TLB
    slot and not more slots than frames, fewer frames than virtual pages,
    and a virtual space whose byte offsets fit in an [int]. *)
Definition sized (sizeVM sizePM pageSize sizeTLB : Z) : Prop :=
  0 < pageSize /\ 0 < sizeTLB <= sizePM /\ sizePM < sizeVM /\
  sizeVM * pageSize * 4 <= INT_MAX.

Definition roomy (m : VM) : Prop :=
  0 < tlb m <= ppage m /\ ppage m <= vpage m /\
  vpage m * pagesize m * 4 <= INT_MAX.

(** The address written by an access, if any. *)
Definition writes (op : access) (a : Z) : Prop :=
  match op with
  | ReadInt _ | ReadFloat _ => False
  | WriteInt x _ | WriteFloat x _ => x = a
  end.

Definition is_resident (m : VM) (p : Z) : bool :=
  match lookup_in_mem m p with
  | Done f => negb (f =? -1)
  | _ => false
  end.

(** Page [p] is in a frame whose dirty flag is set. *)
Definition dirty_resident (m : VM) (p : Z) : Prop :=
  exists f, 0 <= f < ppage m /\ rd (pvirt m) f = p /\ rd (dirty m) f <> 0.

(** A run of accesses from [m] to [m'] during which page [p] is resident
    at every moment. *)
Inductive keeps (p : Z) : VM -> list access -> VM -> Prop :=
  | keeps_nil (m : VM) : is_resident m p = true -> keeps p m [] m
  | keeps_cons (m : VM) (op : access) (m1 : VM) (ops : list access) (m' : VM) :
      is_resident m p = true -> exec m op = Done m1 -> keeps p m1 ops m' ->
      keeps p m (op :: ops) m'.

(** The TLB maps each of the pages [0 .. tlb-1] to the frame of the same
    number, as [createVM] sets it up. *)
Definition identity_tlb (m : VM) : Prop :=
  forall j, 0 <= j < tlb m -> rd (vtlb m) j = j /\ rd (ptlb m) j = j.

(** A simulation whose TLB has more slots than there are frames:
    [createVM(4, 2, 2, 3, 0, 0)]. *)
Definition wide0 : VM :=
  {| pagesize := 2; vpage := 4; ppage := 2; palg := 0;
     pvirt := [0; 1]; ptime := [0; 0]; dirty := [0; 0];
     tlb := 3; tlbalg := 0; ptlb := [0; 1; 2]; vtlb := [0; 1; 2]; tlbtime := [0; 0; 0];
     rrp := 0; rrt := 0; timestamp := 0; pc := 0; tc := 0; dc := 0;
     mem := [0; 0; 0; 0]; disk := [0; 0; 0; 0; 0; 0; 0; 0] |}.

(** A simulation with LRU replacement: [createVM(4, 2, 2, 1, 1, 1)], after
    writeInt(0, 7) and then after readInt(4). *)
Definition lru1 : VM :=
  {| pagesize := 2; vpage := 4; ppage := 2; palg := 1;
     pvirt := [0; 1]; ptime := [1; 0]; dirty := [1; 0];
     tlb := 1; tlbalg := 1; ptlb := [0]; vtlb := [0]; tlbtime := [1];
     rrp := 0; rrt := 0; timestamp := 1; pc := 0; tc := 0; dc := 0;
     mem := [7; 0; 0; 0]; disk := [0; 0; 0; 0; 0; 0; 0; 0] |}.

Definition lru2 : VM :=
  {| pagesize := 2; vpage := 4; ppage := 2; palg := 1;
     pvirt := [0; 2]; ptime := [1; 2]; dirty := [1; 0];
     tlb := 1; tlbalg := 1; ptlb := [1]; vtlb := [2]; tlbtime := [2];
     rrp := 0; rrt := 0; timestamp := 2; pc := 1; tc := 1; dc := 0;
     mem := [7; 0; 0; 0]; disk := [0; 0; 0; 0; 0; 0; 0; 0] |}.

(** [createVM(4, 2, 2, 1, 0, 0)] after readInt(4). *)
Definition cold1 : VM :=
  {| pagesize := 2; vpage := 4; ppage := 2; palg := 0;
     pvirt := [2; 1]; ptime := [1; 0]; dirty := [0; 0];
     tlb := 1; tlbalg := 0; ptlb := [0]; vtlb := [2]; tlbtime := [0];
     rrp := 1; rrt := 0; timestamp := 1; pc := 1; tc := 1; dc := 0;
     mem := [0; 0; 0; 0]; disk := [0; 0; 0; 0; 0; 0; 0; 0] |}.

(** No function of the program prints a diagnostic and terminates. *)
Definition not_fatal {A : Type} (o : outcome A) : Prop := o <> Fatal.

(** The values that the reads of a sequence of accesses return, in order. *)
Fixpoint outputs (model : VM) (ops : list access) : outcome (list Z) :=
  match ops with
  | [] => Done []
  | ReadInt a :: ops' =>
      '(model, v) <- readInt model a ; vs <- outputs model ops' ; Done (v :: vs)
  | ReadFloat a :: ops' =>
      '(model, v) <- readFloat model a ; vs <- outputs model ops' ; Done (v :: vs)
  | WriteInt a v :: ops' => model <- writeInt model a v ; outputs model ops'
  | WriteFloat a v :: ops' => model <- writeFloat model a v ; outputs model ops'
  end.

(** The same accesses on a plain array of words, without paging. *)
Fixpoint flat_outputs (words : list Z) (ops : list access) : list Z :=
  match ops with
  | [] => []
  | ReadInt a :: ops' | ReadFloat a :: ops' => rd words a :: flat_outputs words ops'
  | WriteInt a v :: ops' | WriteFloat a v :: ops' => flat_outputs (upd words a v) ops'
  end.

Definition is_read (op : access) : bool :=
  match op with
  | ReadInt _ | ReadFloat _ => true
  | WriteInt _ _ | WriteFloat _ _ => false
  end.

(** [createVM(4, 2, 2, 0, 0, 0)]: a simulation without TLB slots. *)
Definition notlb0 : VM :=
  {| pagesize := 2; vpage := 4; ppage := 2; palg := 0;
     pvirt := [0; 1]; ptime := [0; 0]; dirty := [0; 0];
     tlb := 0; tlbalg := 0; ptlb := []; vtlb := []; tlbtime := [];
     rrp := 0; rrt := 0; timestamp := 0; pc := 0; tc := 0; dc := 0;
     mem := [0; 0; 0; 0]; disk := [0; 0; 0; 0; 0; 0; 0; 0] |}.

(** [createVM(4, 2, 2, 1, 1, 1)]: LRU replacement for pages and TLB. *)
Definition lru0 : VM :=
  {| pagesize := 2; vpage := 4; ppage := 2; palg := 1;
     pvirt := [0; 1]; ptime := [0; 0]; dirty := [0; 0];
     tlb := 1; tlbalg := 1; ptlb := [0]; vtlb := [0]; tlbtime := [0];
     rrp := 0; rrt := 0; timestamp := 0; pc := 0; tc := 0; dc := 0;
     mem := [0; 0; 0; 0]; disk := [0; 0; 0; 0; 0; 0; 0; 0] |}.

(** The TLB lookup for page [p] hits. *)
Definition is_cached (m : VM) (p : Z) : bool :=
  match lookup_in_tlb_and_mark m p with
  | Done (_, r) => negb (r =? -1)
  | _ => false
  end.

(** [createVM(4, 2, 536870912, 2, 0, 0)]: four virtual pages of 2^29 words,
    2^31 words in all, which the header of the source allows. *)
Definition big0 : VM :=
  {| pagesize := 536870912; vpage := 4; ppage := 2; palg := 0;
     pvirt := [0; 1]; ptime := calloc 2; dirty := calloc 2;
     tlb := 2; tlbalg := 0; ptlb := [0; 1]; vtlb := [0; 1]; tlbtime := calloc 2;
     rrp := 0; rrt := 0; timestamp := 0; pc := 0; tc := 0; dc := 0;
     mem := calloc (u32 (2 * 536870912));
     disk := calloc (u32 (4 * 536870912)) |}.

(** The number of entries of [times] that are below [t]. *)
Fixpoint older (t : Z) (times : list Z) : Z :=
  match times with
  | [] => 0
  | x :: times' => (if x <? t then 1 else 0) + older t times'
  end.


(** A state in which every access to the pages that the initial TLB maps is
    defined: the TLB is the initial one, the tables and the memory have room
    for the frames below [tlb], and the byte offsets of these frames and of
    the words of a page are [int]s. *)
Definition warm_ready (m : VM) : Prop :=
  identity_tlb m /\ 0 < pagesize m /\ tlb m <= INT_MAX /\
  tlb m <= len (vtlb m) /\ tlb m <= len (ptlb m) /\ tlb m <= len (tlbtime m) /\
  tlb m <= len (ptime m) /\ tlb m <= len (dirty m) /\
  (tlb m - 1) * pagesize m * 4 <= INT_MAX /\ (pagesize m - 1) * 4 <= INT_MAX /\
  tlb m * pagesize m <= len (mem m).

(** * Proofs *)

(** ** Outcomes and machine integers *)

Lemma obind_Done {A B : Type} (o : outcome A) (k : A -> outcome B) (r : B) :
  obind o k = Done r -> exists a, o = Done a /\ k a = Done r.
Proof. destruct o as [a| |f]; simpl; intros H; [eauto | discriminate | discriminate]. Qed.

Lemma int_ok_spec (z : Z) : int_ok z = true <-> INT_MIN <= z <= INT_MAX.
Proof. unfold int_ok. rewrite andb_true_iff, !Z.leb_le. tauto. Qed.

Lemma ck_Done (z r : Z) : ck z = Done r -> r = z /\ INT_MIN <= z <= INT_MAX.
Proof.
  unfold ck. destruct (int_ok z) eqn:E; [|discriminate].
  intros [= <-]. split; [reflexivity | now apply int_ok_spec].
Qed.

Lemma ck_ok (z : Z) : INT_MIN <= z <= INT_MAX -> ck z = Done z.
Proof. intros H. unfold ck. now rewrite (proj2 (int_ok_spec z) H). Qed.

Lemma irem_Done (a b r : Z) :
  irem a b = Done r -> b <> 0 /\ r = Z.rem a b /\ INT_MIN <= r <= INT_MAX.
Proof.
  unfold irem. destruct (Z.eqb_spec b 0) as [|Hb]; [discriminate|].
  destruct ((a =? INT_MIN) && (b =? -1)); [discriminate|].
  intros H. apply ck_Done in H as [-> H]. auto.
Qed.

Lemma irem_ok (a b : Z) :
  0 <= a <= INT_MAX -> 0 < b -> irem a b = Done (a mod b).
Proof.
  intros Ha Hb. unfold irem. destruct (Z.eqb_spec b 0) as [|_]; [lia|].
  destruct (Z.eqb_spec a INT_MIN) as [E|_]; [unfold INT_MIN in E; lia|].
  cbn [andb]. rewrite Z.rem_mod_nonneg by lia. apply ck_ok.
  pose proof (Z.mod_pos_bound a b Hb). pose proof (Z.mod_le a b).
  unfold INT_MIN, INT_MAX in *. lia.
Qed.

Lemma u32_id (z : Z) : 0 <= z < 4294967296 -> u32 z = z.
Proof. intros H. unfold u32. now apply Z.mod_small. Qed.

Lemma s32_id (z : Z) : 0 <= z <= INT_MAX -> s32 z = z.
Proof.
  unfold INT_MAX. intros H. unfold s32. rewrite Z.mod_small by lia.
  destruct (Z.ltb_spec z 2147483648); lia.
Qed.

(** ** Arrays *)

Lemma len_nonneg (l : list Z) : 0 <= len l.
Proof. unfold len. lia. Qed.

Lemma inb_spec (l : list Z) (i : Z) : inb l i = true <-> 0 <= i < len l.
Proof. unfold inb. rewrite andb_true_iff, Z.leb_le, Z.ltb_lt. tauto. Qed.

Lemma get_Done (l : list Z) (i v : Z) :
  get l i = Done v -> 0 <= i < len l /\ v = rd l i.
Proof.
  unfold get. destruct (inb l i) eqn:E; [|discriminate].
  intros [= <-]. split; [now apply inb_spec | reflexivity].
Qed.

Lemma get_ok (l : list Z) (i : Z) : 0 <= i < len l -> get l i = Done (rd l i).
Proof. intros H. unfold get. now rewrite (proj2 (inb_spec l i) H). Qed.

Lemma set_Done (l : list Z) (i v : Z) (l' : list Z) :
  set l i v = Done l' -> 0 <= i < len l /\ l' = upd l i v.
Proof.
  unfold set. destruct (inb l i) eqn:E; [|discriminate].
  intros [= <-]. split; [now apply inb_spec | reflexivity].
Qed.

Lemma set_ok (l : list Z) (i v : Z) : 0 <= i < len l -> set l i v = Done (upd l i v).
Proof. intros H. unfold set. now rewrite (proj2 (inb_spec l i) H). Qed.

Lemma len_upd (l : list Z) (i v : Z) : len (upd l i v) = len l.
Proof. unfold len, upd. now rewrite length_insert. Qed.

Lemma rd_upd_eq (l : list Z) (i v : Z) : 0 <= i < len l -> rd (upd l i v) i = v.
Proof.
  unfold len, rd, upd. intros H. apply list_lookup_total_insert_eq. lia.
Qed.

Lemma rd_upd_ne (l : list Z) (i j v : Z) :
  0 <= i -> 0 <= j -> i <> j -> rd (upd l i v) j = rd l j.
Proof.
  unfold rd, upd. intros Hi Hj H. apply list_lookup_total_insert_ne. lia.
Qed.

Lemma rd_upd (l : list Z) (i j v : Z) :
  0 <= i < len l -> 0 <= j ->
  rd (upd l i v) j = if j =? i then v else rd l j.
Proof.
  intros Hi Hj. destruct (Z.eqb_spec j i) as [->|Hne].
  - now apply rd_upd_eq.
  - apply rd_upd_ne; lia.
Qed.

Lemma upd_same (l : list Z) (i : Z) : 0 <= i < len l -> upd l i (rd l i) = l.
Proof.
  unfold len, rd, upd. intros H. apply list_insert_id.
  apply list_lookup_lookup_total_lt. lia.
Qed.

Lemma len_calloc (n : Z) : 0 <= n -> len (calloc n) = n.
Proof. intros H. unfold len, calloc. rewrite length_replicate. lia. Qed.

Lemma rd_calloc (n i : Z) : 0 <= i < n -> rd (calloc n) i = 0.
Proof.
  intros H. unfold rd, calloc. apply lookup_total_replicate_2. lia.
Qed.

Lemma len_blit (dst : list Z) (doff : Z) (src : list Z) (soff n : Z) :
  len (blit dst doff src soff n) = len dst.
Proof. unfold len, blit. now rewrite length_inserts. Qed.

Lemma rd_blit (dst : list Z) (doff : Z) (src : list Z) (soff n j : Z) :
  0 <= n -> 0 <= doff -> doff + n <= len dst ->
  0 <= soff -> soff + n <= len src -> 0 <= j ->
  rd (blit dst doff src soff n) j =
  if (doff <=? j) && (j <? doff + n) then rd src (soff + (j - doff)) else rd dst j.
Proof.
  unfold len, rd, blit. intros Hn Hd Hdl Hs Hsl Hj.
  assert (Hk : length (take (Z.to_nat n) (drop (Z.to_nat soff) src)) = Z.to_nat n).
  { rewrite length_take, length_drop. lia. }
  destruct (Z.leb_spec doff j) as [H1|H1]; simpl.
  - destruct (Z.ltb_spec j (doff + n)) as [H2|H2].
    + rewrite list_lookup_total_inserts by lia.
      rewrite lookup_total_take_lt by lia.
      rewrite lookup_total_drop. f_equal. lia.
    + apply list_lookup_total_inserts_ge. lia.
  - apply list_lookup_total_inserts_lt. lia.
Qed.

Lemma memcpy_Done (dst : list Z) (db : Z) (src : list Z) (sb nb : Z) (r : list Z) :
  memcpy dst db src sb nb = Done r ->
  0 <= nb /\ 0 <= db /\ db + nb <= 4 * len dst /\ 0 <= sb /\ sb + nb <= 4 * len src /\
  r = blit dst (db / 4) src (sb / 4) (nb / 4).
Proof.
  unfold memcpy.
  destruct (_ && _) eqn:E; [|discriminate].
  intros [= <-]. rewrite !andb_true_iff, !Z.leb_le in E. tauto.
Qed.

Lemma memcpy_ok (dst : list Z) (db : Z) (src : list Z) (sb nb : Z) :
  0 <= nb -> 0 <= db -> db + nb <= 4 * len dst -> 0 <= sb -> sb + nb <= 4 * len src ->
  memcpy dst db src sb nb = Done (blit dst (db / 4) src (sb / 4) (nb / 4)).
Proof.
  intros. unfold memcpy.
  replace (_ && _) with true; [reflexivity|].
  symmetry. rewrite !andb_true_iff, !Z.leb_le. tauto.
Qed.

(** ** The linear scans *)

Lemma scan_from_Done (l : list Z) (x : Z) (k : nat) (i r : Z) :
  0 <= i -> scan_from l x i k = Done r ->
  (r = -1 /\ forall j, i <= j < i + Z.of_nat k -> j < len l /\ rd l j <> x) \/
  (i <= r < i + Z.of_nat k /\ r < len l /\ rd l r = x /\
   forall j, i <= j < r -> rd l j <> x).
Proof.
  revert i. induction k as [|k IH]; intros i Hi H; simpl in H.
  - injection H as <-. left. split; [reflexivity | intros j Hj; lia].
  - apply obind_Done in H as (v & Hv & H). apply get_Done in Hv as [Hb ->].
    destruct (Z.eqb_spec (rd l i) x) as [Hx|Hx].
    + injection H as <-. right. repeat split; try lia.
    + apply IH in H; [|lia]. destruct H as [[-> H]|(H1 & H2 & H3 & H4)].
      * left. split; [reflexivity|]. intros j Hj.
        destruct (Z.eq_dec j i) as [->|Hne]; [split; [lia | exact Hx]|].
        apply H. lia.
      * right. repeat split; try lia; try assumption. intros j Hj.
        destruct (Z.eq_dec j i) as [->|Hne]; [exact Hx|]. apply H4. lia.
Qed.

Lemma scan_Done (l : list Z) (x n r : Z) :
  scan l x n = Done r -> (r = -1 /\ absent l n x) \/ first_at l n x r.
Proof.
  unfold scan. intros H. apply scan_from_Done in H; [|lia].
  destruct H as [[-> H]|(H1 & H2 & H3 & H4)].
  - left. split; [reflexivity|]. intros j Hj. apply H. lia.
  - right. unfold first_at. repeat split; try lia; try assumption.
Qed.

Lemma scan_from_total (l : list Z) (x : Z) (k : nat) (i : Z) :
  0 <= i -> i + Z.of_nat k <= len l -> exists r, scan_from l x i k = Done r.
Proof.
  revert i. induction k as [|k IH]; intros i Hi Hk; simpl.
  - eauto.
  - rewrite get_ok by lia. simpl.
    destruct (rd l i =? x); [eauto|]. apply IH; lia.
Qed.

Lemma scan_total (l : list Z) (x n : Z) :
  n <= len l -> exists r, scan l x n = Done r.
Proof.
  intros H. pose proof (len_nonneg l). unfold scan. apply scan_from_total; lia.
Qed.

Lemma first_at_unique (l : list Z) (n x i j : Z) :
  first_at l n x i -> first_at l n x j -> i = j.
Proof.
  intros (Hi & _ & Hxi & Hli) (Hj & _ & Hxj & Hlj).
  destruct (Z.lt_trichotomy i j) as [H|[H|H]]; [|exact H|].
  - exfalso. apply (Hlj i); [lia | exact Hxi].
  - exfalso. apply (Hli j); [lia | exact Hxj].
Qed.

Lemma first_absent (l : list Z) (n x i : Z) : first_at l n x i -> absent l n x -> False.
Proof. intros (Hi & _ & Hx & _) Ha. now apply (Ha i Hi). Qed.

Lemma scan_first (l : list Z) (x n i : Z) :
  n <= len l -> first_at l n x i -> scan l x n = Done i.
Proof.
  intros Hn Hf. destruct (scan_total l x n Hn) as [r Hr]. rewrite Hr.
  apply scan_Done in Hr as [[-> Ha]|Hr].
  - exfalso. eapply first_absent; eassumption.
  - f_equal. eapply first_at_unique; eassumption.
Qed.

Lemma scan_absent (l : list Z) (x n : Z) :
  absent l n x -> n <= len l -> scan l x n = Done (-1).
Proof.
  intros Ha Hn. destruct (scan_total l x n Hn) as [r Hr]. rewrite Hr.
  apply scan_Done in Hr as [[-> _]|Hr]; [reflexivity|].
  exfalso. eapply first_absent; eassumption.
Qed.

(** ** minindex *)

Lemma minindex_from_Done (l : list Z) (k : nat) (i value index r : Z) :
  0 <= i <= len l -> min_so_far l i value index ->
  minindex_from l i k value index = Done r ->
  i + Z.of_nat k <= len l /\ exists v, min_so_far l (i + Z.of_nat k) v r.
Proof.
  revert i value index. induction k as [|k IH]; intros i value index Hi HJ H; simpl in H.
  - injection H as <-. split; [lia|].
    exists value. now replace (i + Z.of_nat 0) with i by lia.
  - apply obind_Done in H as (v & Hv & H). apply get_Done in Hv as [Hb ->].
    replace (i + Z.of_nat (S k)) with ((i + 1) + Z.of_nat k) by lia.
    destruct (Z.ltb_spec (rd l i) value) as [Hlt|Hge].
    + apply IH in H; [exact H | lia |].
      right. destruct HJ as [(-> & -> & HJ)|(H1 & -> & H3 & H4 & H5)].
      * repeat split; try lia. 
        -- intros j Hj. destruct (Z.eq_dec j i) as [->|]; [lia|].
           specialize (HJ j). lia.
        -- intros j Hj. specialize (HJ j). lia.
      * repeat split; try lia.
        -- intros j Hj. destruct (Z.eq_dec j i) as [->|]; [lia|].
           specialize (H4 j). lia.
        -- intros j Hj. specialize (H4 j). lia.
    + apply IH in H; [exact H | lia |].
      destruct HJ as [(-> & -> & HJ)|(H1 & -> & H3 & H4 & H5)].
      * left. repeat split; try reflexivity.
        intros j Hj. destruct (Z.eq_dec j i) as [->|]; [lia|]. apply HJ. lia.
      * right. repeat split; try lia; try assumption.
        intros j Hj. destruct (Z.eq_dec j i) as [->|]; [lia|]. apply H4. lia.
Qed.

Lemma minindex_Done (l : list Z) (n r : Z) :
  minindex l n = Done r ->
  (r = -1 /\ forall j, 0 <= j < n -> 2147483647 <= rd l j) \/ first_min l n r.
Proof.
  unfold minindex. intros H.
  pose proof (len_nonneg l).
  apply minindex_from_Done in H; [|lia|left; repeat split; intros; lia].
  destruct H as (Hn & v & [(-> & _ & H)|(H1 & -> & H3 & H4 & H5)]).
  - left. split; [reflexivity|]. intros j Hj. apply H. lia.
  - right. unfold first_min. repeat split; try lia.
    + intros j Hj. apply H4. lia.
    + exact H5.
Qed.

Lemma minindex_from_total (l : list Z) (k : nat) (i value index : Z) :
  0 <= i -> i + Z.of_nat k <= len l ->
  exists r, minindex_from l i k value index = Done r.
Proof.
  revert i value index. induction k as [|k IH]; intros i value index Hi Hk; simpl.
  - eauto.
  - rewrite get_ok by lia. simpl.
    destruct (rd l i <? value); apply IH; lia.
Qed.

Lemma minindex_total (l : list Z) (n : Z) :
  n <= len l -> exists r, minindex l n = Done r.
Proof.
  intros H. pose proof (len_nonneg l). unfold minindex.
  apply minindex_from_total; lia.
Qed.

Lemma first_min_unique (l : list Z) (n i j : Z) :
  first_min l n i -> first_min l n j -> i = j.
Proof.
  intros (Hi & _ & Hmi & Hli) (Hj & _ & Hmj & Hlj).
  destruct (Z.lt_trichotomy i j) as [H|[H|H]]; [|exact H|].
  - specialize (Hlj i). specialize (Hmi j). lia.
  - specialize (Hli j). specialize (Hmj i). lia.
Qed.

(** With at least one slot, and timestamps below the value [minindex]
    starts from, the result is the first least slot. *)
Lemma minindex_ok (l : list Z) (n : Z) :
  0 < n <= len l -> (forall j, 0 <= j < n -> rd l j < 2147483647) ->
  exists r, minindex l n = Done r /\ first_min l n r.
Proof.
  intros Hn Hlt. destruct (minindex_total l n) as [r Hr]; [lia|].
  exists r. split; [exact Hr|].
  apply minindex_Done in Hr as [[_ H]|H]; [|exact H].
  specialize (H 0). specialize (Hlt 0). lia.
Qed.

(** ** createVM's loops *)

Lemma fill_from_Done (k : nat) (l : list Z) (i : Z) (l' : list Z) :
  0 <= i <= len l -> fill_from l i k = Done l' ->
  len l' = len l /\ i + Z.of_nat k <= len l /\
  (k <> O -> i + Z.of_nat k <= INT_MAX) /\
  (forall j, i <= j < i + Z.of_nat k -> rd l' j = j) /\
  (forall j, 0 <= j < i -> rd l' j = rd l j).
Proof.
  revert l i. induction k as [|k IH]; intros l i Hi H; simpl in H.
  - injection H as <-.
    split; [reflexivity|]. split; [lia|]. split; [congruence|].
    split; intros j Hj; [lia | reflexivity].
  - apply obind_Done in H as (l1 & H1 & H). apply set_Done in H1 as [Hb ->].
    apply obind_Done in H as (i' & Hi' & H). apply ck_Done in Hi' as [-> Hr].
    apply IH in H; [|rewrite len_upd; lia].
    destruct H as (HL & Hk & HM & Hid & Hold).
    rewrite len_upd in *.
    split; [exact HL|]. split; [lia|]. split; [intros _; lia|].
    split; intros j Hj.
    + destruct (Z.eq_dec j i) as [->|Hne].
      * rewrite Hold by lia. apply rd_upd_eq. lia.
      * apply Hid. lia.
    + rewrite Hold by lia. apply rd_upd_ne; lia.
Qed.

Lemma fill_Done (l : list Z) (n : Z) (l' : list Z) :
  0 <= n -> fill l n = Done l' ->
  len l' = len l /\ n <= len l /\ n <= INT_MAX /\
  forall j, 0 <= j < n -> rd l' j = j.
Proof.
  intros Hn H. pose proof (len_nonneg l). unfold fill in H.
  apply fill_from_Done in H; [|lia].
  destruct H as (HL & Hk & HM & Hid & _).
  split; [exact HL|]. split; [lia|]. split.
  - destruct (Z.to_nat n) eqn:E; [unfold INT_MAX; lia|].
    rewrite <- E in HM. specialize (HM ltac:(lia)). lia.
  - intros j Hj. apply Hid. lia.
Qed.

Lemma fill_from_total (k : nat) (l : list Z) (i : Z) :
  0 <= i -> i + Z.of_nat k <= len l -> i + Z.of_nat k <= INT_MAX ->
  exists l', fill_from l i k = Done l'.
Proof.
  revert l i. induction k as [|k IH]; intros l i Hi Hk HM; simpl.
  - eauto.
  - rewrite set_ok by lia. simpl. unfold iadd. rewrite ck_ok by (unfold INT_MIN; lia).
    simpl. apply IH; rewrite ?len_upd; lia.
Qed.

Lemma fill_total (l : list Z) (n : Z) :
  0 <= n <= INT_MAX -> n <= len l -> exists l', fill l n = Done l'.
Proof. intros Hn Hl. unfold fill. apply fill_from_total; lia. Qed.

(** ** What each function does to the state *)

Lemma with_tlbtime_id (m : VM) : with_tlbtime m (tlbtime m) = m.
Proof. now destruct m. Qed.

Lemma with_rrp_id (m : VM) : with_rrp m (rrp m) = m.
Proof. now destruct m. Qed.

Lemma tlbset_vtlb (m : VM) (v : list Z) :
  with_vtlb m v = tlbset m (rrt m) (ptlb m) v (tlbtime m).
Proof. now destruct m. Qed.

Lemma with_dc_disk_id (m : VM) : with_disk (with_dc m (dc m)) (disk m) = m.
Proof. now destruct m. Qed.

Lemma mark_Done (m : VM) (fr dty : Z) (m' : VM) :
  mark m fr dty = Done m' ->
  0 <= fr < len (ptime m) /\ (dty <> 0 -> 0 <= fr < len (dirty m)) /\
  m' = marked m fr dty.
Proof.
  unfold mark, marked. intros H.
  apply obind_Done in H as (d & Hd & H).
  apply obind_Done in H as (t & Ht & H).
  apply set_Done in Ht as [Hb ->]. injection H as <-.
  destruct (Z.eqb_spec dty 0) as [->|Hne].
  - injection Hd as <-. split; [exact Hb|]. split; [congruence | reflexivity].
  - apply set_Done in Hd as [Hb' ->]. auto.
Qed.

Lemma mark_ok (m : VM) (fr dty : Z) :
  0 <= fr < len (ptime m) -> 0 <= fr < len (dirty m) ->
  mark m fr dty = Done (marked m fr dty).
Proof.
  intros H1 H2. unfold mark, marked.
  destruct (dty =? 0); [|rewrite (set_ok (dirty m)) by assumption];
    cbn [obind]; rewrite set_ok by assumption; reflexivity.
Qed.

Lemma choose_page_Done (m m' : VM) (v : Z) :
  choose_page m = Done (m', v) ->
  exists r, victim (palg m) (rrp m) (ppage m) (ptime m) r v /\ m' = with_rrp m r.
Proof.
  unfold choose_page. intros H. destruct (Z.eqb_spec (palg m) 0) as [Ha|Ha].
  - apply obind_Done in H as (r1 & H1 & H). apply ck_Done in H1 as [-> H1].
    apply obind_Done in H as (r2 & H2 & H). apply irem_Done in H2 as (Hn & -> & H2).
    apply obind_Done in H as (s1 & H3 & H). apply ck_Done in H3 as [-> H3].
    apply obind_Done in H as (s2 & H4 & H). apply ck_Done in H4 as [-> H4].
    apply obind_Done in H as (v' & H5 & H). apply irem_Done in H5 as (_ & -> & H5).
    injection H as <- <-. eexists. split; [|reflexivity].
    left. repeat split; try assumption; lia.
  - apply obind_Done in H as (v' & H1 & H). injection H as <- <-.
    exists (rrp m). split; [|now rewrite with_rrp_id].
    right. auto.
Qed.

Lemma choose_tlb_Done (m m' : VM) (v : Z) :
  choose_tlb m = Done (m', v) ->
  exists r, victim (tlbalg m) (rrt m) (tlb m) (tlbtime m) r v /\ m' = with_rrt m r.
Proof.
  unfold choose_tlb. intros H. destruct (Z.eqb_spec (tlbalg m) 0) as [Ha|Ha].
  - apply obind_Done in H as (r1 & H1 & H). apply ck_Done in H1 as [-> H1].
    apply obind_Done in H as (r2 & H2 & H). apply irem_Done in H2 as (Hn & -> & H2).
    apply obind_Done in H as (s1 & H3 & H). apply ck_Done in H3 as [-> H3].
    apply obind_Done in H as (s2 & H4 & H). apply ck_Done in H4 as [-> H4].
    apply obind_Done in H as (v' & H5 & H). apply irem_Done in H5 as (_ & -> & H5).
    injection H as <- <-. eexists. split; [|reflexivity].
    left. repeat split; try assumption; lia.
  - apply obind_Done in H as (v' & H1 & H). injection H as <- <-.
    exists (rrt m). split; [|now destruct m].
    right. auto.
Qed.

Lemma addtlb_Done (m : VM) (fr pte : Z) (m' : VM) :
  addtlb m fr pte = Done m' ->
  exists i r t,
    installed_by_policy m i r t /\
    0 <= i < len (ptlb m) /\ 0 <= i < len (vtlb m) /\
    m' = tlbset m r (upd (ptlb m) i fr) (upd (vtlb m) i pte) t.
Proof.
  unfold addtlb. intros H.
  apply obind_Done in H as ([m1 i] & H1 & H).
  apply choose_tlb_Done in H1 as (r & Hv & ->).
  apply obind_Done in H as (p & Hp & H). apply set_Done in Hp as [Hbp ->].
  apply obind_Done in H as (v & Hq & H). apply set_Done in Hq as [Hbv ->].
  apply obind_Done in H as (t & Ht & H). apply set_Done in Ht as [Hbt ->].
  injection H as <-. simpl in *.
  exists i, r, (upd (tlbtime m) i (timestamp m)).
  unfold installed_by_policy. repeat split; try assumption; lia.
Qed.

Lemma flushtlb_Done (m : VM) (fr pte : Z) (m' : VM) :
  flushtlb m fr pte = Done m' ->
  exists i r t,
    (installed_in_place m fr i r t \/
     (absent (ptlb m) (tlb m) fr /\ installed_by_policy m i r t)) /\
    0 <= i < len (ptlb m) /\ 0 <= i < len (vtlb m) /\
    m' = tlbset m r (upd (ptlb m) i fr) (upd (vtlb m) i pte) t.
Proof.
  unfold flushtlb. intros H.
  apply obind_Done in H as (i & Hs & H).
  apply scan_Done in Hs as [[-> Ha]|Hf].
  - simpl in H. apply addtlb_Done in H as (i & r & t & Hi & Hp & Hv & ->).
    exists i, r, t. auto.
  - pose proof Hf as (Hi & Hl & Hx & _).
    destruct (Z.eqb_spec i (-1)) as [->|_]; [lia|].
    apply obind_Done in H as (v & Hv & H). apply set_Done in Hv as [Hbv ->].
    injection H as <-.
    exists i, (rrt m), (tlbtime m).
    split; [left; unfold installed_in_place; auto|].
    split; [lia|]. split; [lia|].
    rewrite <- Hx at 1. rewrite upd_same by lia. apply tlbset_vtlb.
Qed.

(** The TLB probe: no slot holds [pte]; or the first one that does is
    stamped and its frame returned. *)
Lemma lookup_in_tlb_and_mark_Done (m : VM) (pte : Z) (m' : VM) (r : Z) :
  lookup_in_tlb_and_mark m pte = Done (m', r) ->
  (absent (vtlb m) (tlb m) pte /\ m' = m /\ r = -1) \/
  (exists i, first_at (vtlb m) (tlb m) pte i /\
     0 <= i < len (tlbtime m) /\ 0 <= i < len (ptlb m) /\
     m' = with_tlbtime m (upd (tlbtime m) i (timestamp m)) /\ r = rd (ptlb m) i).
Proof.
  unfold lookup_in_tlb_and_mark. intros H.
  apply obind_Done in H as (i & Hs & H).
  apply scan_Done in Hs as [[-> Ha]|Hf].
  - simpl in H. injection H as <- <-. left. auto.
  - pose proof Hf as (Hi & _).
    destruct (Z.eqb_spec i (-1)) as [->|_]; [lia|].
    apply obind_Done in H as (t & Ht & H). apply set_Done in Ht as [Hbt ->].
    apply obind_Done in H as (f & Hg & H). apply get_Done in Hg as [Hbp ->].
    injection H as <- <-. right. exists i. auto.
Qed.

Lemma make_address_Done (m : VM) (fr add w : Z) :
  make_address m fr add = Done w ->
  w = addr m fr add /\
  INT_MIN <= fr * pagesize m * 4 <= INT_MAX /\ INT_MIN <= add * 4 <= INT_MAX.
Proof.
  unfold make_address, addr. intros H.
  apply obind_Done in H as (t & Ht & H). apply ck_Done in Ht as [-> Ht].
  apply obind_Done in H as (b & Hb & H). apply ck_Done in Hb as [-> Hb].
  apply obind_Done in H as (o & Ho & H). apply ck_Done in Ho as [-> Ho].
  injection H as <-. auto.
Qed.

Lemma page_bytes_Done (m : VM) (i b : Z) :
  page_bytes m i = Done b ->
  b = i * pagesize m * 4 /\ INT_MIN <= i * pagesize m * 4 <= INT_MAX.
Proof.
  unfold page_bytes. intros H.
  apply obind_Done in H as (t & Ht & H). apply ck_Done in Ht as [-> Ht].
  apply ck_Done in H as [-> H]. auto.
Qed.

(** ** The three ways through [real_address] *)

Ltac vmsimpl :=
  cbn [pagesize vpage ppage palg pvirt ptime dirty tlb tlbalg ptlb vtlb tlbtime
       rrp rrt timestamp pc tc dc mem disk
       with_pvirt with_ptime with_dirty with_ptlb with_vtlb with_tlbtime
       with_rrp with_rrt with_timestamp with_pc with_tc with_dc with_mem with_disk
       tlbset marked faulted] in *.

Lemma div4 (z : Z) : z * 4 / 4 = z.
Proof. apply Z.div_mul. lia. Qed.

Lemma real_address_Done (m : VM) (a dty : Z) (m' : VM) (w : Z) :
  real_address m a dty = Done (m', w) ->
  INT_MIN <= timestamp m + 1 <= INT_MAX /\ u32 (pagesize m) <> 0 /\
  (tlb_hit m (s32 (a / u32 (pagesize m))) (s32 (a mod u32 (pagesize m))) dty m' w \/
   page_hit m (s32 (a / u32 (pagesize m))) (s32 (a mod u32 (pagesize m))) dty m' w \/
   page_fault m (s32 (a / u32 (pagesize m))) (s32 (a mod u32 (pagesize m))) dty m' w).
Proof.
  unfold real_address. intros H.
  apply obind_Done in H as (ts & Hts & H). apply ck_Done in Hts as [-> Hts].
  cbv zeta in H.
  apply obind_Done in H as (pte & Hpte & H).
  apply obind_Done in H as (add & Hadd & H).
  unfold udiv, urem in Hpte, Hadd. vmsimpl.
  destruct (Z.eqb_spec (u32 (pagesize m)) 0) as [|Hps]; [discriminate|].
  injection Hpte as <-. injection Hadd as <-.
  set (pte := s32 (a / u32 (pagesize m))) in *.
  set (add := s32 (a mod u32 (pagesize m))) in *.
  split; [exact Hts|]. split; [exact Hps|].
  apply obind_Done in H as ([m1 fr] & Hl & H). cbv beta iota zeta in H.
  apply lookup_in_tlb_and_mark_Done in Hl. vmsimpl.
  assert (Hmiss : (fr =? -1) = true -> exists t,
            tlb_missed m pte t /\
            m1 = with_tlbtime (with_timestamp m (timestamp m + 1)) t).
  { intros Hfr. apply Z.eqb_eq in Hfr.
    destruct Hl as [(Ha & -> & _)|(i & Hf & Hbt & Hbp & -> & Hr)].
    - exists (tlbtime m). split; [left; auto|]. now destruct m.
    - eexists. split; [|reflexivity]. right. exists i.
      repeat split; try apply Hf; try lia. }
  destruct (fr =? -1) eqn:Efr; cbn [negb] in H.
  - (* TLB miss *)
    destruct (Hmiss eq_refl) as (t & Hm & ->). clear Hmiss Hl.
    apply obind_Done in H as (c & Hc & H). apply ck_Done in Hc as [-> Hc].
    cbv zeta in H. vmsimpl.
    apply obind_Done in H as (fr' & Hs & H).
    unfold lookup_in_mem in Hs. vmsimpl.
    apply scan_Done in Hs as [[-> Ha]|Hf].
    + (* page fault *)
      right. right. cbn [Z.eqb negb] in H.
      apply obind_Done in H as (c & Hp & H). apply ck_Done in Hp as [-> Hp].
      cbv zeta in H. vmsimpl.
      apply obind_Done in H as ([m2 v] & Hv & H). cbv beta iota zeta in H.
      apply choose_page_Done in Hv as (r & Hv & ->). vmsimpl.
      apply obind_Done in H as (d & Hd & H). apply get_Done in Hd as [Hbd ->].
      apply obind_Done in H as (m3 & Hw & H).
      assert (Hwb : exists c dk, written_back m v c dk /\ len dk = len (disk m) /\
                m3 = with_disk (with_dc
                  (with_rrp (with_pc (with_tc (with_tlbtime
                     (with_timestamp m (timestamp m + 1)) t) (tc m + 1))
                     (pc m + 1)) r) c) dk).
      { destruct (Z.eqb_spec (rd (dirty m) v) 0) as [Hz|Hz].
        - injection Hw as <-. exists (dc m), (disk m).
          split; [left; auto|]. split; reflexivity.
        - apply obind_Done in Hw as (c & Hc' & Hw). apply ck_Done in Hc' as [-> Hc'].
          cbv zeta in Hw. vmsimpl.
          apply obind_Done in Hw as (q & Hq & Hw). apply get_Done in Hq as [Hbq ->].
          apply obind_Done in Hw as (db & Hdb & Hw).
          apply page_bytes_Done in Hdb as [-> Hdb].
          apply obind_Done in Hw as (sb & Hsb & Hw).
          apply page_bytes_Done in Hsb as [-> Hsb].
          apply obind_Done in Hw as (nb & Hnb & Hw). apply ck_Done in Hnb as [-> Hnb].
          apply obind_Done in Hw as (dk & Hdk & Hw).
          apply memcpy_Done in Hdk as (B1 & B2 & B3 & B4 & B5 & ->).
          injection Hw as <-. vmsimpl. rewrite !div4.
          eexists _, _. split; [|split; [apply len_blit | reflexivity]].
          right. repeat split; try assumption; lia. }
      destruct Hwb as (c & dk & Hwb & Hlen & ->). vmsimpl.
      apply obind_Done in H as (pv & Hpv & H). apply set_Done in Hpv as [Hbv ->].
      cbv zeta in H. vmsimpl.
      apply obind_Done in H as (pt & Hpt & H). apply set_Done in Hpt as [Hbt ->].
      cbv zeta in H. vmsimpl.
      apply obind_Done in H as (dl & Hdl & H). apply set_Done in Hdl as [_ ->].
      cbv zeta in H. vmsimpl.
      apply obind_Done in H as (db & Hdb & H). apply page_bytes_Done in Hdb as [-> Hdb].
      apply obind_Done in H as (q & Hq & H). apply get_Done in Hq as [_ ->].
      rewrite rd_upd_eq in H by lia.
      apply obind_Done in H as (sb & Hsb & H). apply page_bytes_Done in Hsb as [-> Hsb].
      apply obind_Done in H as (nb & Hnb & H). apply ck_Done in Hnb as [-> Hnb].
      apply obind_Done in H as (mm & Hmm & H).
      apply memcpy_Done in Hmm as (B1 & B2 & B3 & B4 & B5 & ->).
      cbv zeta in H. vmsimpl. rewrite !div4 in H. rewrite Hlen in B5.
      apply obind_Done in H as (m4 & Hfl & H).
      apply flushtlb_Done in Hfl as (i & r' & t' & Hin & Hip & Hiv & ->).
      apply obind_Done in H as (m5 & Hmk & H). apply mark_Done in Hmk as (Hk1 & Hk2 & ->).
      apply obind_Done in H as (w' & Hma & H).
      apply make_address_Done in Hma as (-> & Hma).
      injection H as <- <-. vmsimpl. rewrite len_upd in *.
      exists t, v, r, c, dk, i, r', t'.
      split; [exact Hm|]. split; [exact Hc|]. split; [exact Ha|]. split; [exact Hp|].
      split; [exact Hv|]. split; [exact Hbd|]. split; [exact Hbv|]. split; [exact Hbt|].
      split; [exact Hwb|].
      split; [lia|]. split; [lia|]. split; [lia|]. split; [lia|]. split; [lia|].
      split; [exact Hma|]. split; [reflexivity|].
      split; [exact Hin|]. split; [exact Hip|]. split; [exact Hiv|]. reflexivity.
    + (* page-table hit *)
      right. left. pose proof Hf as (Hfr & _).
      destruct (Z.eqb_spec fr' (-1)) as [->|_]; [lia|]. cbn [negb] in H.
      apply obind_Done in H as (m2 & Hmk & H). apply mark_Done in Hmk as (Hk1 & Hk2 & ->).
      apply obind_Done in H as (m3 & Hat & H).
      apply addtlb_Done in Hat as (i & r & t' & Hin & Hip & Hiv & ->).
      apply obind_Done in H as (w' & Hw & H). apply make_address_Done in Hw as (-> & Hw).
      injection H as <- <-. vmsimpl.
      exists t, fr', i, r, t'.
      split; [exact Hm|]. split; [exact Hc|]. split; [exact Hf|].
      split; [split; assumption|]. split; [exact Hw|]. split; [reflexivity|].
      split; [exact Hin|]. split; [exact Hip|]. split; [exact Hiv|]. reflexivity.
  - (* TLB hit *)
    left. clear Hmiss. apply Z.eqb_neq in Efr.
    destruct Hl as [(_ & _ & ->)|(i & Hf & Hbt & Hbp & -> & ->)]; [congruence|].
    apply obind_Done in H as (m2 & Hmk & H). apply mark_Done in Hmk as (Hk1 & Hk2 & ->).
    apply obind_Done in H as (w' & Hw & H). apply make_address_Done in Hw as (-> & Hw).
    injection H as <- <-. vmsimpl.
    exists i.
    split; [exact Hf|]. split; [exact Hbt|]. split; [exact Hbp|]. split; [exact Efr|].
    split; [split; assumption|]. split; [exact Hw|]. split; reflexivity.
Qed.

(** ** The accessors and sequences of accesses *)

Lemma readInt_Done (m : VM) (a : Z) (m' : VM) (v : Z) :
  readInt m a = Done (m', v) ->
  exists w, real_address m a 0 = Done (m', w) /\
            0 <= w / 4 < len (mem m') /\ v = rd (mem m') (w / 4).
Proof.
  unfold readInt, read_address. intros H.
  apply obind_Done in H as ([m1 w] & H1 & H). cbv beta iota in H.
  apply obind_Done in H as (x & Hx & H). apply get_Done in Hx as [Hb ->].
  injection H as <- <-. eauto.
Qed.

Lemma write_address_Done (m : VM) (a v : Z) (m'' : VM) :
  write_address m a v = Done m'' ->
  exists m' w, real_address m a 1 = Done (m', w) /\
               0 <= w / 4 < len (mem m') /\
               m'' = with_mem m' (upd (mem m') (w / 4) v).
Proof.
  unfold write_address. intros H.
  apply obind_Done in H as ([m1 w] & H1 & H). cbv beta iota in H.
  apply obind_Done in H as (x & Hx & H). apply set_Done in Hx as [Hb ->].
  injection H as <-. eauto.
Qed.

Lemma exec_Done (m : VM) (op : access) (m'' : VM) :
  exec m op = Done m'' ->
  exists m' w, real_address m (addr_of op) (dirty_flag op) = Done (m', w) /\
               stored m' w op m''.
Proof.
  destruct op as [a|a|a v|a v]; simpl; intros H.
  - apply obind_Done in H as ([m1 x] & H1 & H). injection H as <-.
    apply readInt_Done in H1 as (w & H1 & Hb & _). eauto.
  - apply obind_Done in H as ([m1 x] & H1 & H). injection H as <-.
    apply readInt_Done in H1 as (w & H1 & Hb & _). eauto.
  - apply write_address_Done in H as (m' & w & H1 & Hb & ->). eauto.
  - apply write_address_Done in H as (m' & w & H1 & Hb & ->). eauto.
Qed.

(** A property that every access preserves holds after any sequence. *)
Lemma run_invariant (I : VM -> Prop) :
  (forall m op m', I m -> exec m op = Done m' -> I m') ->
  forall ops m m', I m -> run m ops = Done m' -> I m'.
Proof.
  intros Hstep. induction ops as [|op ops IH]; intros m m' Hm H; simpl in H.
  - now injection H as <-.
  - apply obind_Done in H as (m1 & H1 & H). eauto.
Qed.

Lemma run_app (ops1 ops2 : list access) (m : VM) :
  run m (ops1 ++ ops2) = (m1 <- run m ops1; run m1 ops2).
Proof.
  revert m. induction ops1 as [|op ops1 IH]; intros m; simpl; [reflexivity|].
  destruct (exec m op) as [m1| |f]; simpl; [apply IH | reflexivity | reflexivity].
Qed.

Lemma createVM_Done (sizeVM sizePM pageSize sizeTLB pageReplAlg tlbReplAlg : Z) (h : handle) :
  createVM sizeVM sizePM pageSize sizeTLB pageReplAlg tlbReplAlg = Done h ->
  exists pv pt vt,
    fill (calloc sizePM) sizePM = Done pv /\
    fill (calloc sizeTLB) sizeTLB = Done pt /\
    fill (calloc sizeTLB) sizeTLB = Done vt /\
    h = Handle
      {| pagesize := s32 pageSize; vpage := s32 sizeVM;
         ppage := s32 sizePM; palg := pageReplAlg;
         pvirt := pv; ptime := calloc sizePM; dirty := calloc sizePM;
         tlb := s32 sizeTLB; tlbalg := tlbReplAlg;
         ptlb := pt; vtlb := vt; tlbtime := calloc sizeTLB;
         rrp := 0; rrt := 0; timestamp := 0;
         pc := 0; tc := 0; dc := 0;
         mem := calloc (u32 (sizePM * pageSize));
         disk := calloc (u32 (sizeVM * pageSize)) |}.
Proof.
  unfold createVM. intros H.
  apply obind_Done in H as (pv & Hpv & H).
  apply obind_Done in H as (pt & Hpt & H).
  apply obind_Done in H as (vt & Hvt & H).
  injection H as <-. eauto 10.
Qed.

(** ** The counters *)

Lemma written_back_dc (m : VM) (fr c : Z) (dk : list Z) :
  written_back m fr c dk -> dc m <= c <= dc m + 1.
Proof. intros [(_ & -> & _)|(_ & _ & -> & _)]; lia. Qed.

Lemma counters_real_address (m : VM) (a dty : Z) (m' : VM) (w : Z) :
  counters_ordered m -> real_address m a dty = Done (m', w) -> counters_ordered m'.
Proof.
  unfold counters_ordered. intros Hc H.
  apply real_address_Done in H as (_ & _ & [H|[H|H]]).
  - destruct H as (i & _ & _ & _ & _ & _ & _ & _ & ->). vmsimpl. lia.
  - destruct H as (t & fr & i & r & t' & _ & _ & _ & _ & _ & _ & _ & _ & _ & ->).
    vmsimpl. lia.
  - destruct H as (t & fr & r & c & dk & i & r' & t' & _ & _ & _ & _ & _ & _ & _ & _ &
                   Hwb & _ & _ & _ & _ & _ & _ & _ & _ & _ & _ & ->).
    apply written_back_dc in Hwb. vmsimpl. lia.
Qed.

Lemma stored_counters (m' : VM) (w : Z) (op : access) (m'' : VM) :
  stored m' w op m'' ->
  pc m'' = pc m' /\ tc m'' = tc m' /\ dc m'' = dc m' /\ timestamp m'' = timestamp m'.
Proof. destruct op; simpl; intros [_ ->]; auto. Qed.

Lemma counters_exec (m : VM) (op : access) (m' : VM) :
  counters_ordered m -> exec m op = Done m' -> counters_ordered m'.
Proof.
  intros Hc H. apply exec_Done in H as (m1 & w & H & Hs).
  apply counters_real_address in H; [|exact Hc].
  apply stored_counters in Hs as (E1 & E2 & E3 & E4).
  unfold counters_ordered in *. rewrite E1, E2, E3, E4. exact H.
Qed.

Lemma counters_reachable (sizeVM sizePM pageSize sizeTLB pageReplAlg tlbReplAlg : Z) (m : VM) :
  reachable sizeVM sizePM pageSize sizeTLB pageReplAlg tlbReplAlg m ->
  counters_ordered m.
Proof.
  intros (m0 & ops & Hc & Hr).
  apply (run_invariant counters_ordered counters_exec ops m0 m); [|exact Hr].
  apply createVM_Done in Hc as (pv & pt & vt & _ & _ & _ & Hh).
  injection Hh as ->. unfold counters_ordered. simpl. lia.
Qed.

(** ** The TLB agrees with the page table *)

(** Installing the pair [(fr, pte)] in slot [i] keeps the TLB in agreement
    with a page table [pv] whose frame [fr] holds [pte], when no other slot
    points at [fr]. *)
Lemma install_coherent (pv pt vt : list Z) (n p i fr pte : Z) :
  len pt = n -> len vt = n -> 0 <= i < n -> 0 <= fr < p -> rd pv fr = pte ->
  (forall j k, 0 <= j < n -> 0 <= k < n -> rd pt j = rd pt k -> j = k) ->
  (forall j, 0 <= j < n -> j <> i ->
     rd pt j <> fr /\ 0 <= rd pt j < p /\ rd pv (rd pt j) = rd vt j) ->
  (forall j k, 0 <= j < n -> 0 <= k < n ->
     rd (upd pt i fr) j = rd (upd pt i fr) k -> j = k) /\
  (forall j, 0 <= j < n ->
     0 <= rd (upd pt i fr) j < p /\
     rd pv (rd (upd pt i fr) j) = rd (upd vt i pte) j).
Proof.
  intros Hlp Hlv Hi Hfr Hpv Hinj Hoth. split.
  - intros j k Hj Hk. rewrite !rd_upd by lia.
    destruct (Z.eqb_spec j i) as [->|Hji], (Z.eqb_spec k i) as [->|Hki]; intros E.
    + reflexivity.
    + exfalso. apply (proj1 (Hoth k Hk Hki)). congruence.
    + exfalso. apply (proj1 (Hoth j Hj Hji)). congruence.
    + now apply Hinj.
  - intros j Hj. rewrite !rd_upd by lia.
    destruct (Z.eqb_spec j i) as [->|Hji].
    + split; [lia | exact Hpv].
    + destruct (Hoth j Hj Hji) as (_ & H1 & H2). auto.
Qed.

Lemma coherent_real_address (m : VM) (a dty : Z) (m' : VM) (w : Z) :
  coherent m -> real_address m a dty = Done (m', w) -> coherent m'.
Proof.
  intros (Lp & Lt & Lv & Ip & It & Hc) H.
  apply real_address_Done in H as (_ & _ & [H|[H|H]]).
  - destruct H as (i & _ & _ & _ & _ & _ & _ & _ & ->).
    unfold coherent. vmsimpl. auto 10.
  - destruct H as (t & fr & i & r & t' & Hm & _ & Hf & _ & _ & _ & _ & Hip & Hiv & ->).
    destruct Hf as (Hfr & _ & Hx & _).
    assert (Hno : forall j, 0 <= j < tlb m -> rd (ptlb m) j <> fr).
    { intros j Hj E. destruct (Hc j Hj) as [_ Hcj]. rewrite E, Hx in Hcj.
      destruct Hm as [[Ha _]|(k & Hk & _ & _ & Hneg & _)].
      - destruct (Ha j Hj) as [_ Hne]. congruence.
      - destruct Hk as (Hk & _). destruct (Hc k Hk) as [Hr _]. lia. }
    destruct (install_coherent (pvirt m) (ptlb m) (vtlb m) (tlb m) (ppage m) i fr
                (s32 (a / u32 (pagesize m)))) as [I1 I2]; try assumption; try lia.
    { intros j Hj _. split; [now apply Hno | now apply Hc]. }
    unfold coherent. vmsimpl. rewrite !len_upd. auto 10.
  - destruct H as (t & fr & r & c & dk & i & r' & t' & Hm & _ & Ha & _ & _ & _ & Hbv & _ &
                   _ & _ & _ & _ & _ & _ & _ & _ & Hin & Hip & Hiv & ->).
    set (pte := s32 (a / u32 (pagesize m))) in *.
    assert (Ip' : forall f g, 0 <= f < ppage m -> 0 <= g < ppage m ->
              rd (upd (pvirt m) fr pte) f = rd (upd (pvirt m) fr pte) g -> f = g).
    { intros f g Hf Hg. rewrite !rd_upd by lia.
      destruct (Z.eqb_spec f fr) as [->|Hf'], (Z.eqb_spec g fr) as [->|Hg']; intros E.
      - reflexivity.
      - exfalso. apply (proj2 (Ha g Hg)). congruence.
      - exfalso. apply (proj2 (Ha f Hf)). congruence.
      - now apply Ip. }
    assert (Hoth : forall j, 0 <= j < tlb m -> j <> i ->
              rd (ptlb m) j <> fr /\ 0 <= rd (ptlb m) j < ppage m /\
              rd (upd (pvirt m) fr pte) (rd (ptlb m) j) = rd (vtlb m) j).
    { intros j Hj Hji.
      assert (Hne : rd (ptlb m) j <> fr).
      { destruct Hin as [(Hf & _)|[Hab _]]; vmsimpl.
        - destruct Hf as (Hi & _ & Hx & _). intros E.
          apply Hji. apply It; [lia | lia | congruence].
        - apply Hab. exact Hj. }
      destruct (Hc j Hj) as [Hr Hv].
      split; [exact Hne|]. split; [exact Hr|].
      rewrite rd_upd_ne by lia. exact Hv. }
    destruct (install_coherent (upd (pvirt m) fr pte) (ptlb m) (vtlb m) (tlb m)
                (ppage m) i fr pte) as [I1 I2]; try assumption; try lia.
    { apply rd_upd_eq. lia. }
    unfold coherent. vmsimpl. rewrite !len_upd. auto 10.
Qed.

Lemma stored_tables (m' : VM) (w : Z) (op : access) (m'' : VM) :
  stored m' w op m'' ->
  exists x, m'' = with_mem m' x /\ len x = len (mem m').
Proof.
  destruct op; simpl; intros [Hb ->].
  - exists (mem m'). split; [now destruct m' | reflexivity].
  - exists (mem m'). split; [now destruct m' | reflexivity].
  - eexists. split; [reflexivity | apply len_upd].
  - eexists. split; [reflexivity | apply len_upd].
Qed.

Lemma coherent_exec (m : VM) (op : access) (m' : VM) :
  coherent m -> exec m op = Done m' -> coherent m'.
Proof.
  intros Hc H. apply exec_Done in H as (m1 & w & H & Hs).
  apply coherent_real_address in H; [|exact Hc].
  apply stored_tables in Hs as (x & -> & _). exact H.
Qed.

(** What [createVM] sets up. *)
Lemma createVM_coherent (sizeVM sizePM pageSize sizeTLB pageReplAlg tlbReplAlg : Z) (m0 : VM) :
  0 <= sizeTLB <= sizePM ->
  createVM sizeVM sizePM pageSize sizeTLB pageReplAlg tlbReplAlg = Done (Handle m0) ->
  coherent m0.
Proof.
  intros HT H. apply createVM_Done in H as (pv & pt & vt & Hpv & Hpt & Hvt & Hh).
  injection Hh as ->.
  apply fill_Done in Hpv as (L1 & _ & M1 & I1); [|lia].
  apply fill_Done in Hpt as (L2 & _ & M2 & I2); [|lia].
  apply fill_Done in Hvt as (L3 & _ & M3 & I3); [|lia].
  rewrite len_calloc in L1, L2, L3 by lia.
  unfold coherent. simpl. rewrite !s32_id by lia.
  split; [exact L1|]. split; [exact L2|]. split; [exact L3|].
  split; [|split].
  - intros f g Hf Hg. rewrite !I1 by lia. auto.
  - intros i j Hi Hj. rewrite !I2 by lia. auto.
  - intros i Hi. rewrite I2, I3 by lia. rewrite I1 by lia. split; [lia | reflexivity].
Qed.

Lemma coherent_reachable (sizeVM sizePM pageSize sizeTLB pageReplAlg tlbReplAlg : Z) (m : VM) :
  0 <= sizeTLB <= sizePM ->
  reachable sizeVM sizePM pageSize sizeTLB pageReplAlg tlbReplAlg m ->
  coherent m.
Proof.
  intros HT (m0 & ops & Hc & Hr).
  apply (run_invariant coherent coherent_exec ops m0 m); [|exact Hr].
  eapply createVM_coherent; eassumption.
Qed.

(** ** What a translation does to the page table *)

(** The configuration never changes. *)
Lemma real_address_config (m : VM) (a dty : Z) (m' : VM) (w : Z) :
  real_address m a dty = Done (m', w) ->
  pagesize m' = pagesize m /\ vpage m' = vpage m /\ ppage m' = ppage m /\
  palg m' = palg m /\ tlb m' = tlb m /\ tlbalg m' = tlbalg m.
Proof.
  intros H. apply real_address_Done in H as (_ & _ & [H|[H|H]]).
  - destruct H as (i & _ & _ & _ & _ & _ & _ & _ & ->). vmsimpl. auto 10.
  - destruct H as (t & fr & i & r & t' & _ & _ & _ & _ & _ & _ & _ & _ & _ & ->).
    vmsimpl. auto 10.
  - destruct H as (t & fr & r & c & dk & i & r' & t' & _ & _ & _ & _ & _ & _ & _ & _ &
                   _ & _ & _ & _ & _ & _ & _ & _ & _ & _ & _ & ->).
    vmsimpl. auto 10.
Qed.

Lemma real_address_tables (m : VM) (a dty : Z) (m' : VM) (w : Z) :
  real_address m a dty = Done (m', w) ->
  no_fault m m' \/ exists fr, fault_in m (page_of m a) fr m'.
Proof.
  intros H. apply real_address_Done in H as (_ & _ & [H|[H|H]]).
  - left. destruct H as (i & _ & _ & _ & _ & _ & _ & _ & ->).
    unfold no_fault. vmsimpl. auto 10.
  - left. destruct H as (t & fr & i & r & t' & _ & _ & _ & _ & _ & _ & _ & _ & _ & ->).
    unfold no_fault. vmsimpl. auto 10.
  - right.
    destruct H as (t & fr & r & c & dk & i & r' & t' & _ & _ & Ha & _ & Hv & Hbd & Hbv & _ &
                   Hwb & _ & _ & _ & _ & _ & _ & _ & _ & _ & _ & ->).
    exists fr. unfold fault_in. vmsimpl. auto 10.
Qed.

Lemma exec_config (m : VM) (op : access) (m' : VM) :
  exec m op = Done m' ->
  pagesize m' = pagesize m /\ vpage m' = vpage m /\ ppage m' = ppage m /\
  palg m' = palg m /\ tlb m' = tlb m /\ tlbalg m' = tlbalg m.
Proof.
  intros H. apply exec_Done in H as (m1 & w & H & Hs).
  apply real_address_config in H. apply stored_tables in Hs as (x & -> & _).
  exact H.
Qed.

Lemma exec_tables (m : VM) (op : access) (m' : VM) :
  exec m op = Done m' ->
  no_fault_tables m m' \/ exists fr, fault_in m (page_of m (addr_of op)) fr m'.
Proof.
  intros H. apply exec_Done in H as (m1 & w & H & Hs).
  apply real_address_tables in H. apply stored_tables in Hs as (x & -> & _).
  destruct H as [(H1 & H2 & H3 & H4 & H5 & _)|[fr H]].
  - left. unfold no_fault_tables. vmsimpl. auto.
  - right. exists fr. exact H.
Qed.

(** ** Round-robin *)

Lemma rr_cursor (c n : Z) :
  0 < n -> 0 <= c < n ->
  Z.rem (c + 1) n = (c + 1) mod n /\ Z.rem ((c + 1) mod n + n - 1) n = c.
Proof.
  intros Hn Hc. split; [apply Z.rem_mod_nonneg; lia|].
  pose proof (Z.mod_pos_bound (c + 1) n Hn).
  rewrite Z.rem_mod_nonneg by lia.
  destruct (Z.eq_dec (c + 1) n) as [E|E].
  - rewrite E, Z.mod_same by lia. rewrite Z.mod_small; lia.
  - rewrite (Z.mod_small (c + 1)) by lia.
    replace (c + 1 + n - 1) with (c + 1 * n) by lia.
    rewrite Z.mod_add by lia. apply Z.mod_small. lia.
Qed.

(** Under round-robin the policy hands out the cursor and advances it. *)
Lemma victim_round_robin (c n : Z) (times : list Z) (c' v : Z) :
  0 < n -> 0 <= c < n -> victim 0 c n times c' v ->
  v = c /\ c' = (c + 1) mod n.
Proof.
  intros Hn Hc [(_ & _ & _ & -> & _ & _ & ->)|(H & _)]; [|congruence].
  destruct (rr_cursor c n Hn Hc) as [E1 E2]. rewrite E1. auto.
Qed.

Lemma choose_page_round_robin (m : VM) :
  palg m = 0 -> 0 < ppage m <= 1073741824 -> 0 <= rrp m < ppage m ->
  choose_page m = Done (with_rrp m ((rrp m + 1) mod ppage m), rrp m).
Proof.
  intros Ha Hn Hc. unfold choose_page. rewrite Ha. cbn [Z.eqb].
  destruct (rr_cursor (rrp m) (ppage m)) as [E1 E2]; [lia | lia |].
  pose proof (Z.mod_pos_bound (rrp m + 1) (ppage m) ltac:(lia)).
  rewrite Z.rem_mod_nonneg in E2 by lia.
  unfold iadd, isub.
  rewrite ck_ok by (unfold INT_MIN, INT_MAX; lia). cbn [obind].
  rewrite irem_ok by (unfold INT_MAX; lia). cbn [obind].
  rewrite ck_ok by (unfold INT_MIN, INT_MAX; lia). cbn [obind].
  rewrite ck_ok by (unfold INT_MIN, INT_MAX; lia). cbn [obind].
  rewrite irem_ok by (unfold INT_MAX; lia). cbn [obind].
  now rewrite E2.
Qed.

Lemma choose_tlb_round_robin (m : VM) :
  tlbalg m = 0 -> 0 < tlb m <= 1073741824 -> 0 <= rrt m < tlb m ->
  choose_tlb m = Done (with_rrt m ((rrt m + 1) mod tlb m), rrt m).
Proof.
  intros Ha Hn Hc. unfold choose_tlb. rewrite Ha. cbn [Z.eqb].
  destruct (rr_cursor (rrt m) (tlb m)) as [E1 E2]; [lia | lia |].
  pose proof (Z.mod_pos_bound (rrt m + 1) (tlb m) ltac:(lia)).
  rewrite Z.rem_mod_nonneg in E2 by lia.
  unfold iadd, isub.
  rewrite ck_ok by (unfold INT_MIN, INT_MAX; lia). cbn [obind].
  rewrite irem_ok by (unfold INT_MAX; lia). cbn [obind].
  rewrite ck_ok by (unfold INT_MIN, INT_MAX; lia). cbn [obind].
  rewrite ck_ok by (unfold INT_MIN, INT_MAX; lia). cbn [obind].
  rewrite irem_ok by (unfold INT_MAX; lia). cbn [obind].
  now rewrite E2.
Qed.



Lemma victim_nonzero (alg c n : Z) (times : list Z) (c' v : Z) :
  victim alg c n times c' v -> alg = 0 -> n <> 0.
Proof. intros [(_ & H & _)|(H & _)] E; [exact H | contradiction]. Qed.

Lemma cursor_counts_exec (m : VM) (op : access) (m' : VM) :
  cursor_counts m -> exec m op = Done m' -> cursor_counts m'.
Proof.
  intros (HL & Hp & Hr) H. pose proof (exec_config m op m' H) as (_ & _ & EP & EA & _).
  apply exec_tables in H as [(H1 & H2 & H3 & _)|(fr & H1 & Hv & Hb & _ & _ & H2 & _)];
    unfold cursor_counts; rewrite EP, EA, H1, H2.
  - rewrite H3. auto.
  - rewrite len_upd. split; [exact HL|]. split; [lia|]. intros Ha.
    rewrite Ha in Hv. pose proof (len_nonneg (pvirt m)).
    assert (Hn : 0 < ppage m) by (apply victim_nonzero in Hv; lia).
    pose proof (Z.mod_pos_bound (pc m) (ppage m) Hn).
    apply victim_round_robin in Hv as [_ ->]; [|lia|rewrite Hr by assumption; lia].
    rewrite Hr by assumption. now rewrite Z.add_mod_idemp_l by lia.
Qed.

Lemma cursor_counts_reachable (sizeVM sizePM pageSize sizeTLB pageReplAlg tlbReplAlg : Z) (m : VM) :
  0 <= sizePM ->
  reachable sizeVM sizePM pageSize sizeTLB pageReplAlg tlbReplAlg m ->
  cursor_counts m.
Proof.
  intros HP (m0 & ops & Hc & Hr).
  apply (run_invariant cursor_counts cursor_counts_exec ops m0 m); [|exact Hr].
  apply createVM_Done in Hc as (pv & pt & vt & Hpv & _ & _ & Hh).
  injection Hh as ->. apply fill_Done in Hpv as (L1 & _ & M1 & _); [|lia].
  rewrite len_calloc in L1 by lia.
  unfold cursor_counts. simpl. rewrite s32_id by lia.
  split; [exact L1|]. split; [lia|]. intros _. now rewrite Zmod_0_l.
Qed.

(** ** A small simulation, used to exercise the theorems

    [createVM(4, 2, 2, 1, 0, 0)]: four virtual pages of two words, two
    frames, one TLB slot, round-robin everywhere. *)

Lemma demo_create : createVM 4 2 2 1 0 0 = Done (Handle demo0).
Proof. vm_compute. reflexivity. Qed.

Lemma demo2_reachable : reachable 4 2 2 1 0 0 demo2.
Proof.
  exists demo0, [WriteInt 0 7; WriteInt 2 9]. split; vm_compute; reflexivity.
Qed.

Lemma demo4_reachable : reachable 4 2 2 1 0 0 demo4.
Proof. exists demo0, demo_ops. split; vm_compute; reflexivity. Qed.

Lemma reachable_config (sizeVM sizePM pageSize sizeTLB pageReplAlg tlbReplAlg : Z) (m : VM) :
  reachable sizeVM sizePM pageSize sizeTLB pageReplAlg tlbReplAlg m ->
  pagesize m = s32 pageSize /\ vpage m = s32 sizeVM /\ ppage m = s32 sizePM /\
  palg m = pageReplAlg /\ tlb m = s32 sizeTLB /\ tlbalg m = tlbReplAlg.
Proof.
  intros (m0 & ops & Hc & Hr).
  apply createVM_Done in Hc as (pv & pt & vt & _ & _ & _ & Hh). injection Hh as ->.
  revert Hr.
  apply (run_invariant (fun m => pagesize m = s32 pageSize /\ vpage m = s32 sizeVM /\
           ppage m = s32 sizePM /\ palg m = pageReplAlg /\ tlb m = s32 sizeTLB /\
           tlbalg m = tlbReplAlg)).
  - intros m1 op m2 (H1 & H2 & H3 & H4 & H5 & H6) H.
    apply exec_config in H as (E1 & E2 & E3 & E4 & E5 & E6).
    rewrite E1, E2, E3, E4, E5, E6. auto 10.
  - simpl. auto 10.
Qed.

(** ** Clocks and cursors *)

Lemma victim_cursor (alg c n : Z) (times : list Z) (c' v : Z) :
  victim alg c n times c' v -> 0 <= n ->
  0 <= c /\ (0 < n -> c < n) -> 0 <= c' /\ (0 < n -> c' < n).
Proof.
  intros [(_ & Hn & _ & -> & _)|(_ & -> & _)] Hn0 [Hc Hc']; [|auto].
  rewrite Z.rem_mod_nonneg by lia.
  pose proof (Z.mod_pos_bound (c + 1) n ltac:(lia)). split; [lia | intros _; lia].
Qed.

Lemma tlb_missed_times (m : VM) (pte : Z) (t : list Z) :
  tlb_missed m pte t -> len (tlbtime m) = tlb m ->
  (forall i, 0 <= i < tlb m -> rd (tlbtime m) i <= timestamp m) ->
  len t = tlb m /\ forall i, 0 <= i < tlb m -> rd t i <= timestamp m + 1.
Proof.
  intros [(_ & ->)|(k & _ & Hk & _ & _ & ->)] HL Ht.
  - split; [exact HL|]. intros i Hi. specialize (Ht i Hi). lia.
  - rewrite len_upd. split; [exact HL|]. intros i Hi. rewrite rd_upd by lia.
    destruct (Z.eqb_spec i k); [lia|]. specialize (Ht i Hi). lia.
Qed.

Lemma timed_real_address (m : VM) (a dty : Z) (m' : VM) (w : Z) :
  timed m -> real_address m a dty = Done (m', w) -> timed m'.
Proof.
  intros (Lp & Lt & Hts & Hp & Ht & Hrp & Hrt) H.
  pose proof (len_nonneg (ptime m)) as Np. pose proof (len_nonneg (tlbtime m)) as Nt.
  apply real_address_Done in H as (Hck & _ & [H|[H|H]]).
  - destruct H as (i & _ & Hbi & _ & _ & [Hbf _] & _ & _ & ->).
    unfold timed. vmsimpl. rewrite !len_upd.
    split; [exact Lp|]. split; [exact Lt|]. split; [lia|]. split; [|split; [|auto]].
    + intros f Hf. rewrite rd_upd by lia.
      destruct (Z.eqb_spec f (rd (ptlb m) i)); [lia|]. specialize (Hp f Hf). lia.
    + intros j Hj. rewrite rd_upd by lia.
      destruct (Z.eqb_spec j i); [lia|]. specialize (Ht j Hj). lia.
  - destruct H as (t & fr & i & r & t' & Hm & _ & _ & [Hbf _] & _ & _ & Hin & _ & _ & ->).
    destruct (tlb_missed_times m _ t Hm Lt Ht) as [Lt' Ht'].
    destruct Hin as (Hv & Hbi & ->). vmsimpl.
    apply victim_cursor in Hv; [|lia|exact Hrt].
    unfold timed. vmsimpl. rewrite !len_upd.
    split; [exact Lp|]. split; [exact Lt'|]. split; [lia|]. split; [|split; [|auto]].
    + intros f Hf. rewrite rd_upd by lia.
      destruct (Z.eqb_spec f fr); [lia|]. specialize (Hp f Hf). lia.
    + intros j Hj. rewrite rd_upd by lia.
      destruct (Z.eqb_spec j i); [lia|]. apply Ht'. exact Hj.
  - destruct H as (t & fr & r & c & dk & i & r' & t' & Hm & _ & _ & _ & Hv & _ & _ & Hbf &
                   _ & _ & _ & _ & _ & _ & _ & _ & Hin & _ & _ & ->).
    destruct (tlb_missed_times m _ t Hm Lt Ht) as [Lt' Ht'].
    apply victim_cursor in Hv; [|lia|exact Hrp].
    assert (Hin' : len t' = tlb m /\
              (forall j, 0 <= j < tlb m -> rd t' j <= timestamp m + 1) /\
              0 <= r' /\ (0 < tlb m -> r' < tlb m)).
    { destruct Hin as [(_ & -> & ->)|(_ & Hv' & Hbi & ->)]; vmsimpl.
      - auto.
      - apply victim_cursor in Hv'; [|lia|exact Hrt].
        rewrite len_upd. split; [exact Lt'|]. split; [|exact Hv'].
        intros j Hj. rewrite rd_upd by lia.
        destruct (Z.eqb_spec j i); [lia|]. apply Ht'. exact Hj. }
    destruct Hin' as (L' & T' & R').
    unfold timed. vmsimpl. rewrite !len_upd.
    split; [exact Lp|]. split; [exact L'|]. split; [lia|]. split; [|split; [|auto]].
    + intros f Hf. rewrite rd_upd by (rewrite ?len_upd; lia).
      destruct (Z.eqb_spec f fr); [lia|]. rewrite rd_upd by lia.
      destruct (Z.eqb_spec f fr); [lia|]. specialize (Hp f Hf). lia.
    + exact T'.
Qed.

(** ** The simulated memory *)

(** Two different pages do not overlap. *)
Lemma page_disjoint (s f g o : Z) :
  0 < s -> 0 <= o < s -> f <> g -> ~ (g * s <= f * s + o < g * s + s).
Proof. intros Hs Ho Hne. nia. Qed.

Lemma page_index (s f o g o' : Z) :
  0 < s -> 0 <= o < s -> 0 <= o' < s -> f * s + o = g * s + o' -> f = g /\ o = o'.
Proof. intros Hs Ho Ho' E. assert (f = g) by nia. subst. lia. Qed.

Lemma page_bound (s f n o : Z) :
  0 < s -> 0 <= f < n -> 0 <= o < s -> 0 <= f * s + o < n * s.
Proof. intros Hs Hf Ho. nia. Qed.

Lemma slot_bounds (s p n : Z) :
  0 < s -> 0 <= p * s -> p * s + s <= n * s -> 0 <= p < n.
Proof. intros Hs H1 H2. nia. Qed.

(** The disk after a write-back differs from the disk before only in the
    slot of the victim's page, which then holds the victim frame. *)
Lemma written_back_disk (m : VM) (fr c : Z) (dk : list Z) (p o : Z) :
  written_back m fr c dk -> 0 < pagesize m ->
  len (disk m) = vpage m * pagesize m -> len (mem m) = ppage m * pagesize m ->
  0 <= fr < ppage m -> 0 <= p -> 0 <= o < pagesize m ->
  len dk = len (disk m) /\
  rd dk (p * pagesize m + o) =
    if (negb (rd (dirty m) fr =? 0)) && (p =? rd (pvirt m) fr)
    then rd (mem m) (fr * pagesize m + o)
    else rd (disk m) (p * pagesize m + o).
Proof.
  intros [(Hd & _ & ->)|(Hd & _ & _ & B1 & B2 & ->)] Hs Ld Lm Hfr Hp Ho.
  - split; [reflexivity|]. rewrite Hd. reflexivity.
  - rewrite len_blit. split; [reflexivity|].
    destruct (Z.eqb_spec (rd (dirty m) fr) 0) as [|_]; [contradiction|]. cbn [negb andb].
    assert (0 <= fr * pagesize m /\ fr * pagesize m + pagesize m <= len (mem m)) by nia.
    rewrite rd_blit by nia.
    destruct (Z.eqb_spec p (rd (pvirt m) fr)) as [->|Hne].
    + destruct (Z.leb_spec (rd (pvirt m) fr * pagesize m)
                           (rd (pvirt m) fr * pagesize m + o)); [|lia].
      destruct (Z.ltb_spec (rd (pvirt m) fr * pagesize m + o)
                           (rd (pvirt m) fr * pagesize m + pagesize m)); [|lia].
      cbn [andb]. f_equal. lia.
    + pose proof (page_disjoint (pagesize m) p (rd (pvirt m) fr) o Hs Ho Hne).
      destruct (Z.leb_spec (rd (pvirt m) fr * pagesize m) (p * pagesize m + o));
        destruct (Z.ltb_spec (p * pagesize m + o)
                             (rd (pvirt m) fr * pagesize m + pagesize m));
        cbn [andb]; try reflexivity; lia.
Qed.

Lemma marked_dirty_zero (d : list Z) (fr dty f : Z) :
  0 <= fr -> 0 <= f -> (dty <> 0 -> fr < len d) ->
  rd (if dty =? 0 then d else upd d fr 1) f = 0 -> rd d f = 0 /\ (f = fr -> dty = 0).
Proof.
  intros Hfr Hf Hb. destruct (Z.eqb_spec dty 0) as [->|Hd]; [auto|].
  rewrite rd_upd by lia. destruct (Z.eqb_spec f fr); [lia|]. intros H. split; [exact H|lia].
Qed.

Lemma mem_ok_real_address (m : VM) (a dty : Z) (m' : VM) (w : Z) :
  coherent m -> mem_ok m -> real_address m a dty = Done (m', w) -> mem_ok m'.
Proof.
  intros (Lp & _ & _ & Ip & _ & _) (Hs & HV & Ld & Lm & Lk & Hr & Hcl) H.
  apply real_address_Done in H as (_ & _ & [H|[H|H]]).
  - destruct H as (i & _ & _ & _ & _ & [Hbf Hbd] & _ & _ & ->).
    unfold mem_ok. vmsimpl.
    split; [exact Hs|]. split; [exact HV|].
    split; [destruct (dty =? 0); rewrite ?len_upd; exact Ld|].
    split; [exact Lm|]. split; [exact Lk|]. split; [exact Hr|].
    intros f o Hf Ho Hz. apply marked_dirty_zero in Hz as [Hz _]; try lia.
    now apply Hcl.
  - destruct H as (t & fr & i & r & t' & _ & _ & _ & [Hbf Hbd] & _ & _ & _ & _ & _ & ->).
    unfold mem_ok. vmsimpl.
    split; [exact Hs|]. split; [exact HV|].
    split; [destruct (dty =? 0); rewrite ?len_upd; exact Ld|].
    split; [exact Lm|]. split; [exact Lk|]. split; [exact Hr|].
    intros f o Hf Ho Hz. apply marked_dirty_zero in Hz as [Hz _]; try lia.
    now apply Hcl.
  - destruct H as (t & fr & r & c & dk & i & r' & t' & _ & _ & Ha & _ & _ & Hbd & Hbv & _ &
                   Hwb & _ & B1 & B2 & B3 & B4 & _ & _ & _ & _ & _ & ->).
    set (pte := s32 (a / u32 (pagesize m))) in *.
    assert (Hfr : 0 <= fr < ppage m) by lia.
    assert (Hpte : 0 <= pte < vpage m).
    { apply (slot_bounds (pagesize m)); lia. }
    assert (Hdk : len dk = len (disk m)).
    { apply (written_back_disk m fr c dk 0 0 Hwb); lia. }
    unfold mem_ok. vmsimpl. rewrite len_blit.
    split; [exact Hs|]. split; [exact HV|].
    split; [destruct (dty =? 0); rewrite ?len_upd; exact Ld|].
    split; [exact Lm|]. split; [lia|]. split.
    + intros f Hf. rewrite rd_upd by lia.
      destruct (Z.eqb_spec f fr); [exact Hpte | now apply Hr].
    + intros f o Hf Ho Hz.
      apply marked_dirty_zero in Hz as [Hz Hdty]; try (rewrite ?len_upd; lia).
      rewrite rd_blit by lia. rewrite !rd_upd by lia.
      destruct (Z.eqb_spec f fr) as [->|Hne].
      * destruct (Z.leb_spec (fr * pagesize m) (fr * pagesize m + o)); [|lia].
        destruct (Z.ltb_spec (fr * pagesize m + o) (fr * pagesize m + pagesize m)); [|lia].
        cbn [andb]. f_equal. lia.
      * rewrite rd_upd in Hz by lia.
        destruct (Z.eqb_spec f fr); [contradiction|].
        pose proof (page_disjoint (pagesize m) f fr o ltac:(lia) Ho Hne).
        replace ((fr * pagesize m <=? f * pagesize m + o) &&
                 (f * pagesize m + o <? fr * pagesize m + pagesize m)) with false
          by (symmetry; apply andb_false_iff;
              rewrite Z.leb_gt, Z.ltb_ge; lia).
        destruct (Hr f Hf) as [Hq _].
        destruct (written_back_disk m fr c dk (rd (pvirt m) f) o Hwb) as [_ ->]; try lia.
        replace (rd (pvirt m) f =? rd (pvirt m) fr) with false.
        { rewrite andb_false_r. now apply Hcl. }
        symmetry. apply Z.eqb_neq. intros E. apply Hne. apply Ip; [lia | lia | exact E].
Qed.

Lemma vword_resident (m : VM) (b f : Z) :
  ppage m <= len (pvirt m) -> first_at (pvirt m) (ppage m) (b / pagesize m) f ->
  vword m b = rd (mem m) (f * pagesize m + b mod pagesize m).
Proof.
  intros HL Hf. unfold vword, lookup_in_mem. rewrite (scan_first _ _ _ f HL Hf).
  destruct Hf as (Hf & _). destruct (Z.eqb_spec f (-1)); [lia | reflexivity].
Qed.

Lemma vword_absent (m : VM) (b : Z) :
  ppage m <= len (pvirt m) -> absent (pvirt m) (ppage m) (b / pagesize m) ->
  vword m b = rd (disk m) b.
Proof.
  intros HL Ha. unfold vword, lookup_in_mem. now rewrite (scan_absent _ _ _ Ha HL).
Qed.

(** In a page table without repetitions the frame that holds a page is the
    first one that does. *)
Lemma resident_first (pv : list Z) (n p f : Z) :
  len pv = n ->
  (forall f g, 0 <= f < n -> 0 <= g < n -> rd pv f = rd pv g -> f = g) ->
  0 <= f < n -> rd pv f = p -> first_at pv n p f.
Proof.
  intros HL Hinj Hf Hp. unfold first_at.
  split; [exact Hf|]. split; [lia|]. split; [exact Hp|].
  intros j Hj E. assert (j = f) by (apply Hinj; [lia | lia | congruence]). lia.
Qed.

Lemma resident_or_absent (pv : list Z) (n p : Z) :
  n <= len pv -> (exists f, first_at pv n p f) \/ absent pv n p.
Proof.
  intros HL. destruct (scan_total pv p n HL) as [r Hr].
  apply scan_Done in Hr as [[_ Ha]|Hf]; [right; exact Ha | left; eauto].
Qed.

Lemma div_mod_page (s b : Z) : 0 < s -> b / s * s + b mod s = b.
Proof. intros Hs. pose proof (Z.div_mod b s ltac:(lia)). lia. Qed.

Lemma page_of_in_range (m : VM) (a : Z) :
  0 < pagesize m <= INT_MAX -> vpage m <= INT_MAX ->
  0 <= a < vpage m * pagesize m ->
  u32 (pagesize m) = pagesize m /\
  page_of m a = a / pagesize m /\ offset_of m a = a mod pagesize m /\
  0 <= a / pagesize m < vpage m /\ 0 <= a mod pagesize m < pagesize m.
Proof.
  unfold INT_MAX. intros Hs HV Ha.
  assert (Hu : u32 (pagesize m) = pagesize m) by (apply u32_id; lia).
  assert (Hd : 0 <= a / pagesize m < vpage m).
  { split; [apply Z.div_pos; lia | apply Z.div_lt_upper_bound; nia]. }
  pose proof (Z.mod_pos_bound a (pagesize m) ltac:(lia)) as Hm.
  unfold page_of, offset_of. rewrite Hu.
  rewrite !s32_id by (unfold INT_MAX; lia). auto.
Qed.

(** The translation returns the location of the word in the frame that
    holds the page afterwards, and a write leaves that frame dirty. *)
Lemma real_address_frame (m : VM) (a dty : Z) (m' : VM) (w : Z) :
  coherent m -> len (dirty m) = ppage m -> real_address m a dty = Done (m', w) ->
  exists fr, 0 <= fr < ppage m /\ rd (pvirt m') fr = page_of m a /\
             w / 4 = fr * pagesize m + offset_of m a /\
             (dty <> 0 -> rd (dirty m') fr = 1).
Proof.
  intros (Lp & _ & _ & _ & _ & Hc) Ld H. unfold page_of, offset_of.
  assert (Hw : forall fr add, addr m fr add / 4 = fr * pagesize m + add).
  { intros fr add. unfold addr.
    replace (fr * pagesize m * 4 + add * 4) with ((fr * pagesize m + add) * 4) by lia.
    apply div4. }
  assert (Hd : forall d fr, 0 <= fr < len d -> dty <> 0 ->
            rd (if dty =? 0 then d else upd d fr 1) fr = 1).
  { intros d fr Hfr Hne. destruct (Z.eqb_spec dty 0); [contradiction|].
    apply rd_upd_eq. lia. }
  apply real_address_Done in H as (_ & _ & [H|[H|H]]).
  - destruct H as (i & Hf & _ & _ & _ & _ & _ & -> & ->).
    destruct Hf as (Hi & _ & Hx & _). destruct (Hc i Hi) as [Hr Hv].
    exists (rd (ptlb m) i). vmsimpl.
    split; [exact Hr|]. split; [congruence|]. split; [apply Hw|].
    apply Hd. lia.
  - destruct H as (t & fr & i & r & t' & _ & _ & Hf & _ & _ & -> & _ & _ & _ & ->).
    destruct Hf as (Hfr & _ & Hx & _).
    exists fr. vmsimpl.
    split; [exact Hfr|]. split; [exact Hx|]. split; [apply Hw|].
    apply Hd. lia.
  - destruct H as (t & fr & r & c & dk & i & r' & t' & _ & _ & _ & _ & _ & Hbd & Hbv & _ &
                   _ & _ & _ & _ & _ & _ & _ & -> & _ & _ & _ & ->).
    exists fr. vmsimpl.
    split; [lia|]. split; [apply rd_upd_eq; lia|]. split; [apply Hw|].
    apply Hd. rewrite len_upd. lia.
Qed.

(** A translation moves pages between memory and disk and changes no word
    of the virtual memory. *)
Lemma vword_real_address (m : VM) (a dty : Z) (m' : VM) (w b : Z) :
  coherent m -> mem_ok m -> real_address m a dty = Done (m', w) ->
  0 <= b < vpage m * pagesize m -> vword m' b = vword m b.
Proof.
  intros Hco Hmo H Hb.
  pose proof Hco as (Lp & _ & _ & Ip & _ & _).
  pose proof Hmo as (Hs & HV & Ld & Lm & Lk & Hr & Hcl).
  pose proof (coherent_real_address _ _ _ _ _ Hco H) as (Lp' & _ & _ & Ip' & _ & _).
  pose proof (real_address_config _ _ _ _ _ H) as (ES & EV & EP & _).
  apply real_address_Done in H as (_ & _ & [H|[H|H]]).
  - destruct H as (i & _ & _ & _ & _ & _ & _ & _ & ->). reflexivity.
  - destruct H as (t & fr & i & r & t' & _ & _ & _ & _ & _ & _ & _ & _ & _ & ->).
    reflexivity.
  - destruct H as (t & fr & r & c & dk & i & r' & t' & _ & _ & Ha & _ & _ & Hbd & Hbv & _ &
                   Hwb & _ & B1 & B2 & B3 & B4 & _ & _ & _ & _ & _ & ->).
    set (pte := s32 (a / u32 (pagesize m))) in *.
    set (m' := marked _ _ _) in *.
    assert (Hfr : 0 <= fr < ppage m) by lia.
    assert (Hpte : 0 <= pte < vpage m) by (apply (slot_bounds (pagesize m)); lia).
    set (p := b / pagesize m). set (o := b mod pagesize m).
    assert (Hp : 0 <= p < vpage m).
    { split; [apply Z.div_pos; lia | apply Z.div_lt_upper_bound; nia]. }
    assert (Ho : 0 <= o < pagesize m) by (apply Z.mod_pos_bound; lia).
    assert (Eb : b = p * pagesize m + o) by (symmetry; apply div_mod_page; lia).
    assert (Hdk : forall q, 0 <= q ->
              rd dk (q * pagesize m + o) =
              if negb (rd (dirty m) fr =? 0) && (q =? rd (pvirt m) fr)
              then rd (mem m) (fr * pagesize m + o)
              else rd (disk m) (q * pagesize m + o)).
    { intros q Hq. apply (written_back_disk m fr c dk q o Hwb); lia. }
    assert (Ldk : len dk = len (disk m)).
    { apply (written_back_disk m fr c dk 0 0 Hwb); lia. }
    assert (Epv : pvirt m' = upd (pvirt m) fr pte) by reflexivity.
    assert (Emem : mem m' = blit (mem m) (fr * pagesize m) dk (pte * pagesize m)
                               (pagesize m)) by reflexivity.
    assert (Edk : disk m' = dk) by reflexivity.
    assert (Hq : rd (pvirt m) fr <> pte) by (apply Ha; lia).
    destruct (Z.eq_dec p pte) as [Epte|Npte].
    + (* the page that comes in *)
      rewrite (vword_absent m b) by (fold p; rewrite ?Epte; lia || exact Ha).
      rewrite (vword_resident m' b fr).
      2: lia.
      2: { rewrite ES, EP. fold p.
           apply resident_first; [lia | now rewrite <- EP | lia |].
           rewrite Epv, Epte. apply rd_upd_eq. lia. }
      rewrite ES, Emem. fold o. rewrite rd_blit by lia.
      destruct (Z.leb_spec (fr * pagesize m) (fr * pagesize m + o)); [|lia].
      destruct (Z.ltb_spec (fr * pagesize m + o) (fr * pagesize m + pagesize m)); [|lia].
      cbn [andb].
      replace (pte * pagesize m + (fr * pagesize m + o - fr * pagesize m))
        with (pte * pagesize m + o) by lia.
      rewrite Hdk by lia.
      replace (pte =? rd (pvirt m) fr) with false by (symmetry; apply Z.eqb_neq; lia).
      rewrite andb_false_r. rewrite Eb, Epte. reflexivity.
    + destruct (resident_or_absent (pvirt m) (ppage m) p) as [[g Hg]|Hab]; [lia| |].
      * (* a resident page *)
        rewrite (vword_resident m b g) by (fold p; lia || exact Hg). fold o.
        pose proof Hg as (Hgr & _ & Hgx & _).
        destruct (Z.eq_dec g fr) as [->|Ngf].
        -- (* the victim's page *)
           rewrite (vword_absent m' b).
           2: lia.
           2: { rewrite ES, EP, Epv. fold p. intros j Hj. rewrite len_upd.
                split; [lia|]. rewrite rd_upd by lia.
                destruct (Z.eqb_spec j fr); [lia|]. intros E.
                assert (j = fr) by (apply Ip; [lia | lia | congruence]). lia. }
           rewrite Edk. rewrite Eb at 1. rewrite Hdk by lia.
           rewrite Hgx, Z.eqb_refl, andb_true_r.
           destruct (Z.eqb_spec (rd (dirty m) fr) 0) as [Hz|Hz]; cbn [negb].
           ++ rewrite Hcl by assumption. now rewrite Hgx.
           ++ reflexivity.
        -- rewrite (vword_resident m' b g).
           2: lia.
           2: { rewrite ES, EP. fold p.
                apply resident_first; [lia | now rewrite <- EP | lia |].
                rewrite Epv. rewrite rd_upd_ne by lia. exact Hgx. }
           rewrite ES, Emem. fold o. rewrite rd_blit by lia.
           pose proof (page_disjoint (pagesize m) g fr o ltac:(lia) Ho Ngf).
           replace ((fr * pagesize m <=? g * pagesize m + o) &&
                    (g * pagesize m + o <? fr * pagesize m + pagesize m)) with false
             by (symmetry; apply andb_false_iff; rewrite Z.leb_gt, Z.ltb_ge; lia).
           reflexivity.
      * (* a page on disk *)
        rewrite (vword_absent m b) by (fold p; lia || exact Hab).
        rewrite (vword_absent m' b).
        2: lia.
        2: { rewrite ES, EP, Epv. fold p. intros j Hj. rewrite len_upd.
             split; [lia|]. rewrite rd_upd by lia.
             destruct (Z.eqb_spec j fr); [lia|]. apply Hab. exact Hj. }
        rewrite Edk. rewrite Eb at 1. rewrite Hdk by lia.
        replace (p =? rd (pvirt m) fr) with false.
        { rewrite andb_false_r. now rewrite <- Eb. }
        symmetry. apply Z.eqb_neq. intros E. apply (Hab fr); [lia | congruence].
Qed.

(** ** The invariant of the simulation *)

Lemma sound_real_address (m : VM) (a dty : Z) (m' : VM) (w : Z) :
  sound m -> real_address m a dty = Done (m', w) -> sound m'.
Proof.
  intros (H1 & H2 & H3 & H4) H. unfold sound.
  split; [eapply coherent_real_address; eassumption|].
  split; [eapply counters_real_address; eassumption|].
  split; [eapply timed_real_address; eassumption|].
  eapply mem_ok_real_address; eassumption.
Qed.

(** Storing a word in a dirty frame. *)
Lemma sound_store (m : VM) (fr o v : Z) :
  sound m -> 0 <= fr < ppage m -> 0 <= o < pagesize m -> rd (dirty m) fr <> 0 ->
  sound (with_mem m (upd (mem m) (fr * pagesize m + o) v)).
Proof.
  intros (H1 & H2 & H3 & H4) Hfr Ho Hd. unfold sound.
  split; [exact H1|]. split; [exact H2|]. split; [exact H3|].
  destruct H4 as (Hs & HV & Ld & Lm & Lk & Hr & Hcl).
  unfold mem_ok. vmsimpl. rewrite len_upd.
  split; [exact Hs|]. split; [exact HV|]. split; [exact Ld|].
  split; [exact Lm|]. split; [exact Lk|]. split; [exact Hr|].
  intros f o' Hf Ho' Hz.
  pose proof (page_bound (pagesize m) fr (ppage m) o ltac:(lia) Hfr Ho).
  pose proof (page_bound (pagesize m) f (ppage m) o' ltac:(lia) Hf Ho').
  rewrite rd_upd by lia.
  destruct (Z.eqb_spec (f * pagesize m + o') (fr * pagesize m + o)) as [E|_].
  - apply page_index in E as [-> _]; [contradiction | lia | lia | lia].
  - now apply Hcl.
Qed.

Lemma vword_store (m : VM) (fr a v b : Z) :
  sound m -> 0 <= a < vpage m * pagesize m -> 0 <= b < vpage m * pagesize m ->
  0 <= fr < ppage m -> rd (pvirt m) fr = a / pagesize m ->
  vword (with_mem m (upd (mem m) (fr * pagesize m + a mod pagesize m) v)) b =
  if b =? a then v else vword m b.
Proof.
  intros (Hco & _ & _ & Hmo) Ha Hb Hfr Hx.
  destruct Hco as (Lp & _ & _ & Ip & _ & _).
  destruct Hmo as (Hs & HV & Ld & Lm & Lk & Hr & Hcl).
  set (m' := with_mem m _).
  assert (Hfa : first_at (pvirt m) (ppage m) (a / pagesize m) fr)
    by (apply resident_first; assumption).
  pose proof (Z.mod_pos_bound a (pagesize m) ltac:(lia)) as Hoa.
  pose proof (Z.mod_pos_bound b (pagesize m) ltac:(lia)) as Hob.
  pose proof (page_bound (pagesize m) fr (ppage m) _ ltac:(lia) Hfr Hoa).
  destruct (resident_or_absent (pvirt m) (ppage m) (b / pagesize m)) as [[g Hg]|Hab]; [lia| |].
  - rewrite (vword_resident m b g) by (lia || exact Hg).
    rewrite (vword_resident m' b g) by (first [exact Hg | unfold m'; vmsimpl; lia]).
    unfold m'. vmsimpl. pose proof Hg as (Hgr & _ & Hgx & _).
    pose proof (page_bound (pagesize m) g (ppage m) _ ltac:(lia) Hgr Hob).
    rewrite rd_upd by lia.
    destruct (Z.eqb_spec (g * pagesize m + b mod pagesize m)
                         (fr * pagesize m + a mod pagesize m)) as [E|E].
    + apply page_index in E as [-> E]; try lia.
      assert (b = a).
      { rewrite <- (div_mod_page (pagesize m) b), <- (div_mod_page (pagesize m) a) by lia.
        congruence. }
      subst b. now rewrite Z.eqb_refl.
    + destruct (Z.eqb_spec b a) as [->|_]; [|reflexivity].
      exfalso. apply E. f_equal. f_equal.
      eapply first_at_unique; eassumption.
  - rewrite (vword_absent m b) by (lia || exact Hab).
    rewrite (vword_absent m' b) by (first [exact Hab | unfold m'; vmsimpl; lia]).
    unfold m'. vmsimpl.
    destruct (Z.eqb_spec b a) as [->|_]; [|reflexivity].
    exfalso. eapply first_absent; eassumption.
Qed.

Lemma readInt_value (m : VM) (a : Z) (m' : VM) (v : Z) :
  sound m -> in_range m a -> readInt m a = Done (m', v) ->
  sound m' /\ v = vword m a /\
  forall b, in_range m b -> vword m' b = vword m b.
Proof.
  intros Hs Ha H. apply readInt_Done in H as (w & H & Hb & ->).
  pose proof Hs as (Hco & _ & _ & Hmo).
  pose proof (sound_real_address _ _ _ _ _ Hs H) as Hs'.
  pose proof (real_address_config _ _ _ _ _ H) as (ES & EV & EP & _).
  assert (Hv : forall b, in_range m b -> vword m' b = vword m b).
  { intros b Hb'. eapply vword_real_address; eassumption. }
  split; [exact Hs'|]. split; [|exact Hv].
  rewrite <- (Hv a Ha).
  destruct Hmo as (HS & HV & Ld & _).
  destruct (real_address_frame _ _ _ _ _ Hco Ld H) as (fr & Hfr & Hx & -> & _).
  destruct (page_of_in_range m a HS HV Ha) as (_ & Ep & Eo & _).
  rewrite Ep in Hx. rewrite Eo.
  destruct Hs' as ((Lp' & _ & _ & Ip' & _) & _).
  rewrite (vword_resident m' a fr); rewrite ?ES, ?EP; [reflexivity | lia |].
  apply resident_first; [lia | now rewrite <- EP | lia | exact Hx].
Qed.

Lemma write_address_value (m : VM) (a v : Z) (m' : VM) :
  sound m -> in_range m a -> write_address m a v = Done m' ->
  sound m' /\
  (forall b, in_range m b -> vword m' b = if b =? a then v else vword m b) /\
  exists fr, 0 <= fr < ppage m' /\ rd (pvirt m') fr = a / pagesize m /\
             rd (dirty m') fr <> 0.
Proof.
  intros Hs Ha H. apply write_address_Done in H as (m1 & w & H & Hb & ->).
  pose proof Hs as (Hco & _ & _ & Hmo).
  pose proof (sound_real_address _ _ _ _ _ Hs H) as Hs1.
  pose proof (real_address_config _ _ _ _ _ H) as (ES & EV & EP & _).
  destruct Hmo as (HS & HV & Ld & _).
  destruct (real_address_frame _ _ _ _ _ Hco Ld H) as (fr & Hfr & Hx & Hw & Hd).
  destruct (page_of_in_range m a HS HV Ha) as (_ & Ep & Eo & _ & Hoa).
  rewrite Ep in Hx. rewrite Eo in Hw. rewrite Hw.
  specialize (Hd ltac:(lia)). rewrite <- ES. rewrite <- ES in Hx. rewrite <- EP in Hfr.
  unfold in_range in *. rewrite <- EV, <- ES in Ha. rewrite <- ES in Hoa.
  split; [|split].
  - apply sound_store; try assumption; lia.
  - intros b Hb'.
    rewrite <- (vword_real_address _ _ _ _ _ b Hco (proj2 (proj2 (proj2 Hs))) H Hb').
    rewrite <- EV, <- ES in Hb'. now apply vword_store.
  - exists fr. vmsimpl. split; [exact Hfr|]. split; [exact Hx|]. lia.
Qed.

Lemma createVM_total (sizeVM sizePM pageSize sizeTLB pageReplAlg tlbReplAlg : Z) :
  sized sizeVM sizePM pageSize sizeTLB ->
  exists m0, createVM sizeVM sizePM pageSize sizeTLB pageReplAlg tlbReplAlg
             = Done (Handle m0).
Proof.
  unfold sized, INT_MAX. intros (HS & HT & HP & HV).
  assert (sizePM <= 2147483647) by nia.
  unfold createVM.
  destruct (fill_total (calloc sizePM) sizePM) as [pv ->];
    [unfold INT_MAX; lia | rewrite len_calloc; lia |].
  destruct (fill_total (calloc sizeTLB) sizeTLB) as [pt ->];
    [unfold INT_MAX; lia | rewrite len_calloc; lia |].
  cbn [obind]. eauto.
Qed.

Lemma createVM_sound (sizeVM sizePM pageSize sizeTLB pageReplAlg tlbReplAlg : Z) (m0 : VM) :
  sized sizeVM sizePM pageSize sizeTLB ->
  createVM sizeVM sizePM pageSize sizeTLB pageReplAlg tlbReplAlg = Done (Handle m0) ->
  sound m0 /\ roomy m0 /\ timestamp m0 = 0 /\
  pagesize m0 = pageSize /\ vpage m0 = sizeVM /\ ppage m0 = sizePM /\ tlb m0 = sizeTLB.
Proof.
  intros Hz H. pose proof Hz as (HS & HT & HP & HV). unfold INT_MAX in HV.
  assert (B1 : sizeVM <= 2147483647) by nia.
  assert (B2 : pageSize <= 2147483647) by nia.
  assert (B3 : 0 <= sizePM * pageSize < 4294967296) by nia.
  assert (B4 : 0 <= sizeVM * pageSize < 4294967296) by nia.
  assert (Hco : coherent m0) by (eapply createVM_coherent; [|eassumption]; lia).
  apply createVM_Done in H as (pv & pt & vt & Hpv & Hpt & Hvt & Hh).
  injection Hh as ->.
  apply fill_Done in Hpv as (L1 & _ & M1 & I1); [|lia].
  rewrite len_calloc in L1 by lia.
  unfold sound, counters_ordered, timed, mem_ok, roomy. simpl.
  rewrite !s32_id in Hco |- * by (unfold INT_MAX; lia).
  rewrite !u32_id in Hco |- * by lia.
  rewrite !len_calloc by lia. unfold INT_MAX.
  repeat match goal with |- _ /\ _ => split end; try lia; try assumption.
  - intros f Hf. rewrite rd_calloc; lia.
  - intros i Hi. rewrite rd_calloc; lia.
  - intros f Hf. rewrite I1; lia.
  - intros f o Hf Ho _. rewrite I1 by lia. rewrite !rd_calloc by nia. reflexivity.
Qed.

Lemma roomy_exec (m : VM) (op : access) (m' : VM) :
  roomy m -> exec m op = Done m' -> roomy m'.
Proof.
  unfold roomy. intros Hr H. apply exec_config in H as (E1 & E2 & E3 & _ & E5 & _).
  now rewrite E1, E2, E3, E5.
Qed.

Lemma sound_exec (m : VM) (op : access) (m' : VM) :
  sound m -> in_range m (addr_of op) -> exec m op = Done m' -> sound m'.
Proof.
  intros Hs Ha H. destruct op as [a|a|a v|a v]; simpl in *.
  - apply obind_Done in H as ([m1 x] & H1 & H). injection H as <-.
    now apply readInt_value in H1.
  - apply obind_Done in H as ([m1 x] & H1 & H). injection H as <-.
    now apply readInt_value in H1.
  - now apply write_address_value in H.
  - now apply write_address_value in H.
Qed.

Lemma vword_exec (m : VM) (op : access) (m' : VM) (b : Z) :
  sound m -> in_range m (addr_of op) -> exec m op = Done m' ->
  in_range m b -> ~ writes op b -> vword m' b = vword m b.
Proof.
  intros Hs Ha H Hb Hw. destruct op as [a|a|a v|a v]; simpl in *.
  - apply obind_Done in H as ([m1 x] & H1 & H). injection H as <-.
    apply readInt_value in H1 as (_ & _ & Hv); auto.
  - apply obind_Done in H as ([m1 x] & H1 & H). injection H as <-.
    apply readInt_value in H1 as (_ & _ & Hv); auto.
  - apply write_address_value in H as (_ & Hv & _); auto.
    rewrite Hv by assumption. destruct (Z.eqb_spec b a); [congruence | reflexivity].
  - apply write_address_value in H as (_ & Hv & _); auto.
    rewrite Hv by assumption. destruct (Z.eqb_spec b a); [congruence | reflexivity].
Qed.

Lemma in_range_exec (m : VM) (op : access) (m' : VM) (b : Z) :
  exec m op = Done m' -> in_range m b -> in_range m' b.
Proof.
  unfold in_range. intros H Hb. apply exec_config in H as (E1 & E2 & _).
  now rewrite E1, E2.
Qed.

(** What the virtual memory holds at [b] survives every sequence of
    accesses that does not write to [b]. *)
Lemma vword_run (ops : list access) (m m' : VM) (b : Z) :
  sound m -> in_range m b ->
  Forall (fun op => in_range m (addr_of op) /\ ~ writes op b) ops ->
  run m ops = Done m' ->
  sound m' /\ in_range m' b /\ vword m' b = vword m b.
Proof.
  revert m. induction ops as [|op ops IH]; intros m Hs Hb Hall H; simpl in H.
  - injection H as <-. auto.
  - apply obind_Done in H as (m1 & H1 & H).
    apply Forall_cons in Hall as [[Ha Hw] Hall].
    pose proof (exec_config _ _ _ H1) as (E1 & E2 & _).
    destruct (IH m1) as (S' & R' & V'); try assumption.
    + eapply sound_exec; eassumption.
    + eapply in_range_exec; eassumption.
    + eapply Forall_impl; [exact Hall|]. intros op' [Ha' Hw'].
      split; [|exact Hw']. eapply in_range_exec; eassumption.
    + split; [exact S'|]. split; [exact R'|]. rewrite V'.
      eapply vword_exec; eassumption.
Qed.

(** ** Dirty pages and disk writes *)

Lemma is_resident_true (m : VM) (p f : Z) :
  coherent m -> 0 <= f < ppage m -> rd (pvirt m) f = p -> is_resident m p = true.
Proof.
  intros (Lp & _ & _ & Ip & _) Hf Hx. unfold is_resident, lookup_in_mem.
  rewrite (scan_first _ _ _ f); [|lia|now apply resident_first].
  destruct (Z.eqb_spec f (-1)); [lia | reflexivity].
Qed.

Lemma is_resident_false (m : VM) (p : Z) :
  ppage m <= len (pvirt m) -> absent (pvirt m) (ppage m) p -> is_resident m p = false.
Proof.
  intros HL Ha. unfold is_resident, lookup_in_mem. now rewrite scan_absent.
Qed.

Lemma marked_dirty_nonzero (d : list Z) (fr dty f : Z) :
  0 <= fr -> 0 <= f -> (dty <> 0 -> fr < len d) ->
  rd d f <> 0 -> rd (if dty =? 0 then d else upd d fr 1) f <> 0.
Proof.
  intros Hfr Hf Hb Hd. destruct (Z.eqb_spec dty 0); [exact Hd|].
  rewrite rd_upd by lia. destruct (Z.eqb_spec f fr); [lia | exact Hd].
Qed.

Lemma dirty_resident_real_address (m : VM) (p a dty : Z) (m' : VM) (w : Z) :
  coherent m -> dirty_resident m p -> real_address m a dty = Done (m', w) ->
  dirty_resident m' p \/ (absent (pvirt m') (ppage m') p /\ dc m' = dc m + 1).
Proof.
  intros (Lp & _ & _ & Ip & _) (f & Hf & Hx & Hd) H.
  apply real_address_Done in H as (_ & _ & [H|[H|H]]).
  - left. destruct H as (i & _ & _ & _ & _ & [Hbf Hbd] & _ & _ & ->).
    exists f. vmsimpl. split; [exact Hf|]. split; [exact Hx|].
    apply marked_dirty_nonzero; first [lia | exact Hd].
  - left. destruct H as (t & fr & i & r & t' & _ & _ & _ & [Hbf Hbd] & _ & _ & _ & _ & _ & ->).
    exists f. vmsimpl. split; [exact Hf|]. split; [exact Hx|].
    apply marked_dirty_nonzero; first [lia | exact Hd].
  - destruct H as (t & fr & r & c & dk & i & r' & t' & _ & _ & Ha & _ & _ & Hbd & Hbv & _ &
                   Hwb & _ & _ & _ & _ & _ & _ & _ & _ & _ & _ & ->).
    set (pte := s32 (a / u32 (pagesize m))) in *.
    destruct (Z.eq_dec f fr) as [->|Hne].
    + right. vmsimpl. split.
      * intros j Hj. rewrite len_upd. split; [lia|]. rewrite rd_upd by lia.
        destruct (Z.eqb_spec j fr) as [->|Hj'].
        -- intros E. apply (Ha fr); [lia | congruence].
        -- intros E. apply Hj'. apply Ip; [lia | lia | congruence].
      * destruct Hwb as [(Hz & _)|(_ & _ & -> & _)]; [contradiction | reflexivity].
    + left. exists f. vmsimpl. split; [exact Hf|].
      split; [now rewrite rd_upd_ne by lia|].
      apply marked_dirty_nonzero; rewrite ?len_upd; try lia.
      rewrite rd_upd_ne by lia. exact Hd.
Qed.

Lemma dirty_eviction_step (m : VM) (p : Z) (op : access) (m' : VM) :
  sound m -> in_range m (addr_of op) -> dirty_resident m p -> exec m op = Done m' ->
  (is_resident m' p = true /\ dirty_resident m' p) \/
  (is_resident m' p = false /\ dc m' = dc m + 1).
Proof.
  intros Hs Ha Hd H.
  pose proof (sound_exec _ _ _ Hs Ha H) as (Hco' & _).
  apply exec_Done in H as (m1 & w & H & Hst).
  apply stored_tables in Hst as (x & -> & _).
  destruct (dirty_resident_real_address m p _ _ _ _ (proj1 Hs) Hd H)
    as [Hd'|[Hab Hdc]].
  - left. split; [|exact Hd']. destruct Hd' as (f & Hf & Hx & _).
    now apply (is_resident_true _ p f).
  - right. split; [|exact Hdc]. apply is_resident_false; [|exact Hab].
    destruct Hco' as (Lp & _). vmsimpl. lia.
Qed.

(** While a dirty page stays resident it stays dirty. *)
Lemma keeps_dirty (p : Z) (m : VM) (ops : list access) (m' : VM) :
  keeps p m ops m' -> sound m -> dirty_resident m p ->
  Forall (fun op => in_range m (addr_of op)) ops ->
  sound m' /\ dirty_resident m' p /\ run m ops = Done m' /\
  forall b, in_range m b -> in_range m' b.
Proof.
  induction 1 as [m Hr|m op m1 ops m' Hr He Hk IH]; intros Hs Hd Hall.
  - auto.
  - apply Forall_cons in Hall as [Ha Hall].
    assert (Hr1 : is_resident m1 p = true) by (destruct Hk; assumption).
    destruct (dirty_eviction_step m p op m1 Hs Ha Hd He) as [[_ Hd1]|[Hf _]];
      [|congruence].
    destruct IH as (S' & D' & R' & I').
    + eapply sound_exec; eassumption.
    + exact Hd1.
    + eapply Forall_impl; [exact Hall|]. intros op' Ha'.
      eapply in_range_exec; eassumption.
    + split; [exact S'|]. split; [exact D'|]. split.
      * simpl. rewrite He. exact R'.
      * intros b Hb. apply I'. eapply in_range_exec; eassumption.
Qed.

(** ** Every access of a well-sized simulation is defined *)

Lemma lookup_in_tlb_and_mark_miss (m : VM) (pte : Z) :
  absent (vtlb m) (tlb m) pte -> tlb m <= len (vtlb m) ->
  lookup_in_tlb_and_mark m pte = Done (m, -1).
Proof.
  intros Ha HL. unfold lookup_in_tlb_and_mark. now rewrite scan_absent.
Qed.

Lemma lookup_in_tlb_and_mark_hit (m : VM) (pte i : Z) :
  first_at (vtlb m) (tlb m) pte i -> tlb m <= len (vtlb m) ->
  i < len (tlbtime m) -> i < len (ptlb m) ->
  lookup_in_tlb_and_mark m pte =
  Done (with_tlbtime m (upd (tlbtime m) i (timestamp m)), rd (ptlb m) i).
Proof.
  intros Hf HL Ht Hp. unfold lookup_in_tlb_and_mark.
  rewrite (scan_first _ _ _ i HL Hf). cbn [obind]. destruct Hf as (Hi & _).
  destruct (Z.eqb_spec i (-1)); [lia|].
  rewrite set_ok by lia. cbn [obind]. now rewrite get_ok by lia.
Qed.

Lemma make_address_ok (m : VM) (fr add : Z) :
  0 <= fr * pagesize m * 4 <= INT_MAX -> 0 <= add * 4 <= INT_MAX ->
  make_address m fr add = Done (addr m fr add).
Proof.
  unfold INT_MAX. intros H1 H2. unfold make_address, addr, imul.
  rewrite ck_ok by (unfold INT_MIN, INT_MAX; lia). cbn [obind].
  rewrite ck_ok by (unfold INT_MIN, INT_MAX; lia). cbn [obind].
  now rewrite ck_ok by (unfold INT_MIN, INT_MAX; lia).
Qed.

Lemma page_bytes_ok (m : VM) (i : Z) :
  0 <= i * pagesize m * 4 <= INT_MAX -> page_bytes m i = Done (i * pagesize m * 4).
Proof.
  unfold INT_MAX. intros H. unfold page_bytes, imul.
  rewrite ck_ok by (unfold INT_MIN, INT_MAX; lia). cbn [obind].
  now rewrite ck_ok by (unfold INT_MIN, INT_MAX; lia).
Qed.

Lemma choose_page_total (m : VM) :
  0 < ppage m <= 1073741824 -> 0 <= rrp m < ppage m -> len (ptime m) = ppage m ->
  (forall f, 0 <= f < ppage m -> rd (ptime m) f < 2147483647) ->
  exists m' v, choose_page m = Done (m', v) /\ 0 <= v < ppage m.
Proof.
  intros Hn Hc HL Ht. destruct (Z.eq_dec (palg m) 0) as [Ha|Ha].
  - rewrite choose_page_round_robin by assumption. eauto.
  - destruct (minindex_ok (ptime m) (ppage m)) as (v & Hv & Hm & _); [lia | exact Ht |].
    unfold choose_page. destruct (Z.eqb_spec (palg m) 0); [contradiction|].
    rewrite Hv. cbn [obind]. eauto.
Qed.

Lemma choose_tlb_total (m : VM) :
  0 < tlb m <= 1073741824 -> 0 <= rrt m < tlb m -> len (tlbtime m) = tlb m ->
  (forall i, 0 <= i < tlb m -> rd (tlbtime m) i < 2147483647) ->
  exists m' v, choose_tlb m = Done (m', v) /\ 0 <= v < tlb m.
Proof.
  intros Hn Hc HL Ht. destruct (Z.eq_dec (tlbalg m) 0) as [Ha|Ha].
  - rewrite choose_tlb_round_robin by assumption. eauto.
  - destruct (minindex_ok (tlbtime m) (tlb m)) as (v & Hv & Hm & _); [lia | exact Ht |].
    unfold choose_tlb. destruct (Z.eqb_spec (tlbalg m) 0); [contradiction|].
    rewrite Hv. cbn [obind]. eauto.
Qed.

Lemma addtlb_total (m : VM) (fr pte : Z) :
  0 < tlb m <= 1073741824 -> 0 <= rrt m < tlb m ->
  len (tlbtime m) = tlb m -> len (ptlb m) = tlb m -> len (vtlb m) = tlb m ->
  (forall i, 0 <= i < tlb m -> rd (tlbtime m) i < 2147483647) ->
  exists m', addtlb m fr pte = Done m'.
Proof.
  intros Hn Hc Lt Lp Lv Ht.
  destruct (choose_tlb_total m Hn Hc Lt Ht) as (m1 & v & Hv & Hb).
  unfold addtlb. rewrite Hv. cbn [obind].
  apply choose_tlb_Done in Hv as (r & _ & ->). vmsimpl.
  rewrite set_ok by lia. cbn [obind]. rewrite set_ok by lia. cbn [obind].
  rewrite set_ok by lia. cbn [obind]. eauto.
Qed.

Lemma flushtlb_total (m : VM) (fr pte : Z) :
  0 < tlb m <= 1073741824 -> 0 <= rrt m < tlb m ->
  len (tlbtime m) = tlb m -> len (ptlb m) = tlb m -> len (vtlb m) = tlb m ->
  (forall i, 0 <= i < tlb m -> rd (tlbtime m) i < 2147483647) ->
  exists m', flushtlb m fr pte = Done m'.
Proof.
  intros Hn Hc Lt Lp Lv Ht. unfold flushtlb.
  destruct (scan_total (ptlb m) fr (tlb m)) as [i Hi]; [lia|]. rewrite Hi. cbn [obind].
  apply scan_Done in Hi as [[-> _]|(Hi & _)].
  - cbn [Z.eqb]. now apply addtlb_total.
  - destruct (Z.eqb_spec i (-1)); [lia|].
    rewrite set_ok by lia. cbn [obind]. eauto.
Qed.

Lemma real_address_total (m : VM) (a dty : Z) :
  sound m -> roomy m -> in_range m a -> timestamp m < INT_MAX ->
  exists m' w, real_address m a dty = Done (m', w).
Proof.
  intros (Hco & Hcn & Htm & Hmo) (HT & HPV & HVS) Ha Hts.
  pose proof Hco as (Lp & Lpt & Lvt & Ip & It & Hc).
  pose proof Hcn as (Hdc & Hpc & Htc).
  pose proof Htm as (Lti & Ltt & Hts0 & Hpt & Htt & Hrp & Hrt).
  pose proof Hmo as (Hs & HV & Ld & Lm & Lk & Hr & Hcl).
  destruct (page_of_in_range m a Hs HV Ha) as (Eu & Ep & Eo & Hpg & Hof).
  unfold page_of in Ep. unfold offset_of in Eo. rewrite Eu in Ep, Eo.
  unfold INT_MAX in *.
  assert (HP : 0 < ppage m) by lia.
  assert (Hsm : vpage m <= 536870911) by nia.
  assert (Hps4 : pagesize m * 4 <= 2147483647) by nia.
  assert (Hfa : forall f, 0 <= f < ppage m ->
            0 <= f * pagesize m * 4 <= 2147483647 /\
            0 <= f * pagesize m /\ f * pagesize m + pagesize m <= len (mem m)).
  { intros f Hf. rewrite Lm. nia. }
  assert (Hpa : forall p, 0 <= p < vpage m ->
            0 <= p * pagesize m * 4 <= 2147483647 /\
            0 <= p * pagesize m /\ p * pagesize m + pagesize m <= len (disk m)).
  { intros p Hp'. rewrite Lk. nia. }
  assert (Hltt : forall i, 0 <= i < tlb m -> rd (tlbtime m) i < 2147483647).
  { intros i Hi. specialize (Htt i Hi). lia. }
  assert (Hlpt : forall f, 0 <= f < ppage m -> rd (ptime m) f < 2147483647).
  { intros f Hf. specialize (Hpt f Hf). lia. }
  unfold real_address, iadd, udiv, urem.
  rewrite ck_ok by (unfold INT_MIN, INT_MAX; lia). cbn [obind]. vmsimpl.
  rewrite Eu. destruct (Z.eqb_spec (pagesize m) 0); [lia|]. cbn [obind].
  rewrite Ep, Eo.
  set (pte := a / pagesize m) in *. set (add := a mod pagesize m) in *.
  destruct (resident_or_absent (vtlb m) (tlb m) pte) as [[i Hi]|Hab]; [lia| |].
  - (* TLB hit *)
    pose proof Hi as (Hib & _). destruct (Hc i Hib) as [Hfr _].
    rewrite (lookup_in_tlb_and_mark_hit _ pte i) by (vmsimpl; first [exact Hi | lia]).
    cbn [obind]. vmsimpl.
    destruct (Z.eqb_spec (rd (ptlb m) i) (-1)); [lia|]. cbn [negb].
    rewrite mark_ok by (vmsimpl; lia). cbn [obind].
    destruct (Hfa _ Hfr) as (A1 & _).
    rewrite make_address_ok by (vmsimpl; unfold INT_MAX; lia). cbn [obind]. eauto.
  - rewrite lookup_in_tlb_and_mark_miss by (vmsimpl; first [exact Hab | lia]).
    cbn [obind Z.eqb Pos.eqb negb].
    rewrite ck_ok by (unfold INT_MIN, INT_MAX; vmsimpl; lia). cbn [obind]. vmsimpl.
    unfold lookup_in_mem. vmsimpl.
    destruct (resident_or_absent (pvirt m) (ppage m) pte) as [[fr Hf]|Hnp]; [lia| |].
    + (* page-table hit *)
      pose proof Hf as (Hfr & _). destruct (Hfa _ Hfr) as (A1 & _).
      rewrite (scan_first _ _ _ fr) by (lia || exact Hf). cbn [obind].
      destruct (Z.eqb_spec fr (-1)); [lia|]. cbn [negb].
      rewrite mark_ok by (vmsimpl; lia). cbn [obind].
      match goal with |- context [addtlb ?s fr pte] =>
        destruct (addtlb_total s fr pte) as [m3 H3]; try (vmsimpl; lia); try assumption
      end.
      rewrite H3. cbn [obind].
      apply addtlb_Done in H3 as (j & r & t & _ & _ & _ & ->).
      rewrite make_address_ok by (vmsimpl; unfold INT_MAX; lia). cbn [obind]. eauto.
    + (* page fault *)
      rewrite scan_absent by (lia || exact Hnp). cbn [obind Z.eqb Pos.eqb negb].
      rewrite ck_ok by (unfold INT_MIN, INT_MAX; vmsimpl; lia). cbn [obind]. vmsimpl.
      match goal with |- context [choose_page ?s] =>
        destruct (choose_page_total s) as (m2 & fr & H2 & Hfr);
          try (vmsimpl; lia); try assumption
      end.
      vmsimpl. rewrite H2. cbn [obind].
      apply choose_page_Done in H2 as (r & _ & ->). vmsimpl.
      destruct (Hfa _ Hfr) as (A1 & A2 & A3).
      destruct (Hr fr Hfr) as [Q1 Q2].
      destruct (Hpa _ (conj Q1 Q2)) as (D1 & D2 & D3).
      destruct (Hpa _ Hpg) as (E1 & E2 & E3).
      rewrite get_ok by lia. cbn [obind].
      match goal with |- context [obind (if ?c then Done ?s else ?e)] =>
        assert (Hwb : exists c' dk, len dk = len (disk m) /\
                  (if c then Done s else e) = Done (with_disk (with_dc s c') dk))
      end.
      { destruct (Z.eqb_spec (rd (dirty m) fr) 0).
        - exists (dc m), (disk m). split; [reflexivity|]. vmsimpl. reflexivity.
        - unfold iadd, imul. vmsimpl.
          rewrite ck_ok by (unfold INT_MIN, INT_MAX; lia). cbn [obind]. vmsimpl.
          rewrite get_ok by lia. cbn [obind].
          rewrite !page_bytes_ok by (vmsimpl; unfold INT_MAX; lia). cbn [obind].
          vmsimpl.
          rewrite ck_ok by (unfold INT_MIN, INT_MAX; lia). cbn [obind].
          rewrite memcpy_ok by lia. cbn [obind]. vmsimpl.
          eexists _, _. split; [apply len_blit | reflexivity]. }
      destruct Hwb as (c' & dk & Ldk & ->). cbn [obind]. vmsimpl.
      rewrite set_ok by lia. cbn [obind]. vmsimpl.
      rewrite set_ok by lia. cbn [obind]. vmsimpl.
      rewrite set_ok by lia. cbn [obind]. vmsimpl.
      rewrite page_bytes_ok by (vmsimpl; unfold INT_MAX; lia). cbn [obind].
      rewrite get_ok by (rewrite len_upd; lia). cbn [obind].
      rewrite rd_upd_eq by lia.
      rewrite page_bytes_ok by (vmsimpl; unfold INT_MAX; lia). cbn [obind].
      vmsimpl.
      unfold imul. rewrite ck_ok by (unfold INT_MIN, INT_MAX; lia). cbn [obind].
      rewrite memcpy_ok by lia. cbn [obind]. vmsimpl.
      match goal with |- context [flushtlb ?s fr pte] =>
        destruct (flushtlb_total s fr pte) as [m4 H4]; try (vmsimpl; lia); try assumption
      end.
      rewrite H4. cbn [obind].
      apply flushtlb_Done in H4 as (j & r' & t' & _ & _ & _ & ->).
      rewrite mark_ok by (vmsimpl; rewrite len_upd; lia). cbn [obind].
      rewrite make_address_ok by (vmsimpl; unfold INT_MAX; lia). cbn [obind]. eauto.
Qed.

Lemma real_address_timestamp (m : VM) (a dty : Z) (m' : VM) (w : Z) :
  real_address m a dty = Done (m', w) -> timestamp m' = timestamp m + 1.
Proof.
  intros H. apply real_address_Done in H as (_ & _ & [H|[H|H]]).
  - destruct H as (i & _ & _ & _ & _ & _ & _ & _ & ->). reflexivity.
  - destruct H as (t & fr & i & r & t' & _ & _ & _ & _ & _ & _ & _ & _ & _ & ->).
    reflexivity.
  - destruct H as (t & fr & r & c & dk & i & r' & t' & _ & _ & _ & _ & _ & _ & _ & _ &
                   _ & _ & _ & _ & _ & _ & _ & _ & _ & _ & _ & ->).
    reflexivity.
Qed.

Lemma exec_timestamp (m : VM) (op : access) (m' : VM) :
  exec m op = Done m' -> timestamp m' = timestamp m + 1.
Proof.
  intros H. apply exec_Done in H as (m1 & w & H & Hs).
  apply real_address_timestamp in H. apply stored_tables in Hs as (x & -> & _).
  exact H.
Qed.

(** The location that a translation returns is a word of [mem]. *)
Lemma real_address_in_mem (m : VM) (a dty : Z) (m' : VM) (w : Z) :
  sound m -> in_range m a -> real_address m a dty = Done (m', w) ->
  0 <= w / 4 < len (mem m').
Proof.
  intros Hs Ha H.
  pose proof (sound_real_address _ _ _ _ _ Hs H) as (_ & _ & _ & Hmo').
  pose proof (real_address_config _ _ _ _ _ H) as (ES & EV & EP & _).
  destruct Hs as (Hco & _ & _ & (HS & HV & Ld & _)).
  destruct (real_address_frame _ _ _ _ _ Hco Ld H) as (fr & Hfr & _ & -> & _).
  destruct (page_of_in_range m a HS HV Ha) as (_ & _ & -> & _ & Ho).
  destruct Hmo' as (_ & _ & _ & -> & _). rewrite ES, EP.
  apply page_bound; lia.
Qed.

Lemma readInt_total (m : VM) (a : Z) :
  sound m -> roomy m -> in_range m a -> timestamp m < INT_MAX ->
  exists m', readInt m a = Done (m', vword m a).
Proof.
  intros Hs Hr Ha Ht.
  destruct (real_address_total m a 0 Hs Hr Ha Ht) as (m' & w & H).
  assert (E : exists v, readInt m a = Done (m', v)).
  { unfold readInt, read_address. rewrite H. cbn [obind].
    unfold load. rewrite get_ok by (eapply real_address_in_mem; eassumption).
    cbn [obind]. eauto. }
  destruct E as [v E]. exists m'. rewrite E.
  apply readInt_value in E as (_ & -> & _); auto.
Qed.

Lemma write_address_total (m : VM) (a v : Z) :
  sound m -> roomy m -> in_range m a -> timestamp m < INT_MAX ->
  exists m', write_address m a v = Done m'.
Proof.
  intros Hs Hr Ha Ht.
  destruct (real_address_total m a 1 Hs Hr Ha Ht) as (m' & w & H).
  unfold write_address. rewrite H. cbn [obind].
  unfold store. rewrite set_ok by (eapply real_address_in_mem; eassumption).
  cbn [obind]. eauto.
Qed.

Lemma exec_total (m : VM) (op : access) :
  sound m -> roomy m -> in_range m (addr_of op) -> timestamp m < INT_MAX ->
  exists m', exec m op = Done m'.
Proof.
  intros Hs Hr Ha Ht. destruct op as [a|a|a v|a v]; simpl in *.
  - destruct (readInt_total m a Hs Hr Ha Ht) as [m' ->]. cbn [obind]. eauto.
  - destruct (readInt_total m a Hs Hr Ha Ht) as [m' E].
    unfold readFloat. unfold readInt in E. rewrite E. cbn [obind]. eauto.
  - now apply write_address_total.
  - now apply write_address_total.
Qed.

Lemma run_total (ops : list access) (m : VM) :
  sound m -> roomy m -> Forall (fun op => in_range m (addr_of op)) ops ->
  timestamp m + Z.of_nat (length ops) <= INT_MAX ->
  exists m', run m ops = Done m'.
Proof.
  revert m. induction ops as [|op ops IH]; intros m Hs Hr Hall Ht; simpl.
  - eauto.
  - apply Forall_cons in Hall as [Ha Hall].
    destruct (exec_total m op Hs Hr Ha) as [m1 H1]; [simpl in Ht; lia|].
    rewrite H1. cbn [obind]. apply IH.
    + eapply sound_exec; eassumption.
    + eapply roomy_exec; eassumption.
    + eapply Forall_impl; [exact Hall|]. intros op' Ha'.
      eapply in_range_exec; eassumption.
    + apply exec_timestamp in H1. simpl in Ht. lia.
Qed.

Lemma run_timestamp (ops : list access) (m m' : VM) :
  run m ops = Done m' -> timestamp m' = timestamp m + Z.of_nat (length ops).
Proof.
  revert m. induction ops as [|op ops IH]; intros m H; simpl in H.
  - injection H as <-. simpl. lia.
  - apply obind_Done in H as (m1 & H1 & H). apply IH in H.
    apply exec_timestamp in H1. simpl length. lia.
Qed.

Lemma sound_run (ops : list access) (m m' : VM) :
  sound m -> roomy m -> Forall (fun op => in_range m (addr_of op)) ops ->
  run m ops = Done m' ->
  sound m' /\ roomy m' /\
  pagesize m' = pagesize m /\ vpage m' = vpage m /\ ppage m' = ppage m /\
  tlb m' = tlb m.
Proof.
  revert m. induction ops as [|op ops IH]; intros m Hs Hr Hall H; simpl in H.
  - injection H as <-. auto 10.
  - apply obind_Done in H as (m1 & H1 & H).
    apply Forall_cons in Hall as [Ha Hall].
    pose proof (exec_config _ _ _ H1) as (C1 & C2 & C3 & _ & C5 & _).
    destruct (IH m1) as (S' & R' & D1 & D2 & D3 & D5); try assumption.
    + eapply sound_exec; eassumption.
    + eapply roomy_exec; eassumption.
    + eapply Forall_impl; [exact Hall|]. intros op' Ha'.
      eapply in_range_exec; eassumption.
    + rewrite D1, D2, D3, D5. auto 10.
Qed.

Lemma sound_reachable (sizeVM sizePM pageSize sizeTLB pageReplAlg tlbReplAlg : Z)
                      (m0 : VM) (ops : list access) (m : VM) :
  sized sizeVM sizePM pageSize sizeTLB ->
  createVM sizeVM sizePM pageSize sizeTLB pageReplAlg tlbReplAlg = Done (Handle m0) ->
  Forall (fun op => 0 <= addr_of op < sizeVM * pageSize) ops ->
  run m0 ops = Done m ->
  sound m /\ roomy m /\ timestamp m = Z.of_nat (length ops) /\
  pagesize m = pageSize /\ vpage m = sizeVM /\ ppage m = sizePM /\ tlb m = sizeTLB.
Proof.
  intros Hz Hc Hall Hr.
  destruct (createVM_sound _ _ _ _ _ _ _ Hz Hc) as (S0 & R0 & T0 & E1 & E2 & E3 & E4).
  pose proof (run_timestamp _ _ _ Hr) as Ht. rewrite T0 in Ht.
  destruct (sound_run ops m0 m S0 R0) as (S' & R' & D1 & D2 & D3 & D5).
  - unfold in_range. now rewrite E1, E2.
  - exact Hr.
  - rewrite D1, D2, D3, D5. auto 10.
Qed.

(** ** The warm path *)

Lemma page_of_below (m : VM) (a n : Z) :
  0 < pagesize m <= INT_MAX -> n <= INT_MAX -> 0 <= a < n * pagesize m ->
  page_of m a = a / pagesize m /\ 0 <= a / pagesize m < n.
Proof.
  unfold INT_MAX. intros Hs Hn Ha.
  assert (Hu : u32 (pagesize m) = pagesize m) by (apply u32_id; lia).
  assert (Hd : 0 <= a / pagesize m < n).
  { split; [apply Z.div_pos; lia | apply Z.div_lt_upper_bound; nia]. }
  unfold page_of. rewrite Hu. rewrite s32_id by (unfold INT_MAX; lia). auto.
Qed.

(** With such a TLB the translation of a page below [tlb] is a TLB hit: it
    changes no counter and no TLB mapping. *)
Lemma warm_real_address (m : VM) (a dty : Z) (m' : VM) (w : Z) :
  identity_tlb m -> 0 <= page_of m a < tlb m ->
  real_address m a dty = Done (m', w) ->
  tc m' = tc m /\ pc m' = pc m /\ dc m' = dc m /\
  vtlb m' = vtlb m /\ ptlb m' = ptlb m.
Proof.
  intros Hid Hp H. unfold page_of in Hp.
  assert (Hm : forall t, tlb_missed m (s32 (a / u32 (pagesize m))) t -> False).
  { intros t [[Hab _]|(i & (Hi & _) & _ & _ & Hneg & _)].
    - destruct (Hab _ Hp) as [_ Hne]. destruct (Hid _ Hp) as [Hv _]. congruence.
    - destruct (Hid _ Hi) as [_ Hq]. lia. }
  apply real_address_Done in H as (_ & _ & [H|[H|H]]).
  - destruct H as (i & _ & _ & _ & _ & _ & _ & _ & ->). vmsimpl. auto.
  - destruct H as (t & fr & i & r & t' & Hmiss & _). destruct (Hm t Hmiss).
  - destruct H as (t & fr & r & c & dk & i & r' & t' & Hmiss & _). destruct (Hm t Hmiss).
Qed.

Lemma warm_run (ops : list access) (m m' : VM) :
  identity_tlb m -> 0 < pagesize m <= INT_MAX -> tlb m <= INT_MAX ->
  Forall (fun op => 0 <= addr_of op < tlb m * pagesize m) ops ->
  run m ops = Done m' ->
  tc m' = tc m /\ pc m' = pc m /\ dc m' = dc m /\
  vtlb m' = vtlb m /\ ptlb m' = ptlb m.
Proof.
  revert m. induction ops as [|op ops IH]; intros m Hid Hs Ht Hall H; simpl in H.
  - injection H as <-. auto.
  - apply obind_Done in H as (m1 & H1 & H).
    apply Forall_cons in Hall as [Ha Hall].
    pose proof (exec_config _ _ _ H1) as (C1 & _ & _ & _ & C5 & _).
    apply exec_Done in H1 as (mt & w & Hr & Hst).
    apply stored_tables in Hst as (x & -> & _).
    destruct (page_of_below m (addr_of op) (tlb m) Hs Ht Ha) as [Ep Hp].
    apply warm_real_address in Hr as (W1 & W2 & W3 & W4 & W5);
      [|exact Hid|rewrite Ep; exact Hp].
    vmsimpl.
    destruct (IH (with_mem mt x)) as (V1 & V2 & V3 & V4 & V5); vmsimpl.
    + intros j Hj. vmsimpl. rewrite W4, W5. apply Hid. lia.
    + lia.
    + lia.
    + now rewrite C1, C5.
    + exact H.
    + vmsimpl. rewrite V1, V2, V3, V4, V5. auto.
Qed.

Lemma lru1_reachable : reachable 4 2 2 1 1 1 lru1.
Proof.
  exists {| pagesize := 2; vpage := 4; ppage := 2; palg := 1;
            pvirt := [0; 1]; ptime := [0; 0]; dirty := [0; 0];
            tlb := 1; tlbalg := 1; ptlb := [0]; vtlb := [0]; tlbtime := [0];
            rrp := 0; rrt := 0; timestamp := 0; pc := 0; tc := 0; dc := 0;
            mem := [0; 0; 0; 0]; disk := [0; 0; 0; 0; 0; 0; 0; 0] |},
         [WriteInt 0 7].
  split; vm_compute; reflexivity.
Qed.

(** ** What the code does where the specification says otherwise *)

(** [flushtlb] when a slot already points at the frame: that slot's page is
    rewritten and nothing else, the slot's timestamp included. *)
Lemma flushtlb_in_place (m : VM) (fr pte i : Z) :
  first_at (ptlb m) (tlb m) fr i -> tlb m <= len (ptlb m) -> i < len (vtlb m) ->
  flushtlb m fr pte = Done (with_vtlb m (upd (vtlb m) i pte)).
Proof.
  intros Hf HL Hv. unfold flushtlb. rewrite (scan_first _ _ _ i HL Hf). cbn [obind].
  destruct Hf as (Hi & _). destruct (Z.eqb_spec i (-1)); [lia|].
  now rewrite set_ok by lia.
Qed.

(** [flushtlb] when no slot points at the frame: it is [addtlb], which asks
    the TLB's policy for a slot and stamps it. *)
Lemma flushtlb_by_policy (m : VM) (fr pte : Z) :
  absent (ptlb m) (tlb m) fr -> tlb m <= len (ptlb m) ->
  flushtlb m fr pte = addtlb m fr pte.
Proof.
  intros Ha HL. unfold flushtlb. now rewrite (scan_absent _ _ _ Ha HL).
Qed.

Lemma obind_not_fatal {A B : Type} (o : outcome A) (k : A -> outcome B) :
  not_fatal o -> (forall a, not_fatal (k a)) -> not_fatal (obind o k).
Proof.
  unfold not_fatal. intros Ho Hk. destruct o as [a| |f]; simpl;
    [apply Hk | contradiction | discriminate].
Qed.

Lemma ck_not_fatal (z : Z) : not_fatal (ck z).
Proof. unfold not_fatal, ck. destruct (int_ok z); discriminate. Qed.

Lemma irem_not_fatal (a b : Z) : not_fatal (irem a b).
Proof.
  unfold irem. destruct (b =? 0); [discriminate|].
  destruct (_ && _); [discriminate | apply ck_not_fatal].
Qed.

Lemma get_not_fatal (l : list Z) (i : Z) : not_fatal (get l i).
Proof. unfold not_fatal, get. destruct (inb l i); discriminate. Qed.

Lemma set_not_fatal (l : list Z) (i v : Z) : not_fatal (set l i v).
Proof. unfold not_fatal, set. destruct (inb l i); discriminate. Qed.

Lemma memcpy_not_fatal (dst : list Z) (db : Z) (src : list Z) (sb nb : Z) :
  not_fatal (memcpy dst db src sb nb).
Proof. unfold not_fatal, memcpy. destruct (_ && _); discriminate. Qed.

Lemma udiv_not_fatal (a b : Z) : not_fatal (udiv a b).
Proof. unfold not_fatal, udiv. destruct (u32 b =? 0); discriminate. Qed.

Lemma urem_not_fatal (a b : Z) : not_fatal (urem a b).
Proof. unfold not_fatal, urem. destruct (u32 b =? 0); discriminate. Qed.

Lemma Done_not_fatal {A : Type} (a : A) : not_fatal (Done a).
Proof. discriminate. Qed.

Create HintDb nofatal.
#[local] Hint Resolve ck_not_fatal irem_not_fatal get_not_fatal set_not_fatal
  memcpy_not_fatal udiv_not_fatal urem_not_fatal : nofatal.
#[local] Hint Resolve Done_not_fatal : nofatal.

Ltac nofatal :=
  repeat first
    [ solve [auto with nofatal]
    | apply obind_not_fatal; [|intros ?]
    | match goal with
      | |- not_fatal (if ?c then _ else _) => destruct c
      | |- not_fatal (match ?x with (_, _) => _ end) => destruct x
      end ].

Lemma scan_not_fatal (p : list Z) (x n : Z) : not_fatal (scan p x n).
Proof.
  unfold scan. generalize 0. induction (Z.to_nat n) as [|k IH]; intros i; simpl.
  - nofatal.
  - nofatal; try apply IH.
Qed.

Lemma minindex_not_fatal (p : list Z) (n : Z) : not_fatal (minindex p n).
Proof.
  unfold minindex. generalize 0, 2147483647, (-1).
  induction (Z.to_nat n) as [|k IH]; intros i v j; simpl.
  - nofatal.
  - nofatal; try apply IH.
Qed.

#[local] Hint Resolve scan_not_fatal minindex_not_fatal : nofatal.

Lemma mark_not_fatal (m : VM) (fr dty : Z) : not_fatal (mark m fr dty).
Proof. unfold mark. nofatal. Qed.

Lemma make_address_not_fatal (m : VM) (fr add : Z) : not_fatal (make_address m fr add).
Proof. unfold make_address, imul. nofatal. Qed.

Lemma page_bytes_not_fatal (m : VM) (i : Z) : not_fatal (page_bytes m i).
Proof. unfold page_bytes, imul. nofatal. Qed.

Lemma choose_page_not_fatal (m : VM) : not_fatal (choose_page m).
Proof. unfold choose_page, iadd, isub. nofatal. Qed.

Lemma choose_tlb_not_fatal (m : VM) : not_fatal (choose_tlb m).
Proof. unfold choose_tlb, iadd, isub. nofatal. Qed.

#[local] Hint Resolve mark_not_fatal make_address_not_fatal page_bytes_not_fatal
  choose_page_not_fatal choose_tlb_not_fatal : nofatal.

Lemma addtlb_not_fatal (m : VM) (fr pte : Z) : not_fatal (addtlb m fr pte).
Proof. unfold addtlb. nofatal. Qed.

#[local] Hint Resolve addtlb_not_fatal : nofatal.

Lemma flushtlb_not_fatal (m : VM) (fr pte : Z) : not_fatal (flushtlb m fr pte).
Proof. unfold flushtlb. nofatal. Qed.

Lemma lookup_in_tlb_and_mark_not_fatal (m : VM) (pte : Z) :
  not_fatal (lookup_in_tlb_and_mark m pte).
Proof. unfold lookup_in_tlb_and_mark. nofatal. Qed.

#[local] Hint Resolve flushtlb_not_fatal lookup_in_tlb_and_mark_not_fatal : nofatal.

Lemma real_address_not_fatal (m : VM) (a dty : Z) : not_fatal (real_address m a dty).
Proof. unfold real_address, lookup_in_mem, iadd, imul. cbv zeta. nofatal. Qed.

#[local] Hint Resolve real_address_not_fatal : nofatal.

Lemma accessors_not_fatal (m : VM) (a v : Z) :
  not_fatal (readInt m a) /\ not_fatal (readFloat m a) /\
  not_fatal (writeInt m a v) /\ not_fatal (writeFloat m a v).
Proof.
  unfold readInt, readFloat, writeInt, writeFloat, write_address, read_address,
    load, store.
  repeat split; nofatal.
Qed.

(** [createVM] checks none of its arguments: whenever it returns, it
    returns a handle, never [NULL], and it never terminates the program
    with a diagnostic. *)
Lemma createVM_never_NULL (sizeVM sizePM pageSize sizeTLB pageReplAlg tlbReplAlg : Z) :
  createVM sizeVM sizePM pageSize sizeTLB pageReplAlg tlbReplAlg <> Done NULL /\
  createVM sizeVM sizePM pageSize sizeTLB pageReplAlg tlbReplAlg <> Fatal.
Proof.
  split.
  - intros H. apply createVM_Done in H as (pv & pt & vt & _ & _ & _ & H). discriminate.
  - unfold createVM, fill.
    assert (F : forall k l i, not_fatal (fill_from l i k)).
    { induction k as [|k IH]; intros l i; simpl; unfold iadd; nofatal; apply IH. }
    repeat (apply obind_not_fatal; [apply F | intros ?]). discriminate.
Qed.

(** ** Lengths, clocks and page numbers *)

Lemma len_marked_dirty (d : list Z) (fr dty : Z) :
  len (if dty =? 0 then d else upd d fr 1) = len d.
Proof. destruct (dty =? 0); [reflexivity | apply len_upd]. Qed.

Lemma tlb_missed_len (m : VM) (pte : Z) (t : list Z) :
  tlb_missed m pte t -> len t = len (tlbtime m).
Proof. intros [[_ ->]|(i & _ & _ & _ & _ & ->)]; [reflexivity | apply len_upd]. Qed.

Lemma written_back_len (m : VM) (fr c : Z) (dk : list Z) :
  written_back m fr c dk -> len dk = len (disk m).
Proof. intros [(_ & _ & ->)|(_ & _ & _ & _ & _ & ->)]; [reflexivity | apply len_blit]. Qed.

Lemma real_address_lengths (m : VM) (a dty : Z) (m' : VM) (w : Z) :
  real_address m a dty = Done (m', w) ->
  len (pvirt m') = len (pvirt m) /\ len (ptime m') = len (ptime m) /\
  len (dirty m') = len (dirty m) /\ len (ptlb m') = len (ptlb m) /\
  len (vtlb m') = len (vtlb m) /\ len (tlbtime m') = len (tlbtime m) /\
  len (mem m') = len (mem m) /\ len (disk m') = len (disk m).
Proof.
  intros H. apply real_address_Done in H as (_ & _ & [H|[H|H]]).
  - destruct H as (i & _ & _ & _ & _ & _ & _ & _ & ->). vmsimpl.
    rewrite len_marked_dirty, !len_upd. auto 10.
  - destruct H as (t & fr & i & r & t' & Hmiss & _ & _ & _ & _ & _ & (_ & _ & Ht) & _ & _ & ->).
    vmsimpl. subst t'. apply tlb_missed_len in Hmiss.
    rewrite len_marked_dirty, !len_upd. auto 10.
  - destruct H as (t & fr & r & c & dk & i & r' & t' & Hmiss & _ & _ & _ & _ & _ & _ & _ &
                   Hwb & _ & _ & _ & _ & _ & _ & _ & Hin & _ & _ & ->).
    apply tlb_missed_len in Hmiss. apply written_back_len in Hwb.
    assert (Lt : len t' = len t).
    { destruct Hin as [(_ & _ & ->)|(_ & _ & _ & ->)]; vmsimpl;
        [reflexivity | apply len_upd]. }
    vmsimpl. rewrite len_marked_dirty, !len_upd, len_blit. rewrite Lt. auto 10.
Qed.

Lemma exec_lengths (m : VM) (op : access) (m' : VM) :
  exec m op = Done m' ->
  len (pvirt m') = len (pvirt m) /\ len (ptime m') = len (ptime m) /\
  len (dirty m') = len (dirty m) /\ len (ptlb m') = len (ptlb m) /\
  len (vtlb m') = len (vtlb m) /\ len (tlbtime m') = len (tlbtime m) /\
  len (mem m') = len (mem m) /\ len (disk m') = len (disk m).
Proof.
  intros H. apply exec_Done in H as (m1 & w & H & Hs).
  apply real_address_lengths in H.
  apply stored_tables in Hs as (x & -> & Lx). vmsimpl. rewrite Lx. exact H.
Qed.

Lemma accesses_lengths (ops : list access) (m m' : VM) :
  run m ops = Done m' ->
  len (pvirt m') = len (pvirt m) /\ len (ptime m') = len (ptime m) /\
  len (dirty m') = len (dirty m) /\ len (ptlb m') = len (ptlb m) /\
  len (vtlb m') = len (vtlb m) /\ len (tlbtime m') = len (tlbtime m) /\
  len (mem m') = len (mem m) /\ len (disk m') = len (disk m).
Proof.
  apply (run_invariant (fun s =>
    len (pvirt s) = len (pvirt m) /\ len (ptime s) = len (ptime m) /\
    len (dirty s) = len (dirty m) /\ len (ptlb s) = len (ptlb m) /\
    len (vtlb s) = len (vtlb m) /\ len (tlbtime s) = len (tlbtime m) /\
    len (mem s) = len (mem m) /\ len (disk s) = len (disk m))).
  - intros s op s' (L1 & L2 & L3 & L4 & L5 & L6 & L7 & L8) He.
    pose proof (exec_lengths _ _ _ He) as (K1 & K2 & K3 & K4 & K5 & K6 & K7 & K8).
    repeat split; congruence.
  - auto 10.
Qed.

Lemma timed_exec (m : VM) (op : access) (m' : VM) :
  timed m -> exec m op = Done m' -> timed m'.
Proof.
  intros Ht H. apply exec_Done in H as (m1 & w & H & Hs).
  apply (timed_real_address _ _ _ _ _ Ht) in H.
  apply stored_tables in Hs as (x & -> & _). exact H.
Qed.

Lemma page_between (s a lo hi : Z) :
  0 < s -> lo * s <= a < hi * s -> lo <= a / s < hi.
Proof.
  intros Hs Ha. split.
  - apply Z.div_le_lower_bound; lia.
  - apply Z.div_lt_upper_bound; lia.
Qed.

(** ** Round-robin in a simulation *)











(** ** The warm path, in every configuration *)

Lemma u32_s32 (z : Z) : u32 (s32 z) = u32 z.
Proof.
  unfold u32, s32. cbv zeta.
  pose proof (Z.mod_pos_bound z 4294967296 ltac:(lia)) as Hb.
  destruct (z mod 4294967296 <? 2147483648).
  - apply Z.mod_mod. lia.
  - replace (z mod 4294967296 - 4294967296)
      with (z mod 4294967296 + (-1) * 4294967296) by lia.
    rewrite Z_mod_plus_full. apply Z.mod_mod. lia.
Qed.

Lemma warm_page (m : VM) (a : Z) :
  0 < u32 (pagesize m) -> tlb m <= INT_MAX ->
  0 <= a < tlb m * u32 (pagesize m) -> 0 <= page_of m a < tlb m.
Proof.
  intros Hs Ht Ha. unfold page_of.
  destruct (page_between (u32 (pagesize m)) a 0 (tlb m) Hs) as [Hlo Hhi]; [lia|].
  rewrite s32_id by lia. lia.
Qed.

(** Accesses to the pages that the initial TLB maps are TLB hits, whatever
    the configuration is. *)
Lemma warm_run_any (ops : list access) (m m' : VM) :
  identity_tlb m -> 0 < u32 (pagesize m) -> tlb m <= INT_MAX ->
  Forall (fun op => 0 <= addr_of op < tlb m * u32 (pagesize m)) ops ->
  run m ops = Done m' ->
  tc m' = tc m /\ pc m' = pc m /\ dc m' = dc m /\
  vtlb m' = vtlb m /\ ptlb m' = ptlb m.
Proof.
  revert m. induction ops as [|op ops IH]; intros m Hid Hs Ht Hall H; simpl in H.
  - injection H as <-. auto.
  - apply obind_Done in H as (m1 & H1 & H).
    apply Forall_cons in Hall as [Ha Hall].
    pose proof (exec_config _ _ _ H1) as (C1 & _ & _ & _ & C5 & _).
    apply exec_Done in H1 as (mt & w & Hr & Hst).
    apply stored_tables in Hst as (x & -> & _).
    pose proof (warm_page m (addr_of op) Hs Ht Ha) as Hp.
    apply warm_real_address in Hr as (W1 & W2 & W3 & W4 & W5);
      [|exact Hid|exact Hp].
    vmsimpl.
    destruct (IH (with_mem mt x)) as (V1 & V2 & V3 & V4 & V5); vmsimpl.
    + intros j Hj. vmsimpl. rewrite W4, W5. apply Hid. lia.
    + now rewrite C1.
    + lia.
    + now rewrite C1, C5.
    + exact H.
    + vmsimpl. rewrite V1, V2, V3, V4, V5. auto.
Qed.

(** In a state that is ready for them, these accesses are defined. *)
Lemma warm_real_address_total (m : VM) (a dty : Z) :
  warm_ready m -> 0 <= timestamp m < INT_MAX -> 0 <= a < tlb m * pagesize m ->
  real_address m a dty =
  Done (marked (with_tlbtime (with_timestamp m (timestamp m + 1))
                  (upd (tlbtime m) (a / pagesize m) (timestamp m + 1)))
               (a / pagesize m) dty,
        addr m (a / pagesize m) (a mod pagesize m)).
Proof.
  intros (Hid & Hs & Ht & Lv & Lp & Lt & Lpt & Ld & Hf & Ho & Lm) Hts Ha.
  destruct (page_between (pagesize m) a 0 (tlb m) Hs) as [Hlo Hhi]; [lia|].
  assert (Hp : 0 <= a / pagesize m < tlb m) by lia.
  pose proof (Z.mod_pos_bound a (pagesize m) Hs) as Hm.
  destruct (Hid _ Hp) as [Hv Hq].
  unfold real_address, iadd. rewrite ck_ok by (unfold INT_MIN, INT_MAX in *; lia).
  cbn [obind]. unfold udiv, urem. vmsimpl.
  rewrite u32_id by (unfold INT_MAX in *; lia).
  destruct (Z.eqb_spec (pagesize m) 0) as [|_]; [lia|]. cbn [obind].
  rewrite !s32_id by (unfold INT_MAX in *; lia).
  rewrite (lookup_in_tlb_and_mark_hit _ _ (a / pagesize m)); vmsimpl; try lia.
  - cbn [obind]. rewrite Hq.
    destruct (Z.eqb_spec (a / pagesize m) (-1)) as [|_]; [lia|]. cbn [negb].
    rewrite mark_ok by (vmsimpl; lia). cbn [obind].
    rewrite make_address_ok; [reflexivity | |]; unfold marked; vmsimpl.
    + unfold INT_MAX in *. nia.
    + unfold INT_MAX in *. lia.
  - split; [exact Hp|]. split; [lia|]. split; [exact Hv|].
    intros j Hj. assert (Hj' : 0 <= j < tlb m) by lia.
    destruct (Hid _ Hj') as [-> _]. lia.
Qed.

Lemma warm_exec_total (m : VM) (op : access) :
  warm_ready m -> 0 <= timestamp m < INT_MAX ->
  0 <= addr_of op < tlb m * pagesize m ->
  exists m', exec m op = Done m' /\ warm_ready m' /\
             timestamp m' = timestamp m + 1 /\
             tlb m' = tlb m /\ pagesize m' = pagesize m.
Proof.
  intros Hw Hts Ha.
  pose proof Hw as (Hid & Hs & Ht & Lv & Lp & Lt & Lpt & Ld & Hf & Ho & Lm).
  destruct (page_between (pagesize m) (addr_of op) 0 (tlb m) Hs) as [Hlo Hhi]; [lia|].
  pose proof (Z.mod_pos_bound (addr_of op) (pagesize m) Hs) as Hm.
  assert (Hidx : addr m (addr_of op / pagesize m) (addr_of op mod pagesize m) / 4
                 = addr_of op / pagesize m * pagesize m + addr_of op mod pagesize m).
  { unfold addr.
    replace (addr_of op / pagesize m * pagesize m * 4 + addr_of op mod pagesize m * 4)
      with ((addr_of op / pagesize m * pagesize m + addr_of op mod pagesize m) * 4) by lia.
    apply div4. }
  assert (Hin : 0 <= addr_of op / pagesize m * pagesize m + addr_of op mod pagesize m
                < len (mem m)).
  { pose proof (page_bound (pagesize m) (addr_of op / pagesize m) (tlb m)
                  (addr_of op mod pagesize m) Hs). lia. }
  assert (Hready : forall dty x, len x = len (mem m) ->
            warm_ready (with_mem
              (marked (with_tlbtime (with_timestamp m (timestamp m + 1))
                         (upd (tlbtime m) (addr_of op / pagesize m) (timestamp m + 1)))
                      (addr_of op / pagesize m) dty) x)).
  { intros dty x Lx. unfold warm_ready. vmsimpl.
    rewrite len_marked_dirty, !len_upd, Lx. auto 15. }
  assert (Hread : forall dty,
            warm_ready (marked (with_tlbtime (with_timestamp m (timestamp m + 1))
                         (upd (tlbtime m) (addr_of op / pagesize m) (timestamp m + 1)))
                      (addr_of op / pagesize m) dty)).
  { intros dty. unfold warm_ready. vmsimpl.
    rewrite len_marked_dirty, !len_upd. auto 15. }
  destruct op as [a|a|a v|a v]; simpl in Ha, Hidx, Hin, Hready, Hread |- *;
    unfold readInt, readFloat, writeInt, writeFloat, read_address, write_address;
    rewrite (warm_real_address_total m a _ Hw Hts Ha); cbn [obind];
    unfold load, store; vmsimpl; rewrite Hidx.
  - rewrite get_ok by exact Hin. cbn [obind]. eexists. split; [reflexivity|].
    split; [apply Hread | vmsimpl; auto].
  - rewrite get_ok by exact Hin. cbn [obind]. eexists. split; [reflexivity|].
    split; [apply Hread | vmsimpl; auto].
  - rewrite set_ok by exact Hin. cbn [obind]. eexists. split; [reflexivity|].
    split; [|vmsimpl; auto]. apply Hready. apply len_upd.
  - rewrite set_ok by exact Hin. cbn [obind]. eexists. split; [reflexivity|].
    split; [|vmsimpl; auto]. apply Hready. apply len_upd.
Qed.

Lemma warm_run_total (ops : list access) (m : VM) :
  warm_ready m -> 0 <= timestamp m ->
  timestamp m + Z.of_nat (length ops) <= INT_MAX ->
  Forall (fun op => 0 <= addr_of op < tlb m * pagesize m) ops ->
  exists m', run m ops = Done m'.
Proof.
  revert m. induction ops as [|op ops IH]; intros m Hw Hts Hlen Hall; simpl.
  - now exists m.
  - apply Forall_cons in Hall as [Ha Hall]. simpl length in Hlen.
    destruct (warm_exec_total m op Hw) as (m1 & H1 & Hw1 & Et & E1 & E2); [lia | exact Ha|].
    rewrite H1. cbn [obind]. apply IH; [exact Hw1 | lia | lia |].
    now rewrite E1, E2.
Qed.

(** * The properties of the specification *)

(** C1 (amended). TLB-page-table coherence: in every state that a
    simulation with sizeTLB <= sizePM reaches, a TLB hit for a page returns
    a frame whose page-table entry holds that page; and once an access has
    evicted page p from frame f, a TLB lookup for p misses. *)
Theorem tlb_coherence
    (sizeVM sizePM pageSize sizeTLB pageReplAlg tlbReplAlg : Z) (m : VM) :
  0 <= sizeTLB <= sizePM ->
  reachable sizeVM sizePM pageSize sizeTLB pageReplAlg tlbReplAlg m ->
  (forall vpn m' fr,
     lookup_in_tlb_and_mark m vpn = Done (m', fr) -> fr <> -1 ->
     get (pvirt m) fr = Done vpn) /\
  (forall op m1 f p m2 r,
     exec m op = Done m1 ->
     0 <= f < ppage m -> rd (pvirt m) f = p -> rd (pvirt m1) f <> p ->
     lookup_in_tlb_and_mark m1 p = Done (m2, r) -> r = -1).
Proof.
  intros HT Hr. pose proof (coherent_reachable _ _ _ _ _ _ _ HT Hr) as Hco.
  split.
  - intros vpn m' fr Hl Hne. destruct Hco as (Lp & _ & _ & _ & _ & Hc).
    apply lookup_in_tlb_and_mark_Done in Hl as [(_ & _ & ->)|(i & Hf & _ & _ & _ & ->)];
      [contradiction|].
    destruct Hf as (Hi & _ & Hx & _). destruct (Hc i Hi) as [Hb Hv].
    rewrite get_ok by lia. congruence.
  - intros op m1 f p m2 r He Hf Hx Hne Hl.
    pose proof (coherent_exec _ _ _ Hco He) as (Lp1 & _ & _ & _ & _ & Hc1).
    pose proof (exec_config _ _ _ He) as (_ & _ & EP & _).
    destruct Hco as (Lp & _ & _ & Ip & _).
    apply exec_tables in He as [(_ & E & _)|(fr & _ & _ & Hb & _ & Hab & E & _)];
      [congruence|].
    assert (Hfr : f = fr).
    { destruct (Z.eq_dec f fr) as [|N]; [assumption|].
      rewrite E, rd_upd_ne in Hne by lia. contradiction. }
    subst fr.
    apply lookup_in_tlb_and_mark_Done in Hl as [(_ & _ & ->)|(i & Hi & _ & _ & _ & ->)];
      [reflexivity|].
    exfalso. destruct Hi as (Hi & _ & Hv & _). destruct (Hc1 i Hi) as [Hg Hpg].
    rewrite Hv, EP in *.
    destruct (Z.eq_dec (rd (ptlb m1) i) f) as [Eg|Ng]; [congruence|].
    rewrite E, rd_upd_ne in Hpg by lia.
    apply Ng. apply Ip; [lia | lia | congruence].
Qed.

Lemma tlb_coherence_witness :
  get (pvirt demo2) 1 = Done 1 /\
  (forall m2 r, lookup_in_tlb_and_mark demo3 0 = Done (m2, r) -> r = -1).
Proof.
  destruct (tlb_coherence 4 2 2 1 0 0 demo2 ltac:(lia) demo2_reachable) as [H1 H2].
  split.
  - apply (H1 1 (with_tlbtime demo2 [2]) 1); [vm_compute; reflexivity | lia].
  - intros m2 r E.
    apply (H2 (ReadInt 4) demo3 0 0 m2 r);
      [vm_compute; reflexivity | simpl; lia | reflexivity | | exact E].
    simpl. discriminate.
Defined.

(** C1 as stated fails when sizeTLB > sizePM: in the initial state of
    [createVM(4, 2, 2, 3, 0, 0)] the TLB hits for page 2 and returns frame 2,
    and the page table has no entry 2. *)
Lemma tlb_coherence_needs_frames :
  createVM 4 2 2 3 0 0 = Done (Handle wide0) /\
  lookup_in_tlb_and_mark wide0 2 = Done (wide0, 2) /\
  get (pvirt wide0) 2 = Stuck OutOfBounds.
Proof. repeat split; vm_compute; reflexivity. Qed.

(** C2. End-to-end example: after [createVM(4, 2, 2, 1, 0, 0)] the sequence
    writeInt(0,7); writeInt(2,9); readInt(4); readInt(0) goes through a TLB
    hit (no counter moves), a TLB miss with a page-table hit (tlbMisses = 1),
    a page fault whose round-robin victim is frame 0 (its dirty page [7, 0]
    goes to disk slot 0, page 2 comes in) and a page fault whose victim is
    frame 1 (its dirty page [9, 0] goes to disk slot 1, page 0 comes back);
    the last read returns 7 and the counters end at pageFaults = 2,
    tlbMisses = 3, diskWrites = 2. *)
Theorem end_to_end_example :
  createVM 4 2 2 1 0 0 = Done (Handle demo0) /\
  writeInt demo0 0 7 = Done demo1 /\
  writeInt demo1 2 9 = Done demo2 /\
  readInt demo2 4 = Done (demo3, 0) /\
  readInt demo3 0 = Done (demo4, 7) /\
  (* the translations *)
  lookup_in_tlb_and_mark (with_timestamp demo0 1) 0
    = Done (with_tlbtime (with_timestamp demo0 1) [1], 0) /\
  lookup_in_tlb_and_mark (with_timestamp demo1 2) 1 = Done (with_timestamp demo1 2, -1) /\
  lookup_in_mem demo1 1 = Done 1 /\
  lookup_in_mem demo2 2 = Done (-1) /\
  choose_page demo2 = Done (with_rrp demo2 1, 0) /\
  lookup_in_mem demo3 0 = Done (-1) /\
  choose_page demo3 = Done (with_rrp demo3 0, 1) /\
  (* the counters: page faults, TLB misses, disk writes *)
  statistics demo1 = (0, 0, 0) /\
  statistics demo2 = (0, 1, 0) /\
  statistics demo3 = (1, 2, 1) /\
  statistics demo4 = (2, 3, 2) /\
  (* the disk *)
  disk demo2 = [0; 0; 0; 0; 0; 0; 0; 0] /\
  disk demo3 = [7; 0; 0; 0; 0; 0; 0; 0] /\
  disk demo4 = [7; 0; 9; 0; 0; 0; 0; 0].
Proof. repeat split; vm_compute; reflexivity. Qed.

(** C3 (amended). Dirty-page round trip: in a configuration with
    1 <= sizeTLB <= sizePM < sizeVM, pageSize >= 1 and
    sizeVM * pageSize * 4 <= 2147483647, while the clock stays below
    2147483647: after any accesses [pre], writing [v] to an in-range address
    [a], then any in-range accesses [ops] that do not write to [a] (they may
    evict the page of [a] and fault it in again), then reading [a], all
    complete, and the read returns [v]; and the access that first takes the
    page of [a] out of memory after the write adds exactly one to
    diskWrites. *)
Theorem dirty_page_round_trip
    (sizeVM sizePM pageSize sizeTLB pageReplAlg tlbReplAlg : Z)
    (m0 : VM) (pre : list access) (a v : Z) (ops : list access) :
  sized sizeVM sizePM pageSize sizeTLB ->
  createVM sizeVM sizePM pageSize sizeTLB pageReplAlg tlbReplAlg = Done (Handle m0) ->
  Forall (fun op => 0 <= addr_of op < sizeVM * pageSize) pre ->
  0 <= a < sizeVM * pageSize ->
  Forall (fun op => 0 <= addr_of op < sizeVM * pageSize /\ ~ writes op a) ops ->
  Z.of_nat (length pre) + Z.of_nat (length ops) + 2 <= INT_MAX ->
  exists m m1 m2 m3,
    run m0 pre = Done m /\ writeInt m a v = Done m1 /\
    run m1 ops = Done m2 /\ readInt m2 a = Done (m3, v) /\
    forall ops1 e ops2 mA mB,
      ops = ops1 ++ e :: ops2 -> keeps (a / pageSize) m1 ops1 mA ->
      exec mA e = Done mB -> is_resident mB (a / pageSize) = false ->
      dc mB = dc mA + 1.
Proof.
  intros Hz Hc Hpre Ha Hops Hlen.
  destruct (createVM_sound _ _ _ _ _ _ _ Hz Hc) as (S0 & R0 & T0 & E1 & E2 & E3 & E4).
  destruct (run_total pre m0 S0 R0) as [m Hm].
  { unfold in_range. now rewrite E1, E2. }
  { lia. }
  destruct (sound_reachable _ _ _ _ _ _ _ _ _ Hz Hc Hpre Hm)
    as (Sm & Rm & Tm & F1 & F2 & F3 & F4).
  assert (Ham : in_range m a) by (unfold in_range; now rewrite F1, F2).
  destruct (write_address_total m a v Sm Rm Ham) as [m1 H1]; [lia|].
  assert (X1 : exec m (WriteInt a v) = Done m1) by exact H1.
  pose proof (exec_config _ _ _ X1) as (G1 & G2 & G3 & _ & G5 & _).
  pose proof (exec_timestamp _ _ _ X1) as Tm1.
  pose proof (roomy_exec _ _ _ Rm X1) as Rm1.
  destruct (write_address_value _ _ _ _ Sm Ham H1) as (Sm1 & Vm1 & fr & Hfr & Hx & Hd).
  assert (Ham1 : in_range m1 a) by (unfold in_range; now rewrite G1, G2, F1, F2).
  assert (Hops1 : Forall (fun op => in_range m1 (addr_of op) /\ ~ writes op a) ops).
  { eapply Forall_impl; [exact Hops|]. intros op [Hr Hw]. split; [|exact Hw].
    unfold in_range. now rewrite G1, G2, F1, F2. }
  assert (Hops1' : Forall (fun op => in_range m1 (addr_of op)) ops).
  { eapply Forall_impl; [exact Hops1|]. now intros op [Hr _]. }
  destruct (run_total ops m1 Sm1 Rm1 Hops1') as [m2 H2]; [lia|].
  destruct (vword_run ops m1 m2 a Sm1 Ham1 Hops1 H2) as (Sm2 & Ham2 & Vm2).
  destruct (sound_run ops m1 m2 Sm1 Rm1 Hops1' H2) as (_ & Rm2 & _).
  pose proof (run_timestamp _ _ _ H2) as Tm2.
  destruct (readInt_total m2 a Sm2 Rm2 Ham2) as [m3 H3]; [lia|].
  rewrite Vm2, (Vm1 a Ham), Z.eqb_refl in H3.
  exists m, m1, m2, m3.
  split; [exact Hm|]. split; [exact H1|]. split; [exact H2|]. split; [exact H3|].
  intros ops1 e ops2 mA mB -> Hk He Hnr.
  apply Forall_app in Hops1' as [Ho1 Ho2]. apply Forall_cons in Ho2 as [Hoe _].
  assert (Hdr : dirty_resident m1 (a / pageSize)).
  { exists fr. rewrite F1 in Hx. auto. }
  destruct (keeps_dirty _ _ _ _ Hk Sm1 Hdr Ho1) as (SA & DA & _ & IA).
  destruct (dirty_eviction_step mA (a / pageSize) e mB SA (IA _ Hoe) DA He)
    as [[Ht _]|[_ Hdc]]; [congruence | exact Hdc].
Qed.

Lemma dirty_page_round_trip_witness :
  (exists m3, readInt demo3 0 = Done (m3, 7)) /\ dc demo3 = dc demo2 + 1.
Proof.
  destruct (dirty_page_round_trip 4 2 2 1 0 0 demo0 [] 0 7 [WriteInt 2 9; ReadInt 4])
    as (m & m1 & m2 & m3 & Hm & H1 & H2 & H3 & Hev).
  - unfold sized, INT_MAX. lia.
  - vm_compute. reflexivity.
  - constructor.
  - lia.
  - repeat constructor; simpl; lia.
  - unfold INT_MAX. simpl. lia.
  - injection Hm as <-.
    assert (E1 : m1 = demo1).
    { assert (E : writeInt demo0 0 7 = Done demo1) by (vm_compute; reflexivity).
      rewrite E in H1. now injection H1. }
    subst m1.
    assert (E2 : m2 = demo3).
    { assert (E : run demo1 [WriteInt 2 9; ReadInt 4] = Done demo3)
        by (vm_compute; reflexivity).
      rewrite E in H2. now injection H2. }
    subst m2.
    split; [eauto|].
    apply (Hev [WriteInt 2 9] (ReadInt 4) [] demo2 demo3).
    + reflexivity.
    + apply (keeps_cons _ demo1 (WriteInt 2 9) demo2 [] demo2);
        [vm_compute; reflexivity | vm_compute; reflexivity |].
      apply keeps_nil. vm_compute. reflexivity.
    + vm_compute. reflexivity.
    + vm_compute. reflexivity.
Defined.

(** C3 as stated fails for the same configuration, which the constructor
    accepts (sizePM < sizeVM, pageSize a power of two): the write to the
    in-range address 4 is undefined, so nothing is read back. *)
Lemma dirty_page_round_trip_needs_frames :
  createVM 4 2 2 3 0 0 = Done (Handle wide0) /\
  0 <= 4 < 4 * 2 /\
  writeInt wide0 4 5 = Stuck OutOfBounds.
Proof.
  split; [vm_compute; reflexivity|]. split; [lia | vm_compute; reflexivity].
Qed.

(** C4, on the code: the first access of a fresh simulation faults page 2
    into frame 0, whose TLB slot is rewritten in place: the slot now maps the
    page that was used at time 1 and still carries the timestamp 0 of the
    page it replaced, whereas [addtlb] stamps the slot it fills. *)
Theorem flushtlb_keeps_old_timestamp :
  readInt demo0 4 = Done (cold1, 0) /\
  flushtlb (with_timestamp demo0 1) 0 2 = Done (with_vtlb (with_timestamp demo0 1) [2]) /\
  vtlb cold1 = [2] /\ ptlb cold1 = [0] /\ tlbtime cold1 = [0] /\ timestamp cold1 = 1 /\
  addtlb (with_timestamp demo0 1) 0 2
    = Done (tlbset (with_timestamp demo0 1) 0 [0] [2] [1]).
Proof. repeat split; vm_compute; reflexivity. Qed.

(** C5, on the code: with four virtual pages of two words the addresses are
    0 .. 7.  An access to address 8 is translated like any other: it misses,
    faults, takes a victim and then copies page 4 from words 8 and 9 of the
    eight-word disk, that is, it reads out of bounds; no diagnostic is printed
    and the program is not terminated, on this or on any other access. *)
Theorem out_of_range_access_unchecked :
  createVM 4 2 2 1 0 0 = Done (Handle demo0) /\
  vpage demo0 * pagesize demo0 = 8 /\
  readInt demo0 8 = Stuck OutOfBounds /\
  readFloat demo0 8 = Stuck OutOfBounds /\
  writeInt demo0 8 1 = Stuck OutOfBounds /\
  writeFloat demo0 8 1 = Stuck OutOfBounds /\
  lookup_in_tlb_and_mark (with_timestamp demo0 1) (page_of demo0 8)
    = Done (with_timestamp demo0 1, -1) /\
  lookup_in_mem demo0 (page_of demo0 8) = Done (-1) /\
  page_of demo0 8 = 4 /\ len (disk demo0) = 8.
Proof. repeat split; vm_compute; reflexivity. Qed.

(** C6, on the code: [createVM] returns a usable handle for sizePM >= sizeVM
    (4 frames for 2 virtual pages), for a page size that is not a power of
    two (3 words), and for a virtual space above 2^32 words (2^31 pages of 4
    words, whose disk then has [2^33 mod 2^32 = 0] words). *)
Theorem createVM_rejects_nothing :
  (exists m, createVM 2 4 2 1 0 0 = Done (Handle m) /\
             vpage m = 2 /\ ppage m = 4 /\ pvirt m = [0; 1; 2; 3]) /\
  (exists m, createVM 4 2 3 1 0 0 = Done (Handle m) /\
             pagesize m = 3 /\ len (mem m) = 6 /\ len (disk m) = 12) /\
  (exists m, createVM 2147483648 1 4 1 0 0 = Done (Handle m) /\
             pagesize m = 4 /\ len (mem m) = 4 /\ disk m = []).
Proof.
  split; [|split]; eexists; (split; [vm_compute; reflexivity|]);
    repeat split; vm_compute; reflexivity.
Qed.




(** C8. LRU victim selection: over n slots whose timestamps are below the
    value 2147483647 that [minindex] starts from, the LRU policy returns the
    first (lowest) index at which the timestamp is least, for the page table
    and for the TLB; and in a simulation with LRU page replacement an access
    that counts a page fault puts its page in the frame whose lastUsed is
    the least of all, the lowest such frame on ties. *)
Theorem lru_victim_selection
    (sizeVM sizePM pageSize sizeTLB pageReplAlg tlbReplAlg : Z)
    (m s : VM) (op : access) (s' : VM) :
  palg m <> 0 -> 0 < ppage m <= len (ptime m) ->
  (forall j, 0 <= j < ppage m -> rd (ptime m) j < 2147483647) ->
  tlbalg m <> 0 -> 0 < tlb m <= len (tlbtime m) ->
  (forall j, 0 <= j < tlb m -> rd (tlbtime m) j < 2147483647) ->
  pageReplAlg <> 0 ->
  reachable sizeVM sizePM pageSize sizeTLB pageReplAlg tlbReplAlg s ->
  exec s op = Done s' -> pc s' = pc s + 1 ->
  (exists f, choose_page m = Done (m, f) /\ first_min (ptime m) (ppage m) f) /\
  (exists i, choose_tlb m = Done (m, i) /\ first_min (tlbtime m) (tlb m) i) /\
  (exists f, first_min (ptime s) (ppage s) f /\ choose_page s = Done (s, f) /\
             pvirt s' = upd (pvirt s) f (page_of s (addr_of op))).
Proof.
  intros Ha Hn Hlt Hb Hk Hlt' HA Rs He Hpc. split; [|split].
  - destruct (minindex_ok (ptime m) (ppage m) Hn Hlt) as (f & Hf & Hm).
    exists f. split; [|exact Hm]. unfold choose_page.
    destruct (Z.eqb_spec (palg m) 0); [contradiction|]. now rewrite Hf.
  - destruct (minindex_ok (tlbtime m) (tlb m) Hk Hlt') as (i & Hi & Hm).
    exists i. split; [|exact Hm]. unfold choose_tlb.
    destruct (Z.eqb_spec (tlbalg m) 0); [contradiction|]. now rewrite Hi.
  - pose proof (reachable_config _ _ _ _ _ _ _ Rs) as (_ & _ & _ & As & _).
    apply exec_tables in He as [(H1 & _)|(fr & H1 & Hv & Hbv & _ & _ & H2 & _)]; [lia|].
    destruct Hv as [(E & _)|(_ & _ & Hmin)]; [congruence|].
    exists fr. split; [|split; [|exact H2]].
    + apply minindex_Done in Hmin as [[-> _]|Hm]; [lia | exact Hm].
    + unfold choose_page. destruct (Z.eqb_spec (palg s) 0); [congruence|].
      now rewrite Hmin.
Qed.

Lemma lru_victim_selection_witness :
  (exists f, choose_page lru1 = Done (lru1, f) /\ first_min (ptime lru1) (ppage lru1) f) /\
  (exists i, choose_tlb lru1 = Done (lru1, i) /\ first_min (tlbtime lru1) (tlb lru1) i) /\
  (exists f, first_min (ptime lru1) (ppage lru1) f /\ choose_page lru1 = Done (lru1, f) /\
             pvirt lru2 = upd (pvirt lru1) f (page_of lru1 (addr_of (ReadInt 4)))).
Proof.
  apply (lru_victim_selection 4 2 2 1 1 1 lru1 lru1 (ReadInt 4) lru2).
  - simpl. lia.
  - vm_compute. split; [reflexivity | discriminate].
  - intros j Hj. simpl in Hj.
    assert (E : j = 0 \/ j = 1) by lia. destruct E as [-> | ->]; vm_compute; reflexivity.
  - simpl. lia.
  - vm_compute. split; [reflexivity | discriminate].
  - intros j Hj. simpl in Hj.
    assert (E : j = 0) by lia. subst j. vm_compute. reflexivity.
  - lia.
  - exact lru1_reachable.
  - vm_compute. reflexivity.
  - vm_compute. reflexivity.
Defined.

(** C9 (amended). Zero-cost warm path: from the initial state after
    create(V, P, S, T, ...), whatever the configuration, a sequence of read
    and write accesses whose addresses all lie in the virtual pages [0, T)
    and that completes leaves the three counters at 0 and the initial TLB
    mappings, page j to frame j for j < T, in place; and when T <= P, the
    byte offsets of the frames below T and of the words of a page are
    [int]s, the memory that [createVM] allocates holds these T frames and
    at most 2147483647 accesses are made, every such sequence completes. *)
Theorem zero_cost_warm_path
    (sizeVM sizePM pageSize sizeTLB pageReplAlg tlbReplAlg : Z)
    (m0 : VM) (ops : list access) :
  0 <= sizeTLB -> 0 <= pageSize < 4294967296 ->
  createVM sizeVM sizePM pageSize sizeTLB pageReplAlg tlbReplAlg = Done (Handle m0) ->
  Forall (fun op => 0 <= addr_of op < sizeTLB * pageSize) ops ->
  (forall m, run m0 ops = Done m ->
     tc m = 0 /\ pc m = 0 /\ dc m = 0 /\
     vtlb m = vtlb m0 /\ ptlb m = ptlb m0 /\
     forall j, 0 <= j < sizeTLB -> rd (vtlb m) j = j /\ rd (ptlb m) j = j) /\
  (sizeTLB <= sizePM ->
   (sizeTLB - 1) * pageSize * 4 <= INT_MAX -> (pageSize - 1) * 4 <= INT_MAX ->
   sizeTLB * pageSize <= (sizePM * pageSize) mod 4294967296 ->
   Z.of_nat (length ops) <= INT_MAX ->
   exists m, run m0 ops = Done m).
Proof.
  intros HT HS Hc Hall.
  pose proof Hc as Hc'.
  apply createVM_Done in Hc' as (pv & pt & vt & Hpv & Hpt & Hvt & Hh).
  injection Hh as Hm0.
  pose proof Hpv as Hpv'. pose proof Hpt as Hpt'. pose proof Hvt as Hvt'.
  apply fill_Done in Hpt' as (L2 & _ & HTm & I2); [|lia].
  apply fill_Done in Hvt' as (L3 & _ & _ & I3); [|lia].
  rewrite len_calloc in L2, L3 by lia.
  assert (Hid : identity_tlb m0).
  { subst m0. intros j Hj. vmsimpl. rewrite s32_id in Hj by lia. auto. }
  assert (C0 : tc m0 = 0 /\ pc m0 = 0 /\ dc m0 = 0 /\ timestamp m0 = 0)
    by (subst m0; auto).
  assert (E1 : tlb m0 = sizeTLB) by (subst m0; vmsimpl; apply s32_id; lia).
  assert (E2 : u32 (pagesize m0) = pageSize)
    by (subst m0; vmsimpl; rewrite u32_s32; apply u32_id; lia).
  destruct ops as [|op0 ops0].
  { split.
    - intros m Hm. injection Hm as <-. destruct C0 as (X1 & X2 & X3 & _).
      repeat split; auto; apply Hid; lia.
    - intros _ _ _ _ _. now exists m0. }
  remember (op0 :: ops0) as ops eqn:Eops.
  assert (Hpos : 0 < sizeTLB /\ 0 < pageSize).
  { rewrite Eops in Hall. apply Forall_cons in Hall as [Ha _]. nia. }
  destruct Hpos as [HT1 HS1]. clear Eops.
  split.
  - intros m Hm.
    destruct (warm_run_any ops m0 m Hid) as (W1 & W2 & W3 & W4 & W5).
    + lia.
    + lia.
    + now rewrite E1, E2.
    + exact Hm.
    + destruct C0 as (X1 & X2 & X3 & _).
      split; [lia|]. split; [lia|]. split; [lia|].
      split; [exact W4|]. split; [exact W5|].
      intros j Hj. rewrite W4, W5. apply Hid. lia.
  - intros HTP Hf Ho Hmem Hlen.
    assert (HSm : pageSize <= INT_MAX) by (unfold INT_MAX in *; lia).
    assert (E3 : pagesize m0 = pageSize) by (subst m0; vmsimpl; apply s32_id; lia).
    destruct C0 as (_ & _ & _ & X4).
    apply warm_run_total.
    + unfold warm_ready. rewrite E1, E3. split; [exact Hid|].
      subst m0. vmsimpl.
      rewrite L2, L3, !len_calloc by (unfold u32; try apply Z.mod_pos_bound; lia).
      unfold u32. repeat split; lia.
    + lia.
    + lia.
    + now rewrite E1, E3.
Qed.

Lemma zero_cost_warm_path_witness :
  exists m,
    run demo0 [WriteInt 0 7; ReadInt 1; ReadInt 0] = Done m /\
    tc m = 0 /\ pc m = 0 /\ dc m = 0 /\
    vtlb m = vtlb demo0 /\ ptlb m = ptlb demo0 /\
    forall j, 0 <= j < 1 -> rd (vtlb m) j = j /\ rd (ptlb m) j = j.
Proof.
  destruct (zero_cost_warm_path 4 2 2 1 0 0 demo0 [WriteInt 0 7; ReadInt 1; ReadInt 0])
    as [Ha Hb].
  - lia.
  - lia.
  - vm_compute. reflexivity.
  - repeat constructor; simpl; lia.
  - destruct Hb as [m Hm].
    + lia.
    + unfold INT_MAX. lia.
    + unfold INT_MAX. lia.
    + vm_compute. discriminate.
    + unfold INT_MAX. simpl. lia.
    + exists m. split; [exact Hm | exact (Ha m Hm)].
Defined.

(** C9 as stated fails when sizeTLB > sizePM: page 2 lies in [0, sizeTLB),
    its TLB slot names frame 2, which does not exist, and the access runs
    outside of the page-table arrays instead of completing. *)
Lemma zero_cost_warm_path_needs_frames :
  createVM 4 2 2 3 0 0 = Done (Handle wide0) /\
  0 <= addr_of (ReadInt 4) < 3 * 2 /\
  run wide0 [ReadInt 4] = Stuck OutOfBounds.
Proof.
  split; [vm_compute; reflexivity|]. split; [simpl; lia | vm_compute; reflexivity].
Qed.

(** C10. Counter ordering: in every state that a sequence of read and write
    accesses reaches after construction, diskWrites <= pageFaults <=
    tlbMisses. *)
Theorem counter_ordering (sizeVM sizePM pageSize sizeTLB pageReplAlg tlbReplAlg : Z) (m : VM) :
  reachable sizeVM sizePM pageSize sizeTLB pageReplAlg tlbReplAlg m ->
  dc m <= pc m <= tc m.
Proof.
  intros H. apply counters_reachable in H as (H1 & H2 & _). lia.
Qed.

Lemma counter_ordering_witness :
  reachable 4 2 2 1 0 0 demo4 /\ dc demo4 <= pc demo4 <= tc demo4.
Proof.
  split; [exact demo4_reachable|].
  exact (counter_ordering 4 2 2 1 0 0 demo4 demo4_reachable).
Defined.

(** * Further properties of the code *)

(** ** createVM *)

(** X1. The initial state (createVM): for sizes that an [int] holds,
    [createVM] returns a handle; frame f holds virtual page f, TLB slot j
    maps page j to frame j, the counters, the cursors and the clock are 0,
    no frame is dirty, and the words of the memory and of the disk are all
    0. *)
Theorem createVM_initial_state
    (sizeVM sizePM pageSize sizeTLB pageReplAlg tlbReplAlg : Z) :
  0 <= sizePM <= INT_MAX -> 0 <= sizeTLB <= INT_MAX ->
  exists m0,
    createVM sizeVM sizePM pageSize sizeTLB pageReplAlg tlbReplAlg = Done (Handle m0) /\
    len (pvirt m0) = sizePM /\ (forall f, 0 <= f < sizePM -> rd (pvirt m0) f = f) /\
    len (ptlb m0) = sizeTLB /\ len (vtlb m0) = sizeTLB /\
    (forall j, 0 <= j < sizeTLB -> rd (vtlb m0) j = j /\ rd (ptlb m0) j = j) /\
    statistics m0 = (0, 0, 0) /\ timestamp m0 = 0 /\ rrp m0 = 0 /\ rrt m0 = 0 /\
    len (dirty m0) = sizePM /\ Forall (fun d => d = 0) (dirty m0) /\
    len (mem m0) = (sizePM * pageSize) mod 4294967296 /\
    Forall (fun w => w = 0) (mem m0) /\
    len (disk m0) = (sizeVM * pageSize) mod 4294967296 /\
    Forall (fun w => w = 0) (disk m0).
Proof.
  intros HP HT.
  destruct (fill_total (calloc sizePM) sizePM HP) as [pv Hpv];
    [rewrite len_calloc; lia|].
  destruct (fill_total (calloc sizeTLB) sizeTLB HT) as [pt Hpt];
    [rewrite len_calloc; lia|].
  eexists. split.
  { unfold createVM. rewrite Hpv, Hpt. cbn [obind]. reflexivity. }
  apply fill_Done in Hpv as (L1 & _ & _ & I1); [|lia].
  apply fill_Done in Hpt as (L2 & _ & _ & I2); [|lia].
  rewrite len_calloc in L1, L2 by lia.
  assert (Hz : forall n, Forall (fun w => w = 0) (calloc n)).
  { intros n. unfold calloc. apply Forall_replicate. reflexivity. }
  assert (Hu : forall z, 0 <= u32 z).
  { intros z. unfold u32. apply Z.mod_pos_bound. lia. }
  vmsimpl. unfold statistics. vmsimpl.
  rewrite !len_calloc by (try apply Hu; lia).
  repeat split; auto; apply I2; assumption.
Qed.

Lemma createVM_initial_state_witness :
  exists m0, createVM 4 2 2 1 0 0 = Done (Handle m0) /\
             rd (pvirt m0) 1 = 1 /\ len (disk m0) = 8.
Proof.
  destruct (createVM_initial_state 4 2 2 1 0 0)
    as (m0 & H & _ & Hp & _ & _ & _ & _ & _ & _ & _ & _ & _ & _ & _ & Hd & _);
    [unfold INT_MAX; lia | unfold INT_MAX; lia |].
  exists m0. split; [exact H|]. split; [apply Hp; lia | exact Hd].
Defined.

(** ** The lookups *)

(** X2. Page-table lookup (lookup_in_mem): when the page table has its
    [ppage] entries the lookup returns; the result is the lowest frame that
    holds the page, and it is -1 exactly when no frame holds it. *)
Theorem lookup_in_mem_lowest_frame (m : VM) (p : Z) :
  ppage m <= len (pvirt m) ->
  exists f, lookup_in_mem m p = Done f /\
    ((f = -1 /\ forall g, 0 <= g < ppage m -> rd (pvirt m) g <> p) \/
     (0 <= f < ppage m /\ rd (pvirt m) f = p /\
      forall g, 0 <= g < f -> rd (pvirt m) g <> p)).
Proof.
  intros HL. unfold lookup_in_mem.
  destruct (scan_total (pvirt m) p (ppage m) HL) as [f Hf].
  exists f. split; [exact Hf|].
  apply scan_Done in Hf as [[-> Ha]|(Hi & _ & Hx & Hlow)].
  - left. split; [reflexivity|]. intros g Hg. now apply Ha.
  - right. auto.
Qed.

Lemma lookup_in_mem_lowest_frame_witness :
  exists f, lookup_in_mem demo3 2 = Done f /\
    ((f = -1 /\ forall g, 0 <= g < ppage demo3 -> rd (pvirt demo3) g <> 2) \/
     (0 <= f < ppage demo3 /\ rd (pvirt demo3) f = 2 /\
      forall g, 0 <= g < f -> rd (pvirt demo3) g <> 2)).
Proof. apply (lookup_in_mem_lowest_frame demo3 2). vm_compute. discriminate. Defined.

(** X3. TLB lookup (lookup_in_tlb_and_mark): when the three TLB arrays have
    their [tlb] entries the lookup returns.  On a miss it returns -1 and
    leaves the state alone; on a hit it returns the frame of the lowest slot
    that holds the page and changes nothing but that slot's timestamp, which
    becomes the current clock value. *)
Theorem lookup_in_tlb_and_mark_lowest_slot (m : VM) (p : Z) :
  tlb m <= len (vtlb m) -> tlb m <= len (ptlb m) -> tlb m <= len (tlbtime m) ->
  exists m' r, lookup_in_tlb_and_mark m p = Done (m', r) /\
    ((r = -1 /\ m' = m /\ forall j, 0 <= j < tlb m -> rd (vtlb m) j <> p) \/
     (exists i, 0 <= i < tlb m /\ rd (vtlb m) i = p /\
        (forall j, 0 <= j < i -> rd (vtlb m) j <> p) /\
        r = rd (ptlb m) i /\
        m' = with_tlbtime m (upd (tlbtime m) i (timestamp m)))).
Proof.
  intros Lv Lp Lt.
  destruct (resident_or_absent (vtlb m) (tlb m) p Lv) as [[i Hi]|Ha].
  - exists (with_tlbtime m (upd (tlbtime m) i (timestamp m))), (rd (ptlb m) i).
    pose proof Hi as (Hb & _ & Hx & Hlow).
    split; [apply lookup_in_tlb_and_mark_hit; auto; lia|].
    right. exists i. auto.
  - exists m, (-1). split; [now apply lookup_in_tlb_and_mark_miss|].
    left. split; [reflexivity|]. split; [reflexivity|].
    intros j Hj. now apply Ha.
Qed.

Lemma lookup_in_tlb_and_mark_lowest_slot_witness :
  exists m' r, lookup_in_tlb_and_mark demo3 2 = Done (m', r) /\
    ((r = -1 /\ m' = demo3 /\ forall j, 0 <= j < tlb demo3 -> rd (vtlb demo3) j <> 2) \/
     (exists i, 0 <= i < tlb demo3 /\ rd (vtlb demo3) i = 2 /\
        (forall j, 0 <= j < i -> rd (vtlb demo3) j <> 2) /\
        r = rd (ptlb demo3) i /\
        m' = with_tlbtime demo3 (upd (tlbtime demo3) i (timestamp demo3)))).
Proof.
  apply (lookup_in_tlb_and_mark_lowest_slot demo3 2); vm_compute; discriminate.
Defined.

(** ** minindex *)

(** X4. No candidate (minindex): over [n] entries of an array that has them,
    [minindex] returns -1 exactly when no entry is below 2147483647, the
    value it starts from; in particular for [n <= 0]. *)
Theorem minindex_no_candidate (p : list Z) (n : Z) :
  n <= len p ->
  (minindex p n = Done (-1) <-> forall j, 0 <= j < n -> 2147483647 <= rd p j).
Proof.
  intros HL. split.
  - intros H. apply minindex_Done in H as [[_ H]|(Hi & _)]; [exact H | lia].
  - intros Hall. destruct (minindex_total p n HL) as [r Hr].
    rewrite Hr. f_equal.
    unfold minindex in Hr.
    apply minindex_from_Done in Hr as (_ & v & Hm).
    + destruct Hm as [(-> & _)|(Hi & -> & Hlt & _)]; [reflexivity|].
      assert (Hr : 0 <= r < n) by lia. specialize (Hall r Hr). lia.
    + pose proof (len_nonneg p). lia.
    + left. split; [reflexivity|]. split; [reflexivity|]. intros j Hj. lia.
Qed.

Lemma minindex_no_candidate_witness :
  minindex [2147483647; 2147483647] 2 = Done (-1) <->
  forall j, 0 <= j < 2 -> 2147483647 <= rd [2147483647; 2147483647] j.
Proof.
  apply (minindex_no_candidate [2147483647; 2147483647] 2). vm_compute. discriminate.
Defined.

(** ** Configurations without frames, without TLB slots or with empty pages *)

Lemma exec_not_fatal (m : VM) (op : access) : not_fatal (exec m op).
Proof.
  destruct (accessors_not_fatal m (addr_of op) 0) as (H1 & H2 & _).
  destruct op as [a|a|a v|a v]; simpl.
  - apply obind_not_fatal; [exact H1|]. intros [? ?]. apply Done_not_fatal.
  - apply obind_not_fatal; [exact H2|]. intros [? ?]. apply Done_not_fatal.
  - apply (accessors_not_fatal m a v).
  - apply (accessors_not_fatal m a v).
Qed.

Lemma not_Done_Stuck {A : Type} (o : outcome A) :
  not_fatal o -> (forall a, o <> Done a) -> exists f, o = Stuck f.
Proof.
  intros Hf Hd. destruct o as [a| |f].
  - destruct (Hd a eq_refl).
  - destruct (Hf eq_refl).
  - now exists f.
Qed.

Lemma victim_none (alg c : Z) (times : list Z) (c' v : Z) :
  victim alg c 0 times c' v -> 0 <= v -> False.
Proof.
  intros [(_ & Hn & _)|(_ & _ & Hm)] Hv; [lia|].
  vm_compute in Hm. injection Hm as <-. lia.
Qed.

(** No translation completes in a state without TLB slots, without frames
    or with pages of zero words. *)
Lemma real_address_degenerate (m : VM) (a dty : Z) (m' : VM) (w : Z) :
  tlb m = 0 \/ (len (ptime m) = 0 /\ len (dirty m) = 0 /\ ppage m = 0) \/
  u32 (pagesize m) = 0 ->
  real_address m a dty = Done (m', w) -> False.
Proof.
  intros Hd H. apply real_address_Done in H as (_ & Hz & H).
  destruct Hd as [Ht|[(Lt & Ld & Hp)|Hs]]; [| |contradiction].
  - destruct H as [H|[H|H]].
    + destruct H as (i & (Hi & _) & _). lia.
    + destruct H as (t & fr & i & r & t' & _ & _ & _ & _ & _ & _ & (Hv & Hi & _) & _).
      vmsimpl. rewrite Ht in Hv. apply victim_none in Hv; [assumption | lia].
    + destruct H as (t & fr & r & c & dk & i & r' & t' & _ & _ & _ & _ & _ & _ & _ & _ &
                     _ & _ & _ & _ & _ & _ & _ & _ & Hin & _).
      destruct Hin as [((Hi & _) & _)|(_ & Hv & Hi & _)]; vmsimpl; [lia|].
      rewrite Ht in Hv. apply victim_none in Hv; [assumption | lia].
  - destruct H as [H|[H|H]].
    + destruct H as (i & _ & _ & _ & _ & (Hm & _) & _). lia.
    + destruct H as (t & fr & i & r & t' & _ & _ & (Hf & _) & _). lia.
    + destruct H as (t & fr & r & c & dk & i & r' & t' & _ & _ & _ & _ & _ & Hf & _). lia.
Qed.

(** X5. Degenerate configurations (createVM, real_address): [createVM]
    accepts a physical memory of no frames, a TLB of no slots and pages of
    no words, and on the simulation it returns no access has a defined
    behaviour: there is no frame or slot to choose, or the page number is a
    division by zero. *)
Theorem degenerate_configuration_unusable
    (sizeVM sizePM pageSize sizeTLB pageReplAlg tlbReplAlg : Z) (m0 : VM) (op : access) :
  sizePM = 0 \/ sizeTLB = 0 \/ pageSize = 0 ->
  createVM sizeVM sizePM pageSize sizeTLB pageReplAlg tlbReplAlg = Done (Handle m0) ->
  exists f, exec m0 op = Stuck f.
Proof.
  intros Hd Hc. apply not_Done_Stuck; [apply exec_not_fatal|].
  intros m' He. apply exec_Done in He as (m1 & w & Hr & _).
  apply createVM_Done in Hc as (pv & pt & vt & _ & _ & _ & Hh). injection Hh as ->.
  revert Hr. apply real_address_degenerate. vmsimpl.
  destruct Hd as [-> | [-> | ->]]; auto.
Qed.

Lemma degenerate_configuration_unusable_witness :
  exists f, exec notlb0 (ReadInt 0) = Stuck f.
Proof.
  apply (degenerate_configuration_unusable 4 2 2 0 0 0 notlb0 (ReadInt 0));
    [right; left; reflexivity | vm_compute; reflexivity].
Defined.

(** ** The clock and the counters *)

Lemma clock_in_range_exec (m : VM) (op : access) (m' : VM) :
  exec m op = Done m' -> timestamp m' <= INT_MAX.
Proof.
  intros H. pose proof (exec_timestamp _ _ _ H) as E.
  apply exec_Done in H as (m1 & w & H & _).
  apply real_address_Done in H as (Hr & _). lia.
Qed.

(** X6. The clock (real_address): every access advances the clock by one,
    so after a sequence of accesses on a fresh simulation the clock is the
    number of accesses; a simulation completes at most 2147483647 of them,
    and neither the TLB misses nor the page faults nor the disk writes
    outnumber the accesses. *)
Theorem clock_counts_accesses
    (sizeVM sizePM pageSize sizeTLB pageReplAlg tlbReplAlg : Z)
    (m0 : VM) (ops : list access) (m : VM) :
  createVM sizeVM sizePM pageSize sizeTLB pageReplAlg tlbReplAlg = Done (Handle m0) ->
  run m0 ops = Done m ->
  timestamp m = Z.of_nat (length ops) /\ Z.of_nat (length ops) <= INT_MAX /\
  0 <= dc m /\ tc m <= Z.of_nat (length ops).
Proof.
  intros Hc Hr.
  assert (Rm : reachable sizeVM sizePM pageSize sizeTLB pageReplAlg tlbReplAlg m)
    by (exists m0, ops; auto).
  apply counters_reachable in Rm as (Hd & _ & Ht).
  pose proof (run_timestamp _ _ _ Hr) as E.
  apply createVM_Done in Hc as (pv & pt & vt & _ & _ & _ & Hh). injection Hh as ->.
  vmsimpl. rewrite Z.add_0_l in E.
  assert (Hmax : timestamp m <= INT_MAX).
  { revert Hr. apply (run_invariant (fun s => timestamp s <= INT_MAX)).
    - intros s op s' _ He. eapply clock_in_range_exec, He.
    - vmsimpl. unfold INT_MAX. lia. }
  lia.
Qed.

Lemma clock_counts_accesses_witness :
  timestamp demo4 = Z.of_nat (length demo_ops) /\
  Z.of_nat (length demo_ops) <= INT_MAX /\
  0 <= dc demo4 /\ tc demo4 <= Z.of_nat (length demo_ops).
Proof.
  apply (clock_counts_accesses 4 2 2 1 0 0 demo0 demo_ops demo4);
    vm_compute; reflexivity.
Defined.

(** X7. The cost of one access (real_address): an access is a TLB hit and
    moves no counter, or a TLB miss that finds the page in the page table
    and counts one TLB miss, or a page fault that counts one TLB miss, one
    page fault and at most one disk write. *)
Theorem access_cost (m : VM) (op : access) (m' : VM) :
  exec m op = Done m' ->
  (tc m' = tc m /\ pc m' = pc m /\ dc m' = dc m) \/
  (tc m' = tc m + 1 /\ pc m' = pc m /\ dc m' = dc m) \/
  (tc m' = tc m + 1 /\ pc m' = pc m + 1 /\ (dc m' = dc m \/ dc m' = dc m + 1)).
Proof.
  intros H. apply exec_Done in H as (m1 & w & H & Hs).
  apply stored_counters in Hs as (-> & -> & -> & _).
  apply real_address_Done in H as (_ & _ & [H|[H|H]]).
  - destruct H as (i & _ & _ & _ & _ & _ & _ & _ & ->). vmsimpl. auto.
  - destruct H as (t & fr & i & r & t' & _ & _ & _ & _ & _ & _ & _ & _ & _ & ->).
    vmsimpl. auto.
  - destruct H as (t & fr & r & c & dk & i & r' & t' & _ & _ & _ & _ & _ & _ & _ & _ &
                   Hwb & _ & _ & _ & _ & _ & _ & _ & _ & _ & _ & ->).
    vmsimpl. right. right. split; [reflexivity|]. split; [reflexivity|].
    destruct Hwb as [(_ & -> & _)|(_ & _ & -> & _)]; auto.
Qed.

Lemma access_cost_witness :
  (tc demo3 = tc demo2 /\ pc demo3 = pc demo2 /\ dc demo3 = dc demo2) \/
  (tc demo3 = tc demo2 + 1 /\ pc demo3 = pc demo2 /\ dc demo3 = dc demo2) \/
  (tc demo3 = tc demo2 + 1 /\ pc demo3 = pc demo2 + 1 /\
   (dc demo3 = dc demo2 \/ dc demo3 = dc demo2 + 1)).
Proof. apply (access_cost demo2 (ReadInt 4) demo3). vm_compute. reflexivity. Defined.



(** ** Accesses inside the virtual space *)

(** X9. Memory safety (createVM, real_address and the accessors): in a
    configuration with 1 <= sizeTLB <= sizePM < sizeVM, pageSize >= 1 and
    sizeVM * pageSize * 4 <= 2147483647, [createVM] returns a handle and
    every sequence of at most 2147483647 accesses to addresses below
    sizeVM * pageSize completes: no array is indexed out of bounds, no
    [memcpy] leaves the memory or the disk, no [int] overflows and nothing
    is divided by zero. *)
Theorem in_range_accesses_are_defined
    (sizeVM sizePM pageSize sizeTLB pageReplAlg tlbReplAlg : Z) (ops : list access) :
  sized sizeVM sizePM pageSize sizeTLB ->
  Forall (fun op => 0 <= addr_of op < sizeVM * pageSize) ops ->
  Z.of_nat (length ops) <= INT_MAX ->
  exists m0 m,
    createVM sizeVM sizePM pageSize sizeTLB pageReplAlg tlbReplAlg = Done (Handle m0) /\
    run m0 ops = Done m.
Proof.
  intros Hz Hall Hlen.
  destruct (createVM_total sizeVM sizePM pageSize sizeTLB pageReplAlg tlbReplAlg Hz)
    as [m0 Hc].
  destruct (createVM_sound _ _ _ _ _ _ _ Hz Hc) as (S0 & R0 & T0 & E1 & E2 & _).
  destruct (run_total ops m0 S0 R0) as [m Hm].
  - unfold in_range. now rewrite E1, E2.
  - lia.
  - now exists m0, m.
Qed.

Lemma in_range_accesses_are_defined_witness :
  exists m0 m, createVM 4 2 2 1 1 0 = Done (Handle m0) /\
               run m0 [WriteInt 7 3; ReadInt 0; ReadFloat 5] = Done m.
Proof.
  apply (in_range_accesses_are_defined 4 2 2 1 1 0 [WriteInt 7 3; ReadInt 0; ReadFloat 5]).
  - unfold sized, INT_MAX. lia.
  - repeat constructor; simpl; lia.
  - unfold INT_MAX. simpl. lia.
Defined.

Lemma exec_ReadInt (m : VM) (a : Z) (m' : VM) (v : Z) :
  readInt m a = Done (m', v) -> exec m (ReadInt a) = Done m'.
Proof. intros H. simpl. now rewrite H. Qed.

(** The reads of a sequence of accesses return what the words of the
    virtual memory are, whatever the translations do in between. *)
Lemma outputs_flat (ops : list access) (m : VM) (words : list Z) :
  sound m -> roomy m -> len words = vpage m * pagesize m ->
  (forall b, in_range m b -> vword m b = rd words b) ->
  Forall (fun op => in_range m (addr_of op)) ops ->
  timestamp m + Z.of_nat (length ops) <= INT_MAX ->
  outputs m ops = Done (flat_outputs words ops).
Proof.
  revert m words.
  assert (R : forall ops (IH : forall m words, sound m -> roomy m ->
                 len words = vpage m * pagesize m ->
                 (forall b, in_range m b -> vword m b = rd words b) ->
                 Forall (fun op => in_range m (addr_of op)) ops ->
                 timestamp m + Z.of_nat (length ops) <= INT_MAX ->
                 outputs m ops = Done (flat_outputs words ops))
              m words a, sound m -> roomy m -> len words = vpage m * pagesize m ->
              (forall b, in_range m b -> vword m b = rd words b) ->
              in_range m a ->
              Forall (fun op => in_range m (addr_of op)) ops ->
              timestamp m + Z.of_nat (length ops) + 1 <= INT_MAX ->
              ('(model, v) <- readInt m a ; vs <- outputs model ops ; Done (v :: vs))
              = Done (rd words a :: flat_outputs words ops)).
  { intros ops0 IH m words a Sm Rm Lw Hv Ha Hall Ht.
    destruct (readInt_total m a Sm Rm Ha) as [m' H]; [lia|].
    rewrite H. cbn [obind].
    destruct (readInt_value _ _ _ _ Sm Ha H) as (Sm' & _ & Hv').
    pose proof (exec_ReadInt _ _ _ _ H) as He.
    pose proof (exec_config _ _ _ He) as (C1 & C2 & _).
    pose proof (exec_timestamp _ _ _ He) as Et.
    rewrite (IH m' words), (Hv a Ha); [reflexivity|exact Sm'| | | | |].
    - eapply roomy_exec; eauto.
    - now rewrite C1, C2.
    - intros b Hb. assert (Hb' : in_range m b) by (unfold in_range in *; now rewrite <- C1, <- C2).
      rewrite Hv' by exact Hb'. now apply Hv.
    - eapply Forall_impl; [exact Hall|]. intros op Hop. cbv beta in Hop.
      unfold in_range in *. now rewrite C1, C2.
    - lia. }
  assert (W : forall ops (IH : forall m words, sound m -> roomy m ->
                 len words = vpage m * pagesize m ->
                 (forall b, in_range m b -> vword m b = rd words b) ->
                 Forall (fun op => in_range m (addr_of op)) ops ->
                 timestamp m + Z.of_nat (length ops) <= INT_MAX ->
                 outputs m ops = Done (flat_outputs words ops))
              m words a v, sound m -> roomy m -> len words = vpage m * pagesize m ->
              (forall b, in_range m b -> vword m b = rd words b) ->
              in_range m a ->
              Forall (fun op => in_range m (addr_of op)) ops ->
              timestamp m + Z.of_nat (length ops) + 1 <= INT_MAX ->
              (model <- write_address m a v ; outputs model ops)
              = Done (flat_outputs (upd words a v) ops)).
  { intros ops0 IH m words a v Sm Rm Lw Hv Ha Hall Ht.
    destruct (write_address_total m a v Sm Rm Ha) as [m' H]; [lia|].
    rewrite H. cbn [obind].
    destruct (write_address_value _ _ _ _ Sm Ha H) as (Sm' & Hv' & _).
    assert (He : exec m (WriteInt a v) = Done m') by exact H.
    pose proof (exec_config _ _ _ He) as (C1 & C2 & _).
    pose proof (exec_timestamp _ _ _ He) as Et.
    apply IH; [exact Sm'| | | | |].
    - eapply roomy_exec; eauto.
    - now rewrite len_upd, C1, C2.
    - intros b Hb. assert (Hb' : in_range m b) by (unfold in_range in *; now rewrite <- C1, <- C2).
      rewrite Hv' by exact Hb'. unfold in_range in Ha, Hb'.
      rewrite rd_upd by lia. destruct (b =? a); [reflexivity|]. now apply Hv.
    - eapply Forall_impl; [exact Hall|]. intros op Hop. cbv beta in Hop.
      unfold in_range in *. now rewrite C1, C2.
    - lia. }
  induction ops as [|op ops IH]; intros m words Sm Rm Lw Hv Hall Ht.
  - reflexivity.
  - apply Forall_cons in Hall as [Ha Hall].
    assert (Ht' : timestamp m + Z.of_nat (length ops) + 1 <= INT_MAX)
      by (simpl length in Ht; lia).
    clear Ht.
    destruct op as [a|a|a v|a v]; simpl in Ha.
    + apply (R ops IH); assumption.
    + apply (R ops IH); assumption.
    + apply (W ops IH); assumption.
    + apply (W ops IH); assumption.
Qed.

(** Every word of a fresh virtual memory is 0. *)
Lemma vword_initial
    (sizeVM sizePM pageSize sizeTLB pageReplAlg tlbReplAlg : Z) (m0 : VM) (b : Z) :
  sized sizeVM sizePM pageSize sizeTLB ->
  createVM sizeVM sizePM pageSize sizeTLB pageReplAlg tlbReplAlg = Done (Handle m0) ->
  0 <= b < sizeVM * pageSize -> vword m0 b = 0.
Proof.
  intros Hz Hc Hb.
  destruct (createVM_sound _ _ _ _ _ _ _ Hz Hc) as (S0 & _ & _ & E1 & E2 & E3 & _).
  destruct S0 as ((Lp & _) & _ & _ & (Hs & _ & _ & Lm & Ld & _)).
  assert (Zm : forall i, 0 <= i < len (mem m0) -> rd (mem m0) i = 0).
  { apply createVM_Done in Hc as (pv & pt & vt & _ & _ & _ & Hh). injection Hh as ->.
    vmsimpl. intros i Hi. apply rd_calloc.
    pose proof (len_nonneg (calloc (u32 (sizePM * pageSize)))) as Hn.
    unfold calloc, len in Hi, Hn |- *. rewrite length_replicate in Hi. lia. }
  assert (Zd : forall i, 0 <= i < len (disk m0) -> rd (disk m0) i = 0).
  { apply createVM_Done in Hc as (pv & pt & vt & _ & _ & _ & Hh). injection Hh as ->.
    vmsimpl. intros i Hi. apply rd_calloc.
    unfold calloc, len in Hi |- *. rewrite length_replicate in Hi. lia. }
  destruct (resident_or_absent (pvirt m0) (ppage m0) (b / pagesize m0)) as [[f Hf]|Ha];
    [lia| |].
  - rewrite (vword_resident m0 b f) by (lia || assumption).
    apply Zm. rewrite Lm. destruct Hf as (Hf & _).
    apply page_bound; [lia | lia |]. apply Z.mod_pos_bound. lia.
  - rewrite vword_absent by (lia || assumption).
    apply Zd. rewrite Ld, E1, E2. exact Hb.
Qed.

(** X10. The paged memory is a flat memory (real_address, the accessors):
    in a configuration with 1 <= sizeTLB <= sizePM < sizeVM, pageSize >= 1
    and sizeVM * pageSize * 4 <= 2147483647, the values that the reads of a
    sequence of in-range accesses return are those that the same accesses
    return on a plain array of sizeVM * pageSize words that starts all 0:
    TLB, page table, replacement and write-back are invisible in the
    values. *)
Theorem paged_memory_is_flat_memory
    (sizeVM sizePM pageSize sizeTLB pageReplAlg tlbReplAlg : Z)
    (m0 : VM) (ops : list access) :
  sized sizeVM sizePM pageSize sizeTLB ->
  createVM sizeVM sizePM pageSize sizeTLB pageReplAlg tlbReplAlg = Done (Handle m0) ->
  Forall (fun op => 0 <= addr_of op < sizeVM * pageSize) ops ->
  Z.of_nat (length ops) <= INT_MAX ->
  outputs m0 ops = Done (flat_outputs (calloc (sizeVM * pageSize)) ops).
Proof.
  intros Hz Hc Hall Hlen.
  destruct (createVM_sound _ _ _ _ _ _ _ Hz Hc) as (S0 & R0 & T0 & E1 & E2 & _).
  pose proof Hz as (HS & HT & HP & HV).
  apply outputs_flat; try assumption.
  - rewrite len_calloc, E1, E2; nia.
  - intros b Hb. unfold in_range in Hb. rewrite E1, E2 in Hb.
    rewrite (vword_initial _ _ _ _ _ _ _ b Hz Hc Hb).
    symmetry. now apply rd_calloc.
  - unfold in_range. now rewrite E1, E2.
  - lia.
Qed.

Lemma paged_memory_is_flat_memory_witness :
  outputs demo0 [WriteInt 0 7; WriteFloat 2 9; ReadInt 4; ReadFloat 0; ReadInt 2]
  = Done [0; 7; 9].
Proof.
  apply (paged_memory_is_flat_memory 4 2 2 1 0 0 demo0
           [WriteInt 0 7; WriteFloat 2 9; ReadInt 4; ReadFloat 0; ReadInt 2]).
  - unfold sized, INT_MAX. lia.
  - vm_compute. reflexivity.
  - repeat constructor; simpl; lia.
  - unfold INT_MAX. simpl. lia.
Defined.

Lemma real_address_aligned (m : VM) (a dty : Z) (m' : VM) (w : Z) :
  real_address m a dty = Done (m', w) -> w mod 4 = 0.
Proof.
  assert (Hw : forall fr add, addr m fr add mod 4 = 0).
  { intros fr add. unfold addr.
    replace (fr * pagesize m * 4 + add * 4) with ((fr * pagesize m + add) * 4) by lia.
    apply Z_mod_mult. }
  intros H. apply real_address_Done in H as (_ & _ & [H|[H|H]]).
  - destruct H as (i & _ & _ & _ & _ & _ & _ & -> & _). apply Hw.
  - destruct H as (t & fr & i & r & t' & _ & _ & _ & _ & _ & -> & _). apply Hw.
  - destruct H as (t & fr & r & c & dk & i & r' & t' & _ & _ & _ & _ & _ & _ & _ & _ &
                   _ & _ & _ & _ & _ & _ & _ & -> & _). apply Hw.
Qed.

(** X11. The translation (real_address): in a configuration as above and
    after any in-range accesses, the translation of an in-range address [a]
    returns the byte offset of word [a mod pageSize] of a frame that, when
    the call returns, holds page [a / pageSize]; for a write that frame is
    then dirty. *)
Theorem translation_reaches_the_page
    (sizeVM sizePM pageSize sizeTLB pageReplAlg tlbReplAlg : Z)
    (m0 : VM) (ops : list access) (m : VM) (a dty : Z) (m' : VM) (w : Z) :
  sized sizeVM sizePM pageSize sizeTLB ->
  createVM sizeVM sizePM pageSize sizeTLB pageReplAlg tlbReplAlg = Done (Handle m0) ->
  Forall (fun op => 0 <= addr_of op < sizeVM * pageSize) ops ->
  run m0 ops = Done m ->
  0 <= a < sizeVM * pageSize ->
  real_address m a dty = Done (m', w) ->
  exists fr, 0 <= fr < sizePM /\ rd (pvirt m') fr = a / pageSize /\
             w = (fr * pageSize + a mod pageSize) * 4 /\
             (dty <> 0 -> rd (dirty m') fr = 1).
Proof.
  intros Hz Hc Hall Hr Ha H.
  destruct (sound_reachable _ _ _ _ _ _ _ _ _ Hz Hc Hall Hr)
    as (Sm & _ & _ & E1 & E2 & E3 & _).
  pose proof Sm as (Hco & _ & _ & (Hs & Hv & Ld & _)).
  destruct (page_of_in_range m a Hs Hv) as (_ & Ep & Eo & _); [now rewrite E1, E2|].
  pose proof (real_address_aligned _ _ _ _ _ H) as Hal.
  destruct (real_address_frame _ _ _ _ _ Hco Ld H) as (fr & Hfr & Hx & Hw & Hd).
  exists fr. rewrite Ep, Eo, E1 in *. rewrite E3 in Hfr.
  split; [exact Hfr|]. split; [exact Hx|]. split; [|exact Hd].
  rewrite <- Hw. pose proof (Z.div_mod w 4 ltac:(lia)). lia.
Qed.

Lemma translation_reaches_the_page_witness :
  exists fr, 0 <= fr < 2 /\ rd (pvirt demo3) fr = 4 / 2 /\
             0 = (fr * 2 + 4 mod 2) * 4 /\
             (0 <> 0 -> rd (dirty demo3) fr = 1).
Proof.
  apply (translation_reaches_the_page 4 2 2 1 0 0 demo0 [WriteInt 0 7; WriteInt 2 9]
           demo2 4 0 demo3 0).
  - unfold sized, INT_MAX. lia.
  - vm_compute. reflexivity.
  - repeat constructor; simpl; lia.
  - vm_compute. reflexivity.
  - lia.
  - vm_compute. reflexivity.
Defined.

(** X12. The page table and the memory (real_address): in a configuration
    as above and after any in-range accesses, every frame holds a page of
    the virtual space, no page is in two frames, no frame is in two TLB
    slots, and a frame that is not dirty holds, word for word, what the disk
    holds for its page. *)
Theorem page_table_invariants
    (sizeVM sizePM pageSize sizeTLB pageReplAlg tlbReplAlg : Z)
    (m0 : VM) (ops : list access) (m : VM) :
  sized sizeVM sizePM pageSize sizeTLB ->
  createVM sizeVM sizePM pageSize sizeTLB pageReplAlg tlbReplAlg = Done (Handle m0) ->
  Forall (fun op => 0 <= addr_of op < sizeVM * pageSize) ops ->
  run m0 ops = Done m ->
  (forall f, 0 <= f < sizePM -> 0 <= rd (pvirt m) f < sizeVM) /\
  (forall f g, 0 <= f < sizePM -> 0 <= g < sizePM ->
               rd (pvirt m) f = rd (pvirt m) g -> f = g) /\
  (forall i j, 0 <= i < sizeTLB -> 0 <= j < sizeTLB ->
               rd (ptlb m) i = rd (ptlb m) j -> i = j) /\
  (forall f o, 0 <= f < sizePM -> 0 <= o < pageSize -> rd (dirty m) f = 0 ->
     rd (mem m) (f * pageSize + o) = rd (disk m) (rd (pvirt m) f * pageSize + o)).
Proof.
  intros Hz Hc Hall Hr.
  destruct (sound_reachable _ _ _ _ _ _ _ _ _ Hz Hc Hall Hr)
    as (Sm & _ & _ & E1 & E2 & E3 & E4).
  destruct Sm as ((_ & _ & _ & Ip & It & _) & _ & _ & (_ & _ & _ & _ & _ & Hv & Hm)).
  rewrite E1, E2, E3, E4 in *. auto.
Qed.

Lemma page_table_invariants_witness :
  (forall f, 0 <= f < 2 -> 0 <= rd (pvirt demo4) f < 4) /\
  (forall f g, 0 <= f < 2 -> 0 <= g < 2 ->
               rd (pvirt demo4) f = rd (pvirt demo4) g -> f = g) /\
  (forall i j, 0 <= i < 1 -> 0 <= j < 1 ->
               rd (ptlb demo4) i = rd (ptlb demo4) j -> i = j) /\
  (forall f o, 0 <= f < 2 -> 0 <= o < 2 -> rd (dirty demo4) f = 0 ->
     rd (mem demo4) (f * 2 + o) = rd (disk demo4) (rd (pvirt demo4) f * 2 + o)).
Proof.
  apply (page_table_invariants 4 2 2 1 0 0 demo0 demo_ops demo4).
  - unfold sized, INT_MAX. lia.
  - vm_compute. reflexivity.
  - repeat constructor; simpl; lia.
  - vm_compute. reflexivity.
Defined.

(** ** Locality *)

(** When the call returns, a TLB slot holds the page of the address. *)
Lemma real_address_cached (m : VM) (a dty : Z) (m' : VM) (w : Z) :
  coherent m -> real_address m a dty = Done (m', w) ->
  exists i, 0 <= i < tlb m /\ rd (vtlb m') i = page_of m a.
Proof.
  intros (_ & _ & Lv & _) H. unfold page_of.
  apply real_address_Done in H as (_ & _ & [H|[H|H]]).
  - destruct H as (i & (Hi & _ & Hx & _) & _ & _ & _ & _ & _ & _ & ->).
    exists i. vmsimpl. auto.
  - destruct H as (t & fr & i & r & t' & _ & _ & _ & _ & _ & _ & _ & _ & Hi & ->).
    exists i. vmsimpl. split; [lia|]. now apply rd_upd_eq.
  - destruct H as (t & fr & r & c & dk & i & r' & t' & _ & _ & _ & _ & _ & _ & _ & _ &
                   _ & _ & _ & _ & _ & _ & _ & _ & _ & _ & Hi & ->).
    exists i. vmsimpl. split; [lia|]. now apply rd_upd_eq.
Qed.

(** A translation of a page that a TLB slot holds is a TLB hit. *)
Lemma real_address_hit (m : VM) (a dty : Z) (m' : VM) (w : Z) :
  coherent m -> (exists i, 0 <= i < tlb m /\ rd (vtlb m) i = page_of m a) ->
  real_address m a dty = Done (m', w) ->
  tc m' = tc m /\ pc m' = pc m /\ dc m' = dc m /\
  vtlb m' = vtlb m /\ ptlb m' = ptlb m.
Proof.
  intros (_ & _ & Lv & _ & _ & Hc) (i & Hi & Hx) H. unfold page_of in Hx.
  assert (Hm : forall t, tlb_missed m (s32 (a / u32 (pagesize m))) t -> False).
  { intros t [[Hab _]|(j & (Hj & _) & _ & _ & Hneg & _)].
    - destruct (Hab _ Hi) as [_ Hne]. contradiction.
    - destruct (Hc _ Hj) as [Hq _]. lia. }
  apply real_address_Done in H as (_ & _ & [H|[H|H]]).
  - destruct H as (j & _ & _ & _ & _ & _ & _ & _ & ->). vmsimpl. auto.
  - destruct H as (t & fr & j & r & t' & Hmiss & _). destruct (Hm t Hmiss).
  - destruct H as (t & fr & r & c & dk & j & r' & t' & Hmiss & _). destruct (Hm t Hmiss).
Qed.

(** X13. Locality (real_address, addtlb, flushtlb): in a simulation with
    sizeTLB <= sizePM, an access that follows an access to the same page is
    a TLB hit: it moves none of the three counters and leaves the TLB
    mappings alone. *)
Theorem repeated_page_access_is_a_tlb_hit
    (sizeVM sizePM pageSize sizeTLB pageReplAlg tlbReplAlg : Z)
    (m : VM) (op : access) (m1 : VM) (op2 : access) (m2 : VM) :
  0 <= sizeTLB <= sizePM ->
  reachable sizeVM sizePM pageSize sizeTLB pageReplAlg tlbReplAlg m ->
  exec m op = Done m1 -> exec m1 op2 = Done m2 ->
  page_of m (addr_of op2) = page_of m (addr_of op) ->
  statistics m2 = statistics m1 /\ vtlb m2 = vtlb m1 /\ ptlb m2 = ptlb m1.
Proof.
  intros HT Rm H1 H2 Hp.
  pose proof (coherent_reachable _ _ _ _ _ _ _ HT Rm) as Hco.
  pose proof (coherent_exec _ _ _ Hco H1) as Hco1.
  pose proof (exec_config _ _ _ H1) as (C1 & _ & _ & _ & C5 & _).
  apply exec_Done in H1 as (x1 & w1 & R1 & St1).
  apply (real_address_cached _ _ _ _ _ Hco) in R1 as (i & Hi & Hx).
  apply stored_tables in St1 as (y1 & -> & _).
  apply exec_Done in H2 as (x2 & w2 & R2 & St2).
  pose proof (stored_counters _ _ _ _ St2) as (E1 & E2 & E3 & _).
  apply real_address_hit in R2 as (T1 & T2 & T3 & T4 & T5); [|exact Hco1|].
  - unfold statistics. rewrite E1, E2, E3, T1, T2, T3.
    split; [reflexivity|].
    destruct op2; simpl in St2; destruct St2 as [_ ->]; vmsimpl; auto.
  - exists i. vmsimpl. rewrite C5. split; [exact Hi|].
    unfold page_of in *. vmsimpl. rewrite C1. vmsimpl. congruence.
Qed.

Lemma repeated_page_access_is_a_tlb_hit_witness :
  statistics (with_ptime (with_tlbtime (with_timestamp demo3 4) [4]) [4; 2])
    = statistics demo3 /\
  vtlb (with_ptime (with_tlbtime (with_timestamp demo3 4) [4]) [4; 2]) = vtlb demo3 /\
  ptlb (with_ptime (with_tlbtime (with_timestamp demo3 4) [4]) [4; 2]) = ptlb demo3.
Proof.
  apply (repeated_page_access_is_a_tlb_hit 4 2 2 1 0 0 demo2 (ReadInt 4) demo3 (ReadInt 5)).
  - lia.
  - exact demo2_reachable.
  - vm_compute. reflexivity.
  - vm_compute. reflexivity.
  - vm_compute. reflexivity.
Defined.

Lemma upd_upd (l : list Z) (i x y : Z) : upd (upd l i x) i y = upd l i y.
Proof. unfold upd. apply list_insert_insert_eq. Qed.

(** The frame of the page that an access uses is stamped with the new clock
    value, and no other frame is stamped. *)
Lemma real_address_stamp (m : VM) (a dty : Z) (m' : VM) (w : Z) :
  coherent m -> real_address m a dty = Done (m', w) ->
  exists fr, 0 <= fr < len (ptime m) /\ 0 <= fr < ppage m /\
             rd (pvirt m') fr = page_of m a /\
             ptime m' = upd (ptime m) fr (timestamp m + 1).
Proof.
  intros (Lp & _ & _ & _ & _ & Hc) H. unfold page_of.
  apply real_address_Done in H as (_ & _ & [H|[H|H]]).
  - destruct H as (i & (Hi & _ & Hx & _) & _ & _ & _ & (Hm & _) & _ & _ & ->).
    destruct (Hc i Hi) as [Hr Hv].
    exists (rd (ptlb m) i). vmsimpl. repeat split; first [lia | congruence].
  - destruct H as (t & fr & i & r & t' & _ & _ & (Hfr & _ & Hx & _) & (Hm & _) & _ & _ &
                   _ & _ & _ & ->).
    exists fr. vmsimpl. repeat split; first [lia | exact Hx].
  - destruct H as (t & fr & r & c & dk & i & r' & t' & _ & _ & _ & _ & Hv & _ & Hbv & Hbt &
                   _ & _ & _ & _ & _ & _ & _ & _ & _ & _ & _ & ->).
    exists fr. vmsimpl. rewrite upd_upd.
    repeat split; first [lia | apply rd_upd_eq; lia].
Qed.

(** ** What an access never does *)

(** X14. What stays fixed (real_address, the accessors): no sequence of
    accesses changes the page size, the numbers of virtual pages, of frames
    and of TLB slots, the two replacement algorithms, or the length of any
    of the six tables, of the memory or of the disk. *)
Theorem accesses_keep_configuration_and_sizes (ops : list access) (m m' : VM) :
  run m ops = Done m' ->
  (pagesize m' = pagesize m /\ vpage m' = vpage m /\ ppage m' = ppage m /\
   palg m' = palg m /\ tlb m' = tlb m /\ tlbalg m' = tlbalg m) /\
  (len (pvirt m') = len (pvirt m) /\ len (ptime m') = len (ptime m) /\
   len (dirty m') = len (dirty m) /\ len (ptlb m') = len (ptlb m) /\
   len (vtlb m') = len (vtlb m) /\ len (tlbtime m') = len (tlbtime m) /\
   len (mem m') = len (mem m) /\ len (disk m') = len (disk m)).
Proof.
  apply (run_invariant (fun s =>
    (pagesize s = pagesize m /\ vpage s = vpage m /\ ppage s = ppage m /\
     palg s = palg m /\ tlb s = tlb m /\ tlbalg s = tlbalg m) /\
    (len (pvirt s) = len (pvirt m) /\ len (ptime s) = len (ptime m) /\
     len (dirty s) = len (dirty m) /\ len (ptlb s) = len (ptlb m) /\
     len (vtlb s) = len (vtlb m) /\ len (tlbtime s) = len (tlbtime m) /\
     len (mem s) = len (mem m) /\ len (disk s) = len (disk m)))).
  - intros s op s' [(C1 & C2 & C3 & C4 & C5 & C6) (L1 & L2 & L3 & L4 & L5 & L6 & L7 & L8)] He.
    pose proof (exec_config _ _ _ He) as (D1 & D2 & D3 & D4 & D5 & D6).
    pose proof (exec_lengths _ _ _ He) as (K1 & K2 & K3 & K4 & K5 & K6 & K7 & K8).
    split; [repeat split; congruence|repeat split; congruence].
  - auto 20.
Qed.

Lemma accesses_keep_configuration_and_sizes_witness :
  (pagesize demo4 = pagesize demo0 /\ vpage demo4 = vpage demo0 /\
   ppage demo4 = ppage demo0 /\
   palg demo4 = palg demo0 /\ tlb demo4 = tlb demo0 /\ tlbalg demo4 = tlbalg demo0) /\
  (len (pvirt demo4) = len (pvirt demo0) /\ len (ptime demo4) = len (ptime demo0) /\
   len (dirty demo4) = len (dirty demo0) /\ len (ptlb demo4) = len (ptlb demo0) /\
   len (vtlb demo4) = len (vtlb demo0) /\ len (tlbtime demo4) = len (tlbtime demo0) /\
   len (mem demo4) = len (mem demo0) /\ len (disk demo4) = len (disk demo0)).
Proof.
  apply (accesses_keep_configuration_and_sizes demo_ops demo0 demo4).
  vm_compute. reflexivity.
Defined.

Lemma read_dirty_flag (op : access) : is_read op = true -> dirty_flag op = 0.
Proof. destruct op; simpl; congruence. Qed.

Lemma read_stored (m' : VM) (w : Z) (op : access) (m'' : VM) :
  is_read op = true -> stored m' w op m'' -> m'' = m'.
Proof. destruct op; simpl; intros H; [intros [_ ->]; reflexivity ..| |]; discriminate. Qed.

(** A read sets no dirty flag, and with no dirty frame it writes nothing to
    the disk. *)
Lemma read_keeps_clean (m : VM) (op : access) (m' : VM) :
  is_read op = true ->
  (forall f, 0 <= f < len (dirty m) -> rd (dirty m) f = 0) ->
  exec m op = Done m' ->
  (forall f, 0 <= f < len (dirty m') -> rd (dirty m') f = 0) /\
  dc m' = dc m /\ disk m' = disk m.
Proof.
  intros Hread Hcl H. apply exec_Done in H as (m1 & w & H & Hs).
  apply (read_stored _ _ _ _ Hread) in Hs as ->.
  rewrite (read_dirty_flag _ Hread) in H.
  apply real_address_Done in H as (_ & _ & [H|[H|H]]).
  - destruct H as (i & _ & _ & _ & _ & _ & _ & _ & ->). vmsimpl. auto.
  - destruct H as (t & fr & i & r & t' & _ & _ & _ & _ & _ & _ & _ & _ & _ & ->).
    vmsimpl. auto.
  - destruct H as (t & fr & r & c & dk & i & r' & t' & _ & _ & _ & _ & _ & Hbd & _ & _ &
                   Hwb & _ & _ & _ & _ & _ & _ & _ & _ & _ & _ & ->).
    vmsimpl.
    destruct Hwb as [(_ & -> & ->)|(Hne & _)]; [|destruct (Hne (Hcl fr Hbd))].
    change (0 =? 0) with true. cbv iota.
    split; [|auto]. intros f Hf. rewrite len_upd in Hf.
    rewrite rd_upd by lia. destruct (f =? fr); auto.
Qed.

(** X15. Read-only workloads (real_address, mark): whatever the
    configuration, a sequence of reads on a fresh simulation sets no dirty
    flag, counts no disk write and leaves the disk as [createVM] made it. *)
Theorem reads_never_write_the_disk
    (sizeVM sizePM pageSize sizeTLB pageReplAlg tlbReplAlg : Z)
    (m0 : VM) (ops : list access) (m : VM) :
  createVM sizeVM sizePM pageSize sizeTLB pageReplAlg tlbReplAlg = Done (Handle m0) ->
  Forall (fun op => is_read op = true) ops ->
  run m0 ops = Done m ->
  dc m = 0 /\ disk m = disk m0 /\
  forall f, 0 <= f < len (dirty m) -> rd (dirty m) f = 0.
Proof.
  intros Hc Hall Hr.
  assert (H0 : dc m0 = 0 /\ forall f, 0 <= f < len (dirty m0) -> rd (dirty m0) f = 0).
  { apply createVM_Done in Hc as (pv & pt & vt & _ & _ & _ & Hh). injection Hh as ->.
    vmsimpl. split; [reflexivity|]. intros f Hf. apply rd_calloc.
    unfold calloc, len in Hf. rewrite length_replicate in Hf. lia. }
  destruct H0 as [D0 Z0]. clear Hc.
  assert (G : forall s, dc s = 0 -> disk s = disk m0 ->
                (forall f, 0 <= f < len (dirty s) -> rd (dirty s) f = 0) ->
                run s ops = Done m ->
                dc m = 0 /\ disk m = disk m0 /\
                forall f, 0 <= f < len (dirty m) -> rd (dirty m) f = 0).
  { clear Hr. induction ops as [|op ops IH]; intros s Ds Ks Zs Hr; simpl in Hr.
    - injection Hr as <-. auto.
    - apply Forall_cons in Hall as [Hop Hall].
      apply obind_Done in Hr as (s1 & H1 & Hr).
      destruct (read_keeps_clean _ _ _ Hop Zs H1) as (Z1 & D1 & K1).
      apply (IH Hall s1); [congruence | congruence | exact Z1 | exact Hr]. }
  apply (G m0); auto.
Qed.

Lemma reads_never_write_the_disk_witness :
  dc cold1 = 0 /\ disk cold1 = disk demo0 /\
  forall f, 0 <= f < len (dirty cold1) -> rd (dirty cold1) f = 0.
Proof.
  apply (reads_never_write_the_disk 4 2 2 1 0 0 demo0 [ReadInt 4] cold1).
  - vm_compute. reflexivity.
  - repeat constructor.
  - vm_compute. reflexivity.
Defined.

(** ** Accesses that leave the tables *)

Lemma mark_out_of_bounds (m : VM) (fr dty : Z) :
  len (ptime m) <= fr -> len (dirty m) <= fr -> mark m fr dty = Stuck OutOfBounds.
Proof.
  intros H1 H2. unfold mark, set, inb.
  assert (E1 : (fr <? len (ptime m)) = false) by (apply Z.ltb_ge; lia).
  assert (E2 : (fr <? len (dirty m)) = false) by (apply Z.ltb_ge; lia).
  rewrite E1, E2, !andb_false_r.
  destruct (dty =? 0); reflexivity.
Qed.

(** In a state whose TLB still is the initial one, the translation of a page
    that has a TLB slot but no frame runs out of the page-table arrays. *)
Lemma real_address_beyond_frames (m : VM) (a dty : Z) :
  identity_tlb m -> 0 <= timestamp m < INT_MAX ->
  0 < pagesize m <= INT_MAX -> tlb m <= INT_MAX ->
  tlb m <= len (vtlb m) -> tlb m <= len (ptlb m) -> tlb m <= len (tlbtime m) ->
  len (dirty m) = len (ptime m) ->
  len (ptime m) * pagesize m <= a < tlb m * pagesize m ->
  real_address m a dty = Stuck OutOfBounds.
Proof.
  intros Hid Hts Hs Ht Lv Lp Lt Ld Ha.
  pose proof (len_nonneg (ptime m)) as Hn.
  destruct (page_between (pagesize m) a _ _ ltac:(lia) Ha) as [Hlo Hhi].
  assert (Hp : 0 <= a / pagesize m < tlb m) by lia.
  destruct (Hid _ Hp) as [Hv Hq].
  unfold real_address, iadd. rewrite ck_ok by (unfold INT_MIN, INT_MAX in *; lia).
  cbn [obind]. unfold udiv, urem. vmsimpl.
  rewrite u32_id by (unfold INT_MAX in *; lia).
  destruct (Z.eqb_spec (pagesize m) 0) as [|_]; [lia|]. cbn [obind].
  rewrite s32_id by lia.
  rewrite (lookup_in_tlb_and_mark_hit _ _ (a / pagesize m)); vmsimpl; try lia.
  - cbn [obind]. rewrite Hq.
    destruct (Z.eqb_spec (a / pagesize m) (-1)) as [|_]; [lia|]. cbn [negb].
    rewrite mark_out_of_bounds by (vmsimpl; lia). reflexivity.
  - split; [exact Hp|]. split; [lia|]. split; [exact Hv|].
    intros j Hj. assert (Hj' : 0 <= j < tlb m) by lia.
    destruct (Hid _ Hj') as [-> _]. lia.
Qed.

(** X16. A TLB larger than the physical memory (createVM,
    lookup_in_tlb_and_mark, mark): when sizeTLB > sizePM, the first access
    of a simulation to a page p with sizePM <= p < sizeTLB hits the TLB slot
    that [createVM] filled for p, takes p for a frame number and indexes
    the page-table arrays out of bounds. *)
Theorem oversized_tlb_is_out_of_bounds
    (sizeVM sizePM pageSize sizeTLB pageReplAlg tlbReplAlg : Z) (m0 : VM) (op : access) :
  0 < pageSize <= INT_MAX -> 0 <= sizePM < sizeTLB -> sizeTLB <= INT_MAX ->
  createVM sizeVM sizePM pageSize sizeTLB pageReplAlg tlbReplAlg = Done (Handle m0) ->
  sizePM * pageSize <= addr_of op < sizeTLB * pageSize ->
  exec m0 op = Stuck OutOfBounds.
Proof.
  intros Hs HP HT Hc Ha.
  assert (H : forall dty, real_address m0 (addr_of op) dty = Stuck OutOfBounds).
  { intros dty.
    apply createVM_Done in Hc as (pv & pt & vt & _ & Hpt & Hvt & Hh). injection Hh as ->.
    apply fill_Done in Hpt as (L2 & _ & _ & I2); [|lia].
    apply fill_Done in Hvt as (L3 & _ & _ & I3); [|lia].
    rewrite len_calloc in L2, L3 by lia.
    apply real_address_beyond_frames; vmsimpl;
      rewrite ?s32_id, ?len_calloc by lia; try lia.
    intros j Hj. vmsimpl. rewrite s32_id in Hj by lia. auto. }
  destruct op as [a|a|a v|a v]; simpl in *;
    unfold readInt, readFloat, writeInt, writeFloat, read_address, write_address;
    rewrite H; reflexivity.
Qed.

Lemma oversized_tlb_is_out_of_bounds_witness :
  exec wide0 (WriteFloat 5 1) = Stuck OutOfBounds.
Proof.
  apply (oversized_tlb_is_out_of_bounds 4 2 2 3 0 0 wide0 (WriteFloat 5 1)).
  - unfold INT_MAX. lia.
  - lia.
  - unfold INT_MAX. lia.
  - vm_compute. reflexivity.
  - simpl. lia.
Defined.

(** An address at or above the size of the virtual space, as an [unsigned
    int], has no page number among the virtual pages. *)
Lemma page_of_out_of_range (s v a : Z) :
  0 < s -> 0 <= v -> v * s <= a < 4294967296 -> ~ (0 <= s32 (a / s) < v).
Proof.
  intros Hs Hv Ha.
  assert (Hlo : v <= a / s) by (apply Z.div_le_lower_bound; lia).
  assert (Hhi : a / s < 4294967296) by (apply Z.div_lt_upper_bound; nia).
  unfold s32. rewrite Z.mod_small by lia.
  destruct (Z.ltb_spec (a / s) 2147483648); lia.
Qed.

(** No translation of such an address completes. *)
Lemma real_address_out_of_range (m : VM) (a dty : Z) (m' : VM) (w : Z) :
  sound m -> vpage m * pagesize m <= a < 4294967296 ->
  real_address m a dty = Done (m', w) -> False.
Proof.
  intros ((Lp & _ & _ & _ & _ & Hc) & _ & _ & (Hs & Hv & _ & _ & Ld & Hpv & _)) Ha H.
  assert (Hu : u32 (pagesize m) = pagesize m)
    by (apply u32_id; unfold INT_MAX in *; lia).
  assert (Hvp : 0 <= vpage m).
  { pose proof (len_nonneg (disk m)). nia. }
  pose proof (page_of_out_of_range (pagesize m) (vpage m) a (proj1 Hs) Hvp Ha) as Hout.
  apply real_address_Done in H as (_ & _ & H). rewrite Hu in H.
  destruct H as [H|[H|H]].
  - destruct H as (i & (Hi & _ & Hx & _) & _).
    destruct (Hc i Hi) as [Hr Hq]. specialize (Hpv _ Hr). apply Hout. lia.
  - destruct H as (t & fr & i & r & t' & _ & _ & (Hfr & _ & Hx & _) & _).
    specialize (Hpv _ Hfr). apply Hout. lia.
  - destruct H as (t & fr & r & c & dk & i & r' & t' & _ & _ & _ & _ & _ & _ & _ & _ &
                   _ & _ & _ & _ & Hd1 & Hd2 & _).
    apply Hout. rewrite Ld in Hd2. apply (slot_bounds (pagesize m)); lia.
Qed.

(** X17. Accesses outside the virtual space (real_address): in a
    configuration with 1 <= sizeTLB <= sizePM < sizeVM, pageSize >= 1 and
    sizeVM * pageSize * 4 <= 2147483647 and after any in-range accesses, no
    access to an address from sizeVM * pageSize up to 2^32 - 1 has a defined
    behaviour: no range check stops it, the address misses the TLB and the
    page table, and the page fault leaves the [int] range or the disk. *)
Theorem out_of_range_access_is_undefined
    (sizeVM sizePM pageSize sizeTLB pageReplAlg tlbReplAlg : Z)
    (m0 : VM) (ops : list access) (m : VM) (op : access) :
  sized sizeVM sizePM pageSize sizeTLB ->
  createVM sizeVM sizePM pageSize sizeTLB pageReplAlg tlbReplAlg = Done (Handle m0) ->
  Forall (fun op => 0 <= addr_of op < sizeVM * pageSize) ops ->
  run m0 ops = Done m ->
  sizeVM * pageSize <= addr_of op < 4294967296 ->
  exists f, exec m op = Stuck f.
Proof.
  intros Hz Hc Hall Hr Ha.
  destruct (sound_reachable _ _ _ _ _ _ _ _ _ Hz Hc Hall Hr)
    as (Sm & _ & _ & E1 & E2 & _).
  apply not_Done_Stuck; [apply exec_not_fatal|].
  intros m' He. apply exec_Done in He as (m1 & w & H & _).
  revert H. apply real_address_out_of_range; [exact Sm|]. now rewrite E1, E2.
Qed.

Lemma out_of_range_access_is_undefined_witness :
  exists f, exec demo2 (WriteInt 8 1) = Stuck f.
Proof.
  apply (out_of_range_access_is_undefined 4 2 2 1 0 0 demo0 [WriteInt 0 7; WriteInt 2 9]
           demo2 (WriteInt 8 1)).
  - unfold sized, INT_MAX. lia.
  - vm_compute. reflexivity.
  - repeat constructor; simpl; lia.
  - vm_compute. reflexivity.
  - simpl. lia.
Defined.

(** ** What the counters count *)

Lemma is_cached_true (m : VM) (p i : Z) :
  coherent m -> len (tlbtime m) = tlb m -> first_at (vtlb m) (tlb m) p i ->
  is_cached m p = true.
Proof.
  intros (_ & Lp & Lv & _ & _ & Hc) Lt Hf. unfold is_cached.
  pose proof Hf as (Hi & _).
  rewrite (lookup_in_tlb_and_mark_hit m p i) by (lia || assumption).
  destruct (Hc i Hi) as [Hr _].
  destruct (Z.eqb_spec (rd (ptlb m) i) (-1)); [lia | reflexivity].
Qed.

Lemma is_cached_false (m : VM) (p : Z) :
  tlb m <= len (vtlb m) -> absent (vtlb m) (tlb m) p -> is_cached m p = false.
Proof.
  intros Lv Ha. unfold is_cached.
  now rewrite lookup_in_tlb_and_mark_miss.
Qed.

Lemma tlb_missed_absent (m : VM) (pte : Z) (t : list Z) :
  coherent m -> tlb_missed m pte t -> absent (vtlb m) (tlb m) pte.
Proof.
  intros (_ & _ & _ & _ & _ & Hc) [[Ha _]|(i & (Hi & _) & _ & _ & Hneg & _)];
    [exact Ha|].
  destruct (Hc i Hi) as [Hr _]. lia.
Qed.

Lemma real_address_counts (m : VM) (a dty : Z) (m' : VM) (w : Z) :
  coherent m -> len (tlbtime m) = tlb m -> real_address m a dty = Done (m', w) ->
  tc m' = tc m + (if is_cached m (page_of m a) then 0 else 1) /\
  pc m' = pc m + (if is_resident m (page_of m a) then 0 else 1).
Proof.
  intros Hco Lt H. pose proof Hco as (Lp & _ & Lv & _ & _ & Hc). unfold page_of.
  apply real_address_Done in H as (_ & _ & [H|[H|H]]).
  - destruct H as (i & Hf & _ & _ & _ & _ & _ & _ & ->).
    rewrite (is_cached_true m _ i Hco Lt Hf).
    pose proof Hf as (Hi & _ & Hx & _). destruct (Hc i Hi) as [Hr Hq].
    rewrite (is_resident_true m _ (rd (ptlb m) i) Hco Hr) by congruence.
    vmsimpl. lia.
  - destruct H as (t & fr & i & r & t' & Hmiss & _ & Hf & _ & _ & _ & _ & _ & _ & ->).
    rewrite (is_cached_false m) by (try lia; eapply tlb_missed_absent; eauto).
    destruct Hf as (Hfr & _ & Hx & _).
    rewrite (is_resident_true m _ fr Hco Hfr Hx).
    vmsimpl. lia.
  - destruct H as (t & fr & r & c & dk & i & r' & t' & Hmiss & _ & Hab & _ & _ & _ & _ & _ &
                   _ & _ & _ & _ & _ & _ & _ & _ & _ & _ & _ & ->).
    rewrite (is_cached_false m) by (try lia; eapply tlb_missed_absent; eauto).
    rewrite (is_resident_false m) by (try lia; assumption).
    vmsimpl. lia.
Qed.

Lemma tlbtime_len_reachable
    (sizeVM sizePM pageSize sizeTLB pageReplAlg tlbReplAlg : Z) (m : VM) :
  0 <= sizeTLB ->
  reachable sizeVM sizePM pageSize sizeTLB pageReplAlg tlbReplAlg m ->
  len (tlbtime m) = len (vtlb m).
Proof.
  intros HT (m0 & ops & Hc & Hr).
  apply accesses_lengths in Hr as (_ & _ & _ & _ & L5 & L6 & _).
  rewrite L5, L6.
  apply createVM_Done in Hc as (pv & pt & vt & _ & _ & Hvt & Hh). injection Hh as ->.
  apply fill_Done in Hvt as (L3 & _); [|lia]. vmsimpl. now rewrite L3.
Qed.

(** X18. What the counters count (real_address): in a simulation with
    sizeTLB <= sizePM an access counts a TLB miss exactly when the TLB
    lookup for its page misses, and a page fault exactly when its page is
    in no frame. *)
Theorem misses_and_faults_are_counted_exactly
    (sizeVM sizePM pageSize sizeTLB pageReplAlg tlbReplAlg : Z)
    (m : VM) (op : access) (m' : VM) :
  0 <= sizeTLB <= sizePM ->
  reachable sizeVM sizePM pageSize sizeTLB pageReplAlg tlbReplAlg m ->
  exec m op = Done m' ->
  tc m' = tc m + (if is_cached m (page_of m (addr_of op)) then 0 else 1) /\
  pc m' = pc m + (if is_resident m (page_of m (addr_of op)) then 0 else 1).
Proof.
  intros HT Rm He.
  pose proof (coherent_reachable _ _ _ _ _ _ _ HT Rm) as Hco.
  pose proof (tlbtime_len_reachable _ _ _ _ _ _ _ (proj1 HT) Rm) as Lt.
  pose proof Hco as (_ & _ & Lv & _).
  apply exec_Done in He as (m1 & w & H & Hs).
  apply stored_counters in Hs as (-> & -> & _).
  apply (real_address_counts m (addr_of op) (dirty_flag op) m1 w);
    [exact Hco | congruence | exact H].
Qed.

Lemma misses_and_faults_are_counted_exactly_witness :
  tc demo3 = tc demo2 + (if is_cached demo2 (page_of demo2 4) then 0 else 1) /\
  pc demo3 = pc demo2 + (if is_resident demo2 (page_of demo2 4) then 0 else 1).
Proof.
  apply (misses_and_faults_are_counted_exactly 4 2 2 1 0 0 demo2 (ReadInt 4) demo3).
  - lia.
  - exact demo2_reachable.
  - vm_compute. reflexivity.
Defined.

(** ** Timestamps and byte offsets *)

(** X19. Timestamps and cursors (real_address, mark, addtlb, choose_page,
    choose_tlb): in a simulation with at least one frame and one TLB slot,
    no lastUsed timestamp of a frame or of a TLB slot is ahead of the clock,
    and the two round-robin cursors are a frame number and a slot number. *)
Theorem timestamps_never_exceed_clock
    (sizeVM sizePM pageSize sizeTLB pageReplAlg tlbReplAlg : Z) (m : VM) :
  0 < sizePM <= INT_MAX -> 0 < sizeTLB <= INT_MAX ->
  reachable sizeVM sizePM pageSize sizeTLB pageReplAlg tlbReplAlg m ->
  (forall f, 0 <= f < sizePM -> rd (ptime m) f <= timestamp m) /\
  (forall i, 0 <= i < sizeTLB -> rd (tlbtime m) i <= timestamp m) /\
  0 <= rrp m < sizePM /\ 0 <= rrt m < sizeTLB.
Proof.
  intros HP HT Rm.
  pose proof (reachable_config _ _ _ _ _ _ _ Rm) as (_ & _ & E3 & _ & E5 & _).
  rewrite s32_id in E3, E5 by lia.
  destruct Rm as (m0 & ops & Hc & Hr).
  assert (Ht : timed m).
  { revert Hr. apply (run_invariant timed timed_exec).
    apply createVM_Done in Hc as (pv & pt & vt & _ & _ & _ & Hh). injection Hh as ->.
    unfold timed. vmsimpl. rewrite !s32_id, !len_calloc by lia.
    unfold INT_MAX in *.
    repeat split; try lia; intros j Hj; rewrite rd_calloc; lia. }
  destruct Ht as (_ & _ & _ & Hp & Hq & (R1 & R2) & (R3 & R4)).
  rewrite E3, E5 in *. repeat split; auto; lia.
Qed.

Lemma timestamps_never_exceed_clock_witness :
  (forall f, 0 <= f < 2 -> rd (ptime demo4) f <= timestamp demo4) /\
  (forall i, 0 <= i < 1 -> rd (tlbtime demo4) i <= timestamp demo4) /\
  0 <= rrp demo4 < 2 /\ 0 <= rrt demo4 < 1.
Proof.
  apply (timestamps_never_exceed_clock 4 2 2 1 0 0 demo4);
    [unfold INT_MAX; lia | unfold INT_MAX; lia | exact demo4_reachable].
Defined.

Lemma ck_overflow (z : Z) : INT_MAX < z -> ck z = Stuck IntOverflow.
Proof.
  intros H. unfold ck.
  destruct (int_ok z) eqn:E; [|reflexivity].
  apply int_ok_spec in E. lia.
Qed.

Lemma make_address_overflow (m : VM) (fr add : Z) :
  0 <= fr -> 0 < pagesize m -> INT_MAX < fr * pagesize m * 4 ->
  make_address m fr add = Stuck IntOverflow.
Proof.
  intros Hf Hs H. unfold make_address, imul.
  destruct (Z_le_gt_dec (fr * pagesize m) INT_MAX) as [Hle|Hgt].
  - rewrite ck_ok by (unfold INT_MIN, INT_MAX in *; nia). cbn [obind].
    now rewrite ck_overflow.
  - rewrite ck_overflow by lia. reflexivity.
Qed.

(** In a state whose TLB still is the initial one, the translation of a page
    whose frame starts at or above byte 2^31 of the memory overflows. *)
Lemma real_address_overflow (m : VM) (a dty : Z) :
  identity_tlb m -> 0 <= timestamp m < INT_MAX ->
  0 < pagesize m <= INT_MAX -> tlb m <= INT_MAX ->
  tlb m <= len (vtlb m) -> tlb m <= len (ptlb m) -> tlb m <= len (tlbtime m) ->
  tlb m <= len (ptime m) -> tlb m <= len (dirty m) ->
  0 <= a < tlb m * pagesize m ->
  INT_MAX < a / pagesize m * pagesize m * 4 ->
  real_address m a dty = Stuck IntOverflow.
Proof.
  intros Hid Hts Hs Ht Lv Lp Lt Lpt Ld Ha Hov.
  destruct (page_between (pagesize m) a 0 (tlb m) ltac:(lia) ltac:(lia)) as [Hlo Hhi].
  assert (Hp : 0 <= a / pagesize m < tlb m) by lia.
  destruct (Hid _ Hp) as [Hv Hq].
  unfold real_address, iadd. rewrite ck_ok by (unfold INT_MIN, INT_MAX in *; lia).
  cbn [obind]. unfold udiv, urem. vmsimpl.
  rewrite u32_id by (unfold INT_MAX in *; lia).
  destruct (Z.eqb_spec (pagesize m) 0) as [|_]; [lia|]. cbn [obind].
  rewrite s32_id by lia.
  rewrite (lookup_in_tlb_and_mark_hit _ _ (a / pagesize m)); vmsimpl; try lia.
  - cbn [obind]. rewrite Hq.
    destruct (Z.eqb_spec (a / pagesize m) (-1)) as [|_]; [lia|]. cbn [negb].
    rewrite mark_ok by (vmsimpl; lia). cbn [obind].
    rewrite make_address_overflow by (vmsimpl; lia). reflexivity.
  - split; [exact Hp|]. split; [lia|]. split; [exact Hv|].
    intros j Hj. assert (Hj' : 0 <= j < tlb m) by lia.
    destruct (Hid _ Hj') as [-> _]. lia.
Qed.

(** X20. Byte offsets are [int]s (make_address): the source asks for
    sizeVM * pageSize <= 2^32 words, but the byte offset of a frame is
    computed as an [int].  With sizeTLB <= sizePM, the first access of a
    simulation to an address among the pages that the TLB holds whose
    frame would start at or above byte 2^31 of the memory is a signed
    overflow. *)
Theorem large_frame_offset_overflows
    (sizeVM sizePM pageSize sizeTLB pageReplAlg tlbReplAlg : Z) (m0 : VM) (op : access) :
  0 < pageSize <= INT_MAX -> 0 <= sizeTLB <= sizePM -> sizePM <= INT_MAX ->
  createVM sizeVM sizePM pageSize sizeTLB pageReplAlg tlbReplAlg = Done (Handle m0) ->
  0 <= addr_of op < sizeTLB * pageSize ->
  INT_MAX < addr_of op / pageSize * pageSize * 4 ->
  exec m0 op = Stuck IntOverflow.
Proof.
  intros Hs HT HP Hc Ha Hov.
  assert (H : forall dty, real_address m0 (addr_of op) dty = Stuck IntOverflow).
  { intros dty.
    apply createVM_Done in Hc as (pv & pt & vt & _ & Hpt & Hvt & Hh). injection Hh as ->.
    apply fill_Done in Hpt as (L2 & _ & _ & I2); [|lia].
    apply fill_Done in Hvt as (L3 & _ & _ & I3); [|lia].
    rewrite len_calloc in L2, L3 by lia.
    apply real_address_overflow; vmsimpl;
      rewrite ?s32_id, ?len_calloc by lia; try lia.
    intros j Hj. vmsimpl. rewrite s32_id in Hj by lia. auto. }
  destruct op as [a|a|a v|a v]; simpl in *;
    unfold readInt, readFloat, writeInt, writeFloat, read_address, write_address;
    rewrite H; reflexivity.
Qed.

Lemma big0_create : createVM 4 2 536870912 2 0 0 = Done (Handle big0).
Proof.
  assert (F : fill (calloc 2) 2 = Done [0; 1]) by (vm_compute; reflexivity).
  unfold createVM. rewrite F. cbn [obind]. reflexivity.
Qed.

Lemma large_frame_offset_overflows_witness :
  exec big0 (ReadInt 536870912) = Stuck IntOverflow.
Proof.
  apply (large_frame_offset_overflows 4 2 536870912 2 0 0 big0 (ReadInt 536870912)).
  - unfold INT_MAX. lia.
  - lia.
  - unfold INT_MAX. lia.
  - exact big0_create.
  - simpl. lia.
  - simpl. unfold INT_MAX. rewrite Z.div_same by lia. lia.
Defined.

(** ** LRU over several accesses *)

Lemma older_bounds (t : Z) (l : list Z) : 0 <= older t l <= len l.
Proof.
  induction l as [|x l IH]; simpl.
  - unfold len. simpl. lia.
  - unfold len in *. simpl length. destruct (x <? t); lia.
Qed.

Lemma older_all (t : Z) (l : list Z) :
  (forall j, 0 <= j < len l -> rd l j < t) -> older t l = len l.
Proof.
  induction l as [|x l IH]; intros H; [reflexivity|].
  simpl. unfold len in *. simpl length.
  assert (Hx : x < t).
  { apply (H 0). simpl length. lia. }
  destruct (Z.ltb_spec x t); [|lia].
  rewrite IH; [lia|]. intros j Hj.
  specialize (H (j + 1)). unfold rd in *.
  replace (Z.to_nat (j + 1)) with (S (Z.to_nat j)) in H by lia.
  apply H. simpl length. lia.
Qed.

Lemma older_insert (t v : Z) (l : list Z) (i : nat) :
  older t l - 1 <= older t (<[i := v]> l).
Proof.
  revert i. induction l as [|x l IH]; intros i; [simpl; lia|].
  destruct i as [|i]; simpl.
  - destruct (x <? t), (v <? t); lia.
  - specialize (IH i). destruct (x <? t); lia.
Qed.

Lemma older_upd (t v : Z) (l : list Z) (i : Z) : older t l - 1 <= older t (upd l i v).
Proof. apply older_insert. Qed.

Lemma older_exists (t : Z) (l : list Z) :
  0 < older t l -> exists g, 0 <= g < len l /\ rd l g < t.
Proof.
  induction l as [|x l IH]; simpl; [lia|]. intros H.
  destruct (Z.ltb_spec x t).
  - exists 0. unfold len, rd. simpl. split; [lia | assumption].
  - destruct IH as (g & Hg & Hlt); [lia|].
    exists (g + 1). unfold len, rd in *. simpl length.
    replace (Z.to_nat (g + 1)) with (S (Z.to_nat g)) by lia.
    split; [lia | exact Hlt].
Qed.

(** Under LRU a frame is not the victim while a frame with an older
    timestamp exists; every access makes at most one frame newer. *)
Lemma lru_survives (fr p t : Z) (ops : list access) (s s' : VM) :
  coherent s -> palg s <> 0 -> len (ptime s) = ppage s ->
  0 <= fr < ppage s -> rd (pvirt s) fr = p -> t <= rd (ptime s) fr ->
  t <= timestamp s + 1 ->
  Z.of_nat (length ops) <= older t (ptime s) ->
  run s ops = Done s' -> is_resident s' p = true.
Proof.
  revert s. induction ops as [|op ops IH]; intros s Hco Ha Lt Hfr Hx Hst Hts Hold Hr;
    simpl in Hr.
  - injection Hr as <-. now apply (is_resident_true s p fr).
  - apply obind_Done in Hr as (s1 & H1 & Hr).
    simpl length in Hold.
    destruct (older_exists t (ptime s)) as (g & Hg & Hgt); [lia|].
    pose proof (coherent_exec _ _ _ Hco H1) as Hco1.
    pose proof (exec_config _ _ _ H1) as (_ & _ & C3 & C4 & _).
    pose proof (exec_lengths _ _ _ H1) as (_ & L2 & _).
    pose proof (exec_timestamp _ _ _ H1) as Et.
    assert (Hpt : exists f1, 0 <= f1 < len (ptime s) /\
                             ptime s1 = upd (ptime s) f1 (timestamp s + 1)).
    { pose proof H1 as H1'.
      apply exec_Done in H1' as (x1 & w1 & R1 & St1).
      apply (real_address_stamp _ _ _ _ _ Hco) in R1 as (f1 & Hf1 & _ & _ & Hpt).
      apply stored_tables in St1 as (y1 & -> & _). exists f1. auto. }
    destruct Hpt as (f1 & Hf1 & Hpt).
    assert (Hx1 : rd (pvirt s1) fr = p).
    { apply exec_tables in H1 as [(_ & Hpv & _)|(v & _ & Hvi & Hbv & _ & _ & Hpv & _)];
        rewrite Hpv; [exact Hx|].
      destruct Hvi as [(E & _)|(_ & _ & Hmin)]; [congruence|].
      apply minindex_Done in Hmin as [[-> _]|(Hi & _ & Hle & _)]; [lia|].
      assert (Hne : v <> fr).
      { intros ->. assert (Hg' : 0 <= g < ppage s) by lia.
        specialize (Hle g Hg'). lia. }
      rewrite rd_upd_ne by lia. exact Hx. }
    assert (Hst1 : t <= rd (ptime s1) fr).
    { rewrite Hpt. destruct (Z.eq_dec f1 fr) as [->|Hne].
      - rewrite rd_upd_eq by lia. exact Hts.
      - rewrite rd_upd_ne by lia. exact Hst. }
    assert (Hold1 : Z.of_nat (length ops) <= older t (ptime s1)).
    { rewrite Hpt. pose proof (older_upd t (timestamp s + 1) (ptime s) f1). lia. }
    apply (IH s1); try assumption; try congruence; lia.
Qed.

(** X21. LRU keeps recent pages (real_address, mark, choose_page,
    minindex): with LRU page replacement, in a configuration with
    1 <= sizeTLB <= sizePM < sizeVM, pageSize >= 1 and
    sizeVM * pageSize * 4 <= 2147483647, the page of an access is still in
    memory after the next sizePM - 1 accesses, whatever they are: its frame
    is not the victim while a frame with an older timestamp exists, and
    every access gives a new timestamp to one frame only. *)
Theorem lru_keeps_recent_pages
    (sizeVM sizePM pageSize sizeTLB pageReplAlg tlbReplAlg : Z)
    (m0 : VM) (ops : list access) (m : VM) (op : access) (m1 : VM)
    (ops2 : list access) (m2 : VM) :
  sized sizeVM sizePM pageSize sizeTLB -> pageReplAlg <> 0 ->
  createVM sizeVM sizePM pageSize sizeTLB pageReplAlg tlbReplAlg = Done (Handle m0) ->
  Forall (fun op => 0 <= addr_of op < sizeVM * pageSize) ops ->
  run m0 ops = Done m ->
  0 <= addr_of op < sizeVM * pageSize ->
  exec m op = Done m1 ->
  Z.of_nat (length ops2) < sizePM ->
  run m1 ops2 = Done m2 ->
  is_resident m2 (addr_of op / pageSize) = true.
Proof.
  intros Hz Halg Hc Hall Hr Ha H1 Hlen H2.
  destruct (sound_reachable _ _ _ _ _ _ _ _ _ Hz Hc Hall Hr)
    as (Sm & _ & _ & E1 & E2 & E3 & _).
  assert (Rm : reachable sizeVM sizePM pageSize sizeTLB pageReplAlg tlbReplAlg m)
    by (exists m0, ops; auto).
  pose proof (reachable_config _ _ _ _ _ _ _ Rm) as (_ & _ & _ & Ea & _).
  pose proof Sm as (Hco & _ & (Lt & _ & _ & Ht & _) & (Hs & Hv & _)).
  destruct (page_of_in_range m (addr_of op) Hs Hv) as (_ & Ep & _); [now rewrite E1, E2|].
  pose proof (coherent_exec _ _ _ Hco H1) as Hco1.
  pose proof (exec_config _ _ _ H1) as (_ & _ & C3 & C4 & _).
  pose proof (exec_lengths _ _ _ H1) as (_ & L2 & _).
  pose proof (exec_timestamp _ _ _ H1) as Et.
  assert (Hfr : exists fr, 0 <= fr < ppage m /\ rd (pvirt m1) fr = addr_of op / pageSize /\
                           ptime m1 = upd (ptime m) fr (timestamp m + 1)).
  { apply exec_Done in H1 as (x1 & w1 & R1 & St1).
    apply (real_address_stamp _ _ _ _ _ Hco) in R1 as (fr & _ & Hfr & Hx & Hst).
    apply stored_tables in St1 as (y1 & -> & _).
    exists fr. rewrite Ep, E1 in Hx. auto. }
  destruct Hfr as (fr & Hfr & Hx & Hst).
  apply (lru_survives fr _ (timestamp m + 1) ops2 m1); try congruence; try lia.
  - rewrite Hst, rd_upd_eq by lia. lia.
  - rewrite Hst.
    pose proof (older_upd (timestamp m + 1) (timestamp m + 1) (ptime m) fr).
    rewrite (older_all (timestamp m + 1) (ptime m)) in H.
    + lia.
    + intros j Hj. rewrite Lt in Hj. specialize (Ht j Hj). lia.
Qed.

Lemma lru_keeps_recent_pages_witness :
  is_resident lru2 (0 / 2) = true.
Proof.
  apply (lru_keeps_recent_pages 4 2 2 1 1 1 lru0 [] lru0 (WriteInt 0 7) lru1
           [ReadInt 4] lru2).
  - unfold sized, INT_MAX. lia.
  - lia.
  - vm_compute. reflexivity.
  - constructor.
  - reflexivity.
  - simpl. lia.
  - vm_compute. reflexivity.
  - simpl. lia.
  - vm_compute. reflexivity.
Defined.

(** ** Round-robin over several page faults *)

Lemma exec_pc_mono (m : VM) (op : access) (m' : VM) :
  exec m op = Done m' -> pc m <= pc m'.
Proof.
  intros H. apply exec_tables in H as [(H & _)|(fr & H & _)]; lia.
Qed.

Lemma run_pc_mono (ops : list access) (m m' : VM) :
  run m ops = Done m' -> pc m <= pc m'.
Proof.
  apply (run_invariant (fun s => pc m <= pc s)); [|lia].
  intros s op s' Hs He. apply exec_pc_mono in He. lia.
Qed.

(** Under round-robin the fault that follows [k] faults takes frame
    [k mod ppage]: a frame filled by fault number [c] is left alone by the
    faults number [c + 1] to [c + ppage - 1]. *)
Lemma rr_survives (fr p c : Z) (ops : list access) (s s' : VM) :
  coherent s -> cursor_counts s -> palg s = 0 -> 0 < ppage s ->
  0 <= fr < ppage s -> fr = c mod ppage s -> rd (pvirt s) fr = p ->
  c < pc s -> run s ops = Done s' -> pc s' <= c + ppage s ->
  is_resident s' p = true.
Proof.
  revert s. induction ops as [|op ops IH];
    intros s Hco Hcc Ha HP Hfr Hc Hx Hlo Hr Hhi; simpl in Hr.
  - injection Hr as <-. now apply (is_resident_true s p fr).
  - apply obind_Done in Hr as (s1 & H1 & Hr).
    pose proof (coherent_exec _ _ _ Hco H1) as Hco1.
    pose proof (cursor_counts_exec _ _ _ Hcc H1) as Hcc1.
    pose proof (exec_config _ _ _ H1) as (_ & _ & C3 & C4 & _).
    pose proof (exec_pc_mono _ _ _ H1) as M1.
    pose proof (run_pc_mono _ _ _ Hr) as M2.
    assert (Hx1 : rd (pvirt s1) fr = p).
    { destruct Hcc as (_ & _ & Hrr). specialize (Hrr Ha).
      apply exec_tables in H1 as [(_ & Hpv & _)|(v & Hpc & Hvi & Hbv & _ & _ & Hpv & _)];
        rewrite Hpv; [exact Hx|].
      rewrite Ha in Hvi.
      pose proof (Z.mod_pos_bound (pc s) (ppage s) HP) as Hb.
      apply victim_round_robin in Hvi as [-> _]; [|lia|lia].
      assert (Hne : rrp s <> fr).
      { rewrite Hrr, Hc. intros E.
        assert (D : (pc s - c) mod ppage s = 0).
        { rewrite Zminus_mod, E, Z.sub_diag. apply Zmod_0_l. }
        apply Z.mod_divide in D; [|lia]. destruct D as [q D].
        assert (B : 0 < q * ppage s < ppage s) by lia.
        destruct (Z_le_gt_dec q 0); nia. }
      rewrite rd_upd_ne by lia. exact Hx. }
    apply (IH s1); rewrite ?C3, ?C4; try assumption; lia.
Qed.

(** X22. Round-robin keeps new pages (real_address, choose_page): with
    round-robin page replacement, sizeTLB <= sizePM and at most 2^30 frames,
    a page that a page fault has brought in is still in memory as long as
    fewer than sizePM further page faults have been counted. *)
Theorem round_robin_keeps_new_pages
    (sizeVM sizePM pageSize sizeTLB tlbReplAlg : Z)
    (m : VM) (op : access) (m1 : VM) (ops2 : list access) (m2 : VM) :
  0 < sizePM <= 1073741824 -> 0 <= sizeTLB <= sizePM ->
  reachable sizeVM sizePM pageSize sizeTLB 0 tlbReplAlg m ->
  exec m op = Done m1 -> pc m1 = pc m + 1 ->
  run m1 ops2 = Done m2 -> pc m2 - pc m1 < sizePM ->
  is_resident m2 (page_of m (addr_of op)) = true.
Proof.
  intros HP HT Rm H1 Hpc H2 Hlt.
  pose proof (coherent_reachable _ _ _ _ _ _ _ HT Rm) as Hco.
  assert (HP0 : 0 <= sizePM) by lia.
  pose proof (cursor_counts_reachable _ _ _ _ _ _ _ HP0 Rm) as Hcc.
  pose proof (reachable_config _ _ _ _ _ _ _ Rm) as (_ & _ & E3 & E4 & _).
  rewrite s32_id in E3 by (unfold INT_MAX; lia).
  pose proof (coherent_exec _ _ _ Hco H1) as Hco1.
  pose proof (cursor_counts_exec _ _ _ Hcc H1) as Hcc1.
  pose proof (exec_config _ _ _ H1) as (_ & _ & C3 & C4 & _).
  pose proof Hcc as (Lp & _ & Hrr). specialize (Hrr E4).
  assert (HPm : 0 < ppage m) by lia.
  pose proof (Z.mod_pos_bound (pc m) (ppage m) HPm) as Hb.
  apply exec_tables in H1 as [(E & _)|(v & _ & Hvi & Hbv & _ & _ & Hpv & _)]; [lia|].
  rewrite E4 in Hvi. apply victim_round_robin in Hvi as [-> _]; [|lia|lia].
  apply (rr_survives (rrp m) _ (pc m) ops2 m1); rewrite ?C3, ?C4; try assumption; try lia.
  rewrite Hpv. apply rd_upd_eq. lia.
Qed.

Lemma round_robin_keeps_new_pages_witness :
  is_resident demo4 (page_of demo2 4) = true.
Proof.
  apply (round_robin_keeps_new_pages 4 2 2 1 0 demo2 (ReadInt 4) demo3 [ReadInt 0] demo4).
  - lia.
  - lia.
  - exact demo2_reachable.
  - vm_compute. reflexivity.
  - reflexivity.
  - vm_compute. reflexivity.
  - simpl. lia.
Defined.
